(** * WPAPILib: a shallow embedding of [src/WPAPILib.js]

    The library is one JavaScript class.  Its methods are embedded as
    functions in a state-and-error monad over the client object, a heap of
    header objects and the network environment.  JavaScript strings are
    sequences of code units; here one [ascii] stands for one code unit (the
    Latin-1 range, which is what Node.js produces for header values). *)

From Stdlib Require Import String Ascii List ZArith Lia Bool DecimalString.
From stdpp Require Import base list.
Import ListNotations.
Open Scope string_scope.

(** ** String primitives of the JavaScript runtime *)

Module JSString.

(** [s.startsWith(p)] *)
Fixpoint startsWith (s p : string) {struct p} : bool :=
  match p, s with
  | EmptyString, _ => true
  | String _ _, EmptyString => false
  | String a p', String b s' => if Ascii.eqb a b then startsWith s' p' else false
  end.

Fixpoint drop (n : nat) (s : string) : string :=
  match n, s with
  | O, _ => s
  | S _, EmptyString => EmptyString
  | S n', String _ s' => drop n' s'
  end.

Fixpoint take (n : nat) (s : string) : string :=
  match n, s with
  | O, _ => EmptyString
  | S _, EmptyString => EmptyString
  | S n', String c s' => String c (take n' s')
  end.

(** Least position [i] of [s] at which [sub] starts, counted from [k]. *)
Fixpoint find_from (sub s : string) (k : nat) : option nat :=
  if startsWith s sub then Some k
  else match s with
       | EmptyString => None
       | String _ s' => find_from sub s' (S k)
       end.

(** [s.indexOf(sub, from)]: the position argument is clamped to
    [0 .. s.length]; the result is -1 when there is no match. *)
Definition indexOf (s sub : string) (from : Z) : Z :=
  let p := Z.to_nat (Z.min from (Z.of_nat (String.length s))) in
  match find_from sub (drop p s) p with
  | Some i => Z.of_nat i
  | None => (-1)%Z
  end.

(** [s.includes(sub)] *)
Definition includes (s sub : string) : bool :=
  match find_from sub s 0 with
  | Some _ => true
  | None => false
  end.

(** [s.substring(start, end)]: both arguments are clamped to
    [0 .. s.length] and swapped when [start > end]. *)
Definition substring (s : string) (start end_ : Z) : string :=
  let len := Z.of_nat (String.length s) in
  let a := Z.min (Z.max start 0) len in
  let b := Z.min (Z.max end_ 0) len in
  let from := Z.to_nat (Z.min a b) in
  let to := Z.to_nat (Z.max a b) in
  take (to - from) (drop from s).

(** [s.split(sep)].  The scan goes left to right; at a match the piece read
    so far is emitted and the scan resumes after the separator, so matches
    never overlap.  [skip] counts the code units of a matched separator
    still to be passed over. *)
Fixpoint split_go (sep s : string) (skip : nat) (cur : string) : list string :=
  match s with
  | EmptyString => [cur]
  | String c s' =>
      match skip with
      | S k => split_go sep s' k cur
      | O =>
          if startsWith s sep
          then cur :: split_go sep s' (String.length sep - 1) EmptyString
          else split_go sep s' 0 (cur ++ String c EmptyString)
      end
  end.

Fixpoint chars (s : string) : list string :=
  match s with
  | EmptyString => []
  | String c s' => String c EmptyString :: chars s'
  end.

Definition split (s sep : string) : list string :=
  match sep with
  | EmptyString => chars s
  | String _ _ => split_go sep s 0 EmptyString
  end.

(** [l.join(sep)] *)
Fixpoint join (l : list string) (sep : string) : string :=
  match l with
  | [] => EmptyString
  | [x] => x
  | x :: l' => x ++ sep ++ join l' sep
  end.

(** Code units of the Latin-1 range that [trim] removes: TAB, LF, VT, FF,
    CR, SPACE and NO-BREAK SPACE. *)
Definition is_space (c : ascii) : bool :=
  let n := nat_of_ascii c in
  ((9 <=? n)%nat && (n <=? 13)%nat) || (n =? 32)%nat || (n =? 160)%nat.

Fixpoint trimStart (s : string) : string :=
  match s with
  | EmptyString => EmptyString
  | String c s' => if is_space c then trimStart s' else s
  end.

Fixpoint trimEnd (s : string) : string :=
  match s with
  | EmptyString => EmptyString
  | String c s' =>
      match trimEnd s' with
      | EmptyString => if is_space c then EmptyString else String c EmptyString
      | r => String c r
      end
  end.

Definition trim (s : string) : string := trimEnd (trimStart s).

(** Lower-casing of one Latin-1 code unit: A-Z, and the accented capitals
    0xC0-0xDE except the multiplication sign 0xD7. *)
Definition lower_unit (c : ascii) : ascii :=
  let n := nat_of_ascii c in
  if ((65 <=? n)%nat && (n <=? 90)%nat)
     || ((192 <=? n)%nat && (n <=? 222)%nat && negb (n =? 215)%nat)
  then ascii_of_nat (n + 32)
  else c.

Fixpoint toLowerCase (s : string) : string :=
  match s with
  | EmptyString => EmptyString
  | String c s' => String (lower_unit c) (toLowerCase s')
  end.

(** [String(n)] for a non-negative integer. *)
Definition of_nat (n : nat) : string :=
  NilEmpty.string_of_uint (Nat.to_uint n).

End JSString.
Import JSString.

(** ** Values, header objects and errors *)

(** The values found in a header object received from Node.js: a string, the
    array of strings of [set-cookie], or the number under [:status]. *)
Inductive value :=
| VStr (s : string)
| VList (l : list string)
| VNum (n : Z).

(** A received header object: its own properties in creation order. *)
Definition Headers := list (string * value).

(** [Object.getOwnPropertyDescriptor(headers, name)]; [None] is [undefined],
    otherwise the descriptor's [value]. *)
Fixpoint getOwnProperty {V : Type} (o : list (string * V)) (name : string) : option V :=
  match o with
  | [] => None
  | (k, v) :: o' => if String.eqb k name then Some v else getOwnProperty o' name
  end.

(** [v == ""] with JavaScript's loose equality: an array is compared through
    its [join(",")], a number through [Number("") = 0]. *)
Definition loose_eq_empty (v : value) : bool :=
  match v with
  | VStr s => String.eqb s ""
  | VList l => String.eqb (join l ",") ""
  | VNum n => (n =? 0)%Z
  end.

(** Strings that may be [null] or [undefined]. *)
Inductive nullable :=
| Null
| Undefined
| Str (s : string).

(** [x != null] *)
Definition not_null (x : nullable) : bool :=
  match x with
  | Str _ => true
  | _ => false
  end.

(** The string a value turns into under [+] and in template literals. *)
Definition to_string (x : nullable) : string :=
  match x with
  | Null => "null"
  | Undefined => "undefined"
  | Str s => s
  end.

(** A header object under construction ([addHeader]): names and values, in
    creation order. *)
Definition HeaderObj := list (string * nullable).

(** [Object.defineProperty(o, name, {value, enumerable, configurable})]: an
    existing (configurable) property is redefined in place, a new one is
    added after the others. *)
Fixpoint defineProperty (o : HeaderObj) (name : string) (value : nullable) : HeaderObj :=
  match o with
  | [] => [(name, value)]
  | (k, v) :: o' =>
      if String.eqb k name then (k, value) :: o'
      else (k, v) :: defineProperty o' name value
  end.

(** Number of own properties called [name]. *)
Definition count_name (o : HeaderObj) (name : string) : nat :=
  List.length (List.filter (fun kv => String.eqb (fst kv) name) o).

(** The errors the library raises, one constructor for each [throw] or
    [reject] site, and the errors of the runtime it lets through. *)
Inductive js_error :=
| NoCookiesReceived
| EmptyCookiesReceived
| AuthCookiesNotReceived
| SettingsNeedLogin
| APICallNeedsLogin
| UnsupportedProtocol (protocol : string)
| WrappedError (cause : string)
| TypeError (what : string)
| TransportException (what : string)
| SyntaxError (text : string)
| InvalidURL (input : string).

Definition dquote : string := String (ascii_of_nat 34) EmptyString.

(** The message of each error; for an error of the runtime, the text it
    carries.  In [callAPI] the template reads [route] before its
    assignment, hence the word undefined. *)
Definition message (e : js_error) : string :=
  match e with
  | NoCookiesReceived => "No cookies received in server response."
  | EmptyCookiesReceived => "Empty cookies received in server response."
  | AuthCookiesNotReceived => "Authentication cookies not received in server response."
  | SettingsNeedLogin => "You must be authenticated (login) before getting API settings."
  | APICallNeedsLogin =>
      "API call " ++ dquote ++ "undefined" ++ dquote ++ " requires authentication."
  | UnsupportedProtocol p => "Unsupported protocol " ++ p
  | WrappedError c => c
  | TypeError w => w
  | TransportException w => w
  | SyntaxError t => t
  | InvalidURL i => i
  end.


(** ** The client object and its environment *)

(** The fields of a [URL] object the library reads. *)
Record URL := {
  protocol : string;
  hostname : string;
  port : string;
  pathname : string;
  search : string
}.

(** The object [JSON.parse] returns for the embedded settings, with the
    members the library reads or writes. *)
Record APISettingsObj := {
  root : nullable;
  nonce : nullable;
  versionString : nullable;
  gateway : nullable
}.

Definition set_gateway (o : APISettingsObj) (g : nullable) : APISettingsObj :=
  {| root := root o; nonce := nonce o; versionString := versionString o; gateway := g |}.

(** What [JSON.parse] may return: an object (an array included), [null], or
    a number, string or boolean. *)
Inductive parsed :=
| PObject (o : APISettingsObj)
| PNull
| PPrimitive.

(** An object none of whose members is defined; reading a member of a
    number, string or boolean gives the same answers. *)
Definition no_members : APISettingsObj :=
  {| root := Undefined; nonce := Undefined; versionString := Undefined;
     gateway := Undefined |}.

(** [this]: the instance fields; [None] is [undefined] or [null]. *)
Record Client := {
  _baseURL : URL;
  _authCookies : option (list string);
  _APISettings : option APISettingsObj;
  _useHTTP2 : option bool
}.

(** Services of the runtime that are not part of the library. *)
Record Runtime := {
  (** [JSON.parse]; [None] when it throws a [SyntaxError] *)
  JSON_parse : string -> option parsed;
  (** [new URL(s)]; [None] when it throws *)
  URL_parse : string -> option URL;
  (** [querystring.stringify] *)
  querystring_stringify : list (string * string) -> string;
  (** [Buffer.byteLength] *)
  Buffer_byteLength : string -> nat;
  (** [process.version] *)
  process_version : string
}.

(** Addresses of header objects. *)
Definition loc := nat.

Inductive Transport :=
| HTTP1 (secure : bool)
| HTTP2 (authority : string).

(** The request handle ([http.ClientRequest] or an HTTP/2 stream) with what
    it was created from and what was written to it. *)
Record Request := {
  transport : Transport;
  req_hostname : string;
  req_port : string;
  req_path : string;
  req_method : string;
  req_headers : option loc;
  written : option string
}.

Record Response := {
  statusCode : value;
  headers : Headers
}.

(** State of a promise; it settles at most once. *)
Inductive Promise :=
| Pending
| Resolved
| Rejected (e : js_error).

Definition resolve (p : Promise) : Promise :=
  match p with
  | Pending => Resolved
  | _ => p
  end.

Definition reject (p : Promise) (e : js_error) : Promise :=
  match p with
  | Pending => Rejected e
  | _ => p
  end.

(** What the transport reports for one exchange. *)
Inductive Event :=
| EvResponse (status : Z) (hdrs : Headers)
| EvData (chunk : string)
| EvEnd
| EvError (e : string).

(** [returnObj] of the two request builders.  [request], [response], [data]
    and [promise] are its properties; [chunkedData] is the variable of the
    response listener's closure, present once a response has begun;
    [incoming] holds the events the network will deliver for this
    exchange. *)
Record Exchange := {
  request : option Request;
  response : option Response;
  data : option string;
  promise : Promise;
  chunkedData : option (Response * string);
  incoming : list Event
}.

(** The behaviour of the network for one exchange: whether [request.end()]
    throws, and the events that follow. *)
Record ExchangeEnv := {
  end_throws : option string;
  events : list Event
}.

(** Calls into the transport modules. *)
Inductive NetCall :=
| http_request (secure : bool) (host port path method : string) (hdrs : option loc)
| http2_connect (authority : string)
| http2_request (hdrs : option loc).

Record State := {
  this : Client;
  heap : list HeaderObj;
  net : list ExchangeEnv;
  calls : list NetCall
}.

(** ** The monad of the methods *)

Inductive result (A : Type) :=
| Ok (a : A)
| Throw (e : js_error)
| Hang.
Arguments Ok {A} a.
Arguments Throw {A} e.
Arguments Hang {A}.

Definition M (A : Type) : Type := State -> result A * State.

Definition ret {A} (a : A) : M A := fun st => (Ok a, st).

Definition bind {A B} (m : M A) (k : A -> M B) : M B :=
  fun st =>
    match m st with
    | (Ok a, st') => k a st'
    | (Throw e, st') => (Throw e, st')
    | (Hang, st') => (Hang, st')
    end.

Definition throw {A} (e : js_error) : M A := fun st => (Throw e, st).

(** An [await] on a promise that never settles. *)
Definition hang {A} : M A := fun st => (Hang, st).

Definition get_this : M Client := fun st => (Ok (this st), st).

Definition set_this (c : Client) : M unit :=
  fun st => (Ok tt, {| this := c; heap := heap st; net := net st; calls := calls st |}).

Definition lift {A} (r : result A) : M A := fun st => (r, st).

Declare Scope js_scope.
Delimit Scope js_scope with js.
Notation "x <- m ;; k" := (bind m (fun x => k))
  (at level 100, m at next level, right associativity) : js_scope.
Notation "m ;;; k" := (bind m (fun _ => k))
  (at level 100, right associativity) : js_scope.
Open Scope js_scope.

Definition set_heap (h : list HeaderObj) : M unit :=
  fun st => (Ok tt, {| this := this st; heap := h; net := net st; calls := calls st |}).

Definition get_heap : M (list HeaderObj) := fun st => (Ok (heap st), st).

(** Records a call into a transport module. *)
Definition call (c : NetCall) : M unit :=
  fun st => (Ok tt, {| this := this st; heap := heap st; net := net st;
                       calls := calls st ++ [c] |}).

(** Takes the environment of the next exchange; when the network has
    nothing more to say the exchange sees no event at all. *)
Definition next_env : M ExchangeEnv :=
  fun st =>
    match net st with
    | [] => (Ok {| end_throws := None; events := [] |}, st)
    | env :: rest =>
        (Ok env, {| this := this st; heap := heap st; net := rest; calls := calls st |})
    end.

(** ** The listeners of an exchange *)

Definition set_promise (ex : Exchange) (p : Promise) : Exchange :=
  {| request := request ex; response := response ex; data := data ex;
     promise := p; chunkedData := chunkedData ex; incoming := incoming ex |}.

(** One event reaching [returnObj].  Without a request no listener was
    registered.  Over HTTP/1.1 the response object and the body are stored
    when the response ends; over HTTP/2 the [response] listener stores a
    proxy response at once, its status read from the [:status] member that
    Node.js puts first in the header object. *)
Definition on_event (ex : Exchange) (ev : Event) : Exchange :=
  match request ex with
  | None => ex
  | Some rq =>
      match ev with
      | EvError e => set_promise ex (reject (promise ex) (WrappedError e))
      | EvResponse status hdrs =>
          match transport rq with
          | HTTP1 _ =>
              {| request := request ex; response := response ex; data := data ex;
                 promise := promise ex;
                 chunkedData := Some ({| statusCode := VNum status; headers := hdrs |}, "");
                 incoming := incoming ex |}
          | HTTP2 _ =>
              let hdrs2 := (":status", VNum status) :: hdrs in
              match getOwnProperty hdrs2 ":status" with
              | Some v =>
                  let r := {| statusCode := v; headers := hdrs2 |} in
                  {| request := request ex; response := Some r; data := data ex;
                     promise := promise ex; chunkedData := Some (r, "");
                     incoming := incoming ex |}
              | None => ex
              end
          end
      | EvData chunk =>
          match chunkedData ex with
          | Some (r, acc) =>
              {| request := request ex; response := response ex; data := data ex;
                 promise := promise ex; chunkedData := Some (r, acc ++ chunk);
                 incoming := incoming ex |}
          | None => ex
          end
      | EvEnd =>
          match chunkedData ex with
          | Some (r, acc) =>
              match transport rq with
              | HTTP1 _ =>
                  {| request := request ex; response := Some r; data := Some acc;
                     promise := resolve (promise ex); chunkedData := chunkedData ex;
                     incoming := incoming ex |}
              | HTTP2 _ =>
                  {| request := request ex; response := response ex; data := Some acc;
                     promise := resolve (promise ex); chunkedData := chunkedData ex;
                     incoming := incoming ex |}
              end
          | None => ex
          end
      end
  end.

(** The events are delivered one by one until the promise settles, which is
    when the awaiting method resumes. *)
Fixpoint deliver (evs : list Event) (ex : Exchange) : Exchange :=
  match evs with
  | [] => ex
  | ev :: evs' =>
      match promise ex with
      | Pending => deliver evs' (on_event ex ev)
      | _ => ex
      end
  end.

(** [await returnObj.promise] *)
Definition await (ex : Exchange) : M Exchange :=
  let ex' := deliver (incoming ex) ex in
  match promise ex' with
  | Resolved => ret ex'
  | Rejected e => throw e
  | Pending => hang
  end.

(** [returnObj.request.end()], its exception reported as a value so that
    each caller writes its own [catch]. *)
Definition request_end (ex : Exchange) : M (option js_error * Exchange) :=
  match request ex with
  | None => ret (Some (TypeError "Cannot read properties of null (reading 'end')"), ex)
  | Some _ =>
      env <- next_env ;;
      ret (option_map TransportException (end_throws env),
           {| request := request ex; response := response ex; data := data ex;
              promise := promise ex; chunkedData := chunkedData ex;
              incoming := events env |})
  end.

(** [try { returnObj.request.end(); } catch (error) { }] followed by
    [await returnObj.promise]. *)
Definition send (ex : Exchange) : M Exchange :=
  r <- request_end ex ;;
  await (snd r).

(** ** The methods of [WPAPILib] *)

(** [data] of [buildRequest]: [null], an object of parameters, or a query
    string. *)
Inductive ReqData :=
| DNull
| DObject (params : list (string * string))
| DString (s : string).

(** What [login] resolves with. *)
Record LoginObj := {
  login_request : option Request;
  login_response : Response;
  login_status : value;
  login_authCookies : option (list string);
  login_APISettings : option APISettingsObj
}.

(** A property that may hold a response object or a plain value. *)
Inductive jsval :=
| JSNull
| JSValue (v : value)
| JSResponse (r : Response).

(** What [callAPI] resolves with. *)
Record ResponseObj := {
  res_request : option Request;
  res_response : option Response;
  res_status : jsval;
  res_data : option string
}.

Section Methods.

Variable rt : Runtime.

(** [constructor(blogURL)] *)
Definition constructor (blogURL : string) : result Client :=
  match URL_parse rt blogURL with
  | Some u => Ok {| _baseURL := u; _authCookies := None; _APISettings := None;
                    _useHTTP2 := None |}
  | None => Throw (InvalidURL blogURL)
  end.

Definition version : string := "v0.0.1".

Definition userAgent : string :=
  "WPAPILib/" ++ version ++ " (Node.js/" ++ process_version rt ++ ")".

Definition authenticated (c : Client) : bool :=
  match _authCookies c with
  | None => false
  | Some [] => false
  | Some (_ :: _) => true
  end.

Definition authHeader (c : Client) : nullable :=
  match _authCookies c with
  | None => Null
  | Some [] => Null
  | Some l => Str (join l "; ")
  end.

(** The getter stores [false] in [_useHTTP2] when the field is unset. *)
Definition useHTTP2 : M bool :=
  c <- get_this ;;
  match _useHTTP2 c with
  | Some b => ret b
  | None =>
      set_this {| _baseURL := _baseURL c; _authCookies := _authCookies c;
                  _APISettings := _APISettings c; _useHTTP2 := Some false |} ;;;
      ret false
  end.

Definition APISettings (c : Client) : option APISettingsObj := _APISettings c.

Definition APIRootURL (c : Client) : nullable :=
  match APISettings c with
  | None => Null
  | Some o => root o
  end.

Definition APINonce (c : Client) : nullable :=
  match APISettings c with
  | None => Null
  | Some o => nonce o
  end.

Definition APIVersionString (c : Client) : nullable :=
  match APISettings c with
  | None => Null
  | Some o => versionString o
  end.

Definition APIGateway (c : Client) : nullable :=
  match APISettings c with
  | None => Str "?rest_route/"
  | Some o => gateway o
  end.

(** [addHeader(name, value, headerObj=null)]: a missing object is created;
    the property is defined on the object itself, which is returned. *)
Definition addHeader (name : string) (value : nullable) (headerObj : option loc) : M loc :=
  h <- get_heap ;;
  let '(l, h) := match headerObj with
                 | None => (List.length h, (h ++ [[]])%list)
                 | Some l => (l, h)
                 end in
  match h !! l with
  | Some o => set_heap (<[l := defineProperty o name value]> h) ;;; ret l
  | None => throw (TypeError "Object.defineProperty called on non-object")
  end.

Definition empty_exchange : Exchange :=
  {| request := None; response := None; data := None; promise := Pending;
     chunkedData := None; incoming := [] |}.

(** [buildHTTP1Request(path, method, data, headers)].  The promise executor
    runs at once: it creates the request for [http:] and [https:] and
    rejects otherwise.  The statements after the promise use
    [returnObj.request] whatever the executor did.  [http.request] and
    [https.request] are taken to return a request for the options they are
    given. *)
Definition buildHTTP1Request (path method : string) (data : option string)
    (headers : option loc) : M Exchange :=
  c <- get_this ;;
  let url := _baseURL c in
  addHeader "Host" (Str (hostname url)) headers ;;;
  addHeader "Connection" (Str "keep-alive") headers ;;;
  let mk secure :=
    call (http_request secure (hostname url) (port url) path method headers) ;;;
    ret {| request := Some {| transport := HTTP1 secure; req_hostname := hostname url;
                              req_port := port url; req_path := path;
                              req_method := method; req_headers := headers;
                              written := None |};
           response := None; data := None; promise := Pending;
           chunkedData := None; incoming := [] |} in
  returnObj <- (if String.eqb (protocol url) "http:" then mk false
                else if String.eqb (protocol url) "https:" then mk true
                else ret (set_promise empty_exchange
                            (reject Pending (UnsupportedProtocol (protocol url))))) ;;
  match request returnObj with
  | None =>
      match data with
      | Some _ => throw (TypeError "Cannot read properties of null (reading 'write')")
      | None => throw (TypeError "Cannot read properties of null (reading 'on')")
      end
  | Some rq =>
      ret {| request := Some {| transport := transport rq; req_hostname := req_hostname rq;
                                req_port := req_port rq; req_path := req_path rq;
                                req_method := req_method rq; req_headers := req_headers rq;
                                written := data |};
             response := response returnObj; data := None;
             promise := promise returnObj; chunkedData := None; incoming := [] |}
  end.

(** [buildHTTP2Request(path, method, data, headers)].  Everything happens in
    the promise executor.  For a protocol other than [http:] and [https:]
    it rejects and goes on to [http2.connect], which refuses such a
    protocol by throwing; the exception ends the executor and the promise
    keeps its first rejection. *)
Definition buildHTTP2Request (path method : string) (data : option string)
    (headers : option loc) : M Exchange :=
  c <- get_this ;;
  let url := _baseURL c in
  addHeader ":path" (Str path) headers ;;;
  addHeader ":method" (Str method) headers ;;;
  let supported := String.eqb (protocol url) "http:" || String.eqb (protocol url) "https:" in
  let p := if supported then Pending
           else reject Pending (UnsupportedProtocol (protocol url)) in
  let authority := protocol url ++ "//" ++ hostname url in
  call (http2_connect authority) ;;;
  if supported then
    call (http2_request headers) ;;;
    ret {| request := Some {| transport := HTTP2 authority; req_hostname := hostname url;
                              req_port := port url; req_path := path;
                              req_method := method; req_headers := headers;
                              written := data |};
           response := None; data := None; promise := p;
           chunkedData := None; incoming := [] |}
  else
    ret (set_promise empty_exchange
           (reject p (TransportException "ERR_HTTP2_UNSUPPORTED_PROTOCOL"))).

(** The path of a request: [pathname + "/" + path] with each ["//"] found
    by [split] replaced by ["/"]. *)
Definition fullPath (pathname path : string) : string :=
  join (split (pathname ++ "/" ++ path) "//") "/".

(** [buildRequest(path="", data=null, method="POST", useAuth=true)].
    [headers] is undefined at the first [addHeader], which therefore
    creates the object; the later calls drop their result and rely on
    the object being the same. *)
Definition buildRequest (path : string) (data : ReqData) (method : string)
    (useAuth : bool) : M Exchange :=
  headers <- addHeader "Content-Type" (Str "application/x-www-form-urlencoded") None ;;
  data <- match data with
          | DNull =>
              addHeader "Content-Length" (Str "0") (Some headers) ;;;
              ret None
          | DObject o =>
              let d := querystring_stringify rt o in
              addHeader "Content-Length" (Str (of_nat (Buffer_byteLength rt d)))
                (Some headers) ;;;
              ret (Some d)
          | DString d =>
              addHeader "Content-Length" (Str (of_nat (Buffer_byteLength rt d)))
                (Some headers) ;;;
              ret (Some d)
          end ;;
  addHeader "Accept"
    (Str "application/json,text/javascript,text/html,application/xhtml+xml,application/xml, */*")
    (Some headers) ;;;
  addHeader "Accept-Encoding" (Str "identity") (Some headers) ;;;
  addHeader "Accept-Language" (Str "en-CA,en-US,en") (Some headers) ;;;
  addHeader "User-Agent" (Str userAgent) (Some headers) ;;;
  c <- get_this ;;
  (if authenticated c && useAuth then
     addHeader "Cookie" (authHeader c) (Some headers) ;;;
     if not_null (APINonce c) then
       addHeader "X-WP-Nonce" (APINonce c) (Some headers) ;;; ret tt
     else ret tt
   else
     addHeader "Cookie" (Str "humans_21909=1") (Some headers) ;;; ret tt) ;;;
  let fullPath := fullPath (pathname (_baseURL c)) path in
  h2 <- useHTTP2 ;;
  if h2 then buildHTTP2Request fullPath method data (Some headers)
  else buildHTTP1Request fullPath method data (Some headers).

(** The loop of [isHTTP2Upgrade] over the comma-separated upgrade types. *)
Fixpoint upgrade_loop (upgradeTypes : list string) : bool :=
  match upgradeTypes with
  | [] => false
  | t :: rest =>
      let currentType := toLowerCase (trim t) in
      if String.eqb currentType "h2" || String.eqb currentType "h2c" then true
      else upgrade_loop rest
  end.

(** [isHTTP2Upgrade(headers)].  A value that is not a string has no
    [toLowerCase] or [split], and calling it raises a [TypeError]. *)
Definition isHTTP2Upgrade (headers : Headers) : result bool :=
  match getOwnProperty headers "connection", getOwnProperty headers "upgrade" with
  | Some connection, Some upgrade =>
      if loose_eq_empty upgrade then Ok false
      else if loose_eq_empty connection then Ok false
      else
        match connection with
        | VStr c =>
            if negb (includes (toLowerCase c) "upgrade") then Ok false
            else
              match upgrade with
              | VStr u => Ok (upgrade_loop (split u ","))
              | _ => Throw (TypeError "upgradeDesc.value.split is not a function")
              end
        | _ => Throw (TypeError "connectionDesc.value.toLowerCase is not a function")
        end
  | _, _ => Ok false
  end.

(** [reqResObj.response], then a property of it: a [TypeError] on [null]. *)
Definition read_response (ex : Exchange) : M Response :=
  match response ex with
  | Some r => ret r
  | None => throw (TypeError "Cannot read properties of null (reading 'statusCode')")
  end.

Definition set_useHTTP2 (b : bool) : M unit :=
  c <- get_this ;;
  set_this {| _baseURL := _baseURL c; _authCookies := _authCookies c;
              _APISettings := _APISettings c; _useHTTP2 := Some b |}.

Definition set_authCookies (l : list string) : M unit :=
  c <- get_this ;;
  set_this {| _baseURL := _baseURL c; _authCookies := Some l;
              _APISettings := _APISettings c; _useHTTP2 := _useHTTP2 c |}.

Definition set_APISettings (o : APISettingsObj) : M unit :=
  c <- get_this ;;
  set_this {| _baseURL := _baseURL c; _authCookies := _authCookies c;
              _APISettings := Some o; _useHTTP2 := _useHTTP2 c |}.

Definition set_baseURL (u : URL) : M unit :=
  c <- get_this ;;
  set_this {| _baseURL := u; _authCookies := _authCookies c;
              _APISettings := _APISettings c; _useHTTP2 := _useHTTP2 c |}.

(** First part of [login] (lines 178-203): the login exchange, sent again
    after [_useHTTP2] is set when the response asks for the upgrade. *)
Definition login_exchange (loginPath : string) (loginParams : ReqData)
    : M (option Request * Response) :=
  reqResObj <- buildRequest loginPath loginParams "POST" true ;;
  reqResObj <- send reqResObj ;;
  response <- read_response reqResObj ;;
  upgrade <- lift (isHTTP2Upgrade (headers response)) ;;
  if upgrade then
    set_useHTTP2 true ;;;
    reqResObj <- buildRequest loginPath loginParams "POST" true ;;
    reqResObj <- send reqResObj ;;
    response <- read_response reqResObj ;;
    ret (request reqResObj, response)
  else ret (request reqResObj, response).

(** [cookiesDesc.value.length] and [cookiesDesc.value[count]]: the entries
    of an array, the code units of a string; a number has no [length] and
    the loop does not run. *)
Definition entries (v : value) : list string :=
  match v with
  | VList l => l
  | VStr s => chars s
  | VNum _ => []
  end.

(** [x.split(";")[0]] *)
Definition name_value (x : string) : string := List.hd EmptyString (split x ";").

(** The loop over the received cookies, pushing onto [_authCookies]. *)
Fixpoint cookie_loop (cookies : list string) (authCookies : list string) : list string :=
  match cookies with
  | [] => authCookies
  | x :: rest =>
      if startsWith x "wordpress_" || startsWith x "wp_"
      then cookie_loop rest (authCookies ++ [name_value x])%list
      else cookie_loop rest authCookies
  end.

(** Second part of [login] (lines 204-220): the cookies of the final
    response. *)
Definition login_cookies (headers : Headers) : M unit :=
  match getOwnProperty headers "set-cookie" with
  | None => throw NoCookiesReceived
  | Some value =>
      if loose_eq_empty value then throw EmptyCookiesReceived
      else
        set_authCookies (cookie_loop (entries value) []) ;;;
        c <- get_this ;;
        match _authCookies c with
        | Some (_ :: _) => ret tt
        | _ => throw AuthCookiesNotReceived
        end
  end.

(** The text [getAPISettings] hands to [JSON.parse]. *)
Definition settings_text (data : string) : string :=
  let settingsIndex := indexOf data "var wpApiSettings" 0 in
  let objStartIndex := indexOf data "{" settingsIndex in
  let objEndIndex := (indexOf data "};" settingsIndex + 1)%Z in
  substring data objStartIndex objEndIndex.

Definition clear_APISettings : M unit :=
  c <- get_this ;;
  set_this {| _baseURL := _baseURL c; _authCookies := _authCookies c;
              _APISettings := None; _useHTTP2 := _useHTTP2 c |}.

(** [this._APISettings = JSON.parse(...)] *)
Definition store_parsed (v : parsed) : M unit :=
  match v with
  | PObject o => set_APISettings o
  | PNull => clear_APISettings
  | PPrimitive => set_APISettings no_members
  end.

(** [this._APISettings.root] *)
Definition read_root (v : parsed) : M nullable :=
  match v with
  | PObject o => ret (root o)
  | PNull => throw (TypeError "Cannot read properties of null (reading 'root')")
  | PPrimitive => ret Undefined
  end.

(** [this._APISettings.gateway = g]; the class body is strict code, where
    the assignment to a member of [null] or of a primitive value throws. *)
Definition write_gateway (v : parsed) (g : nullable) : M unit :=
  match v with
  | PObject o => set_APISettings (set_gateway o g)
  | PNull => throw (TypeError "Cannot set properties of null (setting 'gateway')")
  | PPrimitive => throw (TypeError "Cannot create property 'gateway' on a primitive value")
  end.

(** Second part of [getAPISettings] (lines 299-310): the settings are cut
    out of the body, parsed and stored. *)
Definition store_settings (updateURL : bool) (nonceReqRes : Exchange) : M bool :=
  match data nonceReqRes with
  | None => throw (TypeError "Cannot read properties of null (reading 'indexOf')")
  | Some d =>
      let wpApiSettingsStr := settings_text d in
      match JSON_parse rt wpApiSettingsStr with
      | None => throw (SyntaxError wpApiSettingsStr)
      | Some v =>
          store_parsed v ;;;
          if updateURL then
            root <- read_root v ;;
            match URL_parse rt (to_string root) with
            | None => throw (InvalidURL (to_string root))
            | Some u =>
                set_baseURL u ;;;
                write_gateway v (Str (search u)) ;;;
                ret true
            end
          else
            write_gateway v (Str "?rest_route/") ;;;
            ret true
      end
  end.

(** [getAPISettings(updateURL=true)] *)
Definition getAPISettings (updateURL : bool) : M bool :=
  c <- get_this ;;
  if negb (authenticated c) then throw SettingsNeedLogin
  else
    nonceReqRes <- buildRequest "wp-admin/post-new.php" DNull "GET" true ;;
    r <- request_end nonceReqRes ;;
    match fst r with
    | Some _ => ret false
    | None =>
        nonceReqRes <- await (snd r) ;;
        store_settings updateURL nonceReqRes
    end.

(** [login(loginName, loginPassword, loginPath="wp-login.php")] *)
Definition login (loginName loginPassword loginPath : string) : M LoginObj :=
  let loginParams := DObject [("log", loginName); ("pwd", loginPassword)] in
  r <- login_exchange loginPath loginParams ;;
  login_cookies (headers (snd r)) ;;;
  getAPISettings true ;;;
  c <- get_this ;;
  ret {| login_request := fst r; login_response := snd r;
         login_status := statusCode (snd r);
         login_authCookies := _authCookies c;
         login_APISettings := APISettings c |}.

(** The route of an API call: gateway, version string and endpoint, with
    each ["//"] found by [split] replaced by ["/"]. *)
Definition route (c : Client) (endpoint : string) : string :=
  join (split (to_string (APIGateway c) ++ to_string (APIVersionString c) ++ endpoint)
          "//") "/".

(** [callAPI(endpoint, params=null, method="POST", useAuth=true)] *)
Definition callAPI (endpoint : string) (params : ReqData) (method : string)
    (useAuth : bool) : M ResponseObj :=
  c <- get_this ;;
  if negb (authenticated c) && useAuth then throw APICallNeedsLogin
  else
    reqResObj <- buildRequest (route c endpoint) params method useAuth ;;
    reqResObj <- send reqResObj ;;
    ret {| res_request := request reqResObj;
           res_response := response reqResObj;
           res_status := match response reqResObj with
                         | Some r => JSResponse r
                         | None => JSNull
                         end;
           res_data := data reqResObj |}.

(** [toString()] *)
Definition toString : string := "WPAPILib " ++ version.

End Methods.

(** ** A small runtime for running the methods on examples

    The readers below cover the inputs of the examples: flat JSON objects
    whose members are strings without escapes, and absolute URLs of the
    shape [scheme://host[:port][/path][?query]].  On these they return what
    [JSON.parse] and [new URL] return; they reject everything else. *)

Module SmallRuntime.

Inductive reader :=
| Start
| KeyOrClose
| Key
| InKey (k : string)
| Colon (k : string)
| Val (k : string)
| InVal (k v : string)
| CommaOrClose
| Done
| Bad.

Definition is_json_space (c : ascii) : bool :=
  let n := nat_of_ascii c in
  (n =? 32)%nat || (n =? 9)%nat || (n =? 10)%nat || (n =? 13)%nat.

Definition plain (c : ascii) : bool :=
  let n := nat_of_ascii c in
  (32 <=? n)%nat && negb (n =? 34)%nat && negb (n =? 92)%nat.

Definition is_quote (c : ascii) : bool := (nat_of_ascii c =? 34)%nat.

Definition step (st : reader * list (string * string)) (c : ascii)
    : reader * list (string * string) :=
  let '(r, ms) := st in
  let one := String c EmptyString in
  match r with
  | Start => if is_json_space c then st
             else if String.eqb one "{" then (KeyOrClose, ms) else (Bad, ms)
  | KeyOrClose => if is_json_space c then st
                  else if is_quote c then (InKey "", ms)
                  else if String.eqb one "}" then (Done, ms) else (Bad, ms)
  | Key => if is_json_space c then st
           else if is_quote c then (InKey "", ms) else (Bad, ms)
  | InKey k => if is_quote c then (Colon k, ms)
               else if plain c then (InKey (k ++ one), ms) else (Bad, ms)
  | Colon k => if is_json_space c then st
               else if String.eqb one ":" then (Val k, ms) else (Bad, ms)
  | Val k => if is_json_space c then st
             else if is_quote c then (InVal k "", ms) else (Bad, ms)
  | InVal k v => if is_quote c then (CommaOrClose, (k, v) :: ms)
                 else if plain c then (InVal k (v ++ one), ms) else (Bad, ms)
  | CommaOrClose => if is_json_space c then st
                    else if String.eqb one "," then (Key, ms)
                    else if String.eqb one "}" then (Done, ms) else (Bad, ms)
  | Done => if is_json_space c then st else (Bad, ms)
  | Bad => st
  end.

Fixpoint run (st : reader * list (string * string)) (s : string)
    : reader * list (string * string) :=
  match s with
  | EmptyString => st
  | String c s' => run (step st c) s'
  end.

(** A member read later overrides an earlier one of the same name. *)
Definition member (ms : list (string * string)) (k : string) : nullable :=
  match getOwnProperty ms k with
  | Some v => Str v
  | None => Undefined
  end.

Definition parse (s : string) : option parsed :=
  match run (Start, []) s with
  | (Done, ms) =>
      Some (PObject {| root := member ms "root"; nonce := member ms "nonce";
                       versionString := member ms "versionString";
                       gateway := member ms "gateway" |})
  | _ => None
  end.

(** Position of the first ["/"] or ["?"] of [s], or its length. *)
Fixpoint host_end (s : string) : nat :=
  match s with
  | EmptyString => 0
  | String c s' =>
      if String.eqb (String c EmptyString) "/" || String.eqb (String c EmptyString) "?"
      then 0 else S (host_end s')
  end.

Definition url (s : string) : option URL :=
  let i := indexOf s "://" 0 in
  if (i <=? 0)%Z then None
  else
    let scheme := take (Z.to_nat i) s in
    let rest := drop (Z.to_nat i + 3) s in
    let hostport := take (host_end rest) rest in
    let tail := drop (host_end rest) rest in
    let q := indexOf tail "?" 0 in
    let path := if (q <? 0)%Z then tail else take (Z.to_nat q) tail in
    let query := if (q <? 0)%Z then "" else drop (Z.to_nat q) tail in
    let c := indexOf hostport ":" 0 in
    if String.eqb hostport "" then None
    else
      Some {| protocol := scheme ++ ":";
              hostname := if (c <? 0)%Z then hostport else take (Z.to_nat c) hostport;
              port := if (c <? 0)%Z then "" else drop (Z.to_nat c + 1) hostport;
              pathname := if String.eqb path "" then "/" else path;
              search := if String.eqb query "?" then "" else query |}.

(** Parameters whose names and values need no escaping. *)
Fixpoint stringify (o : list (string * string)) : string :=
  match o with
  | [] => ""
  | [(k, v)] => k ++ "=" ++ v
  | (k, v) :: o' => k ++ "=" ++ v ++ "&" ++ stringify o'
  end.

Definition runtime : Runtime :=
  {| JSON_parse := parse; URL_parse := url; querystring_stringify := stringify;
     Buffer_byteLength := String.length; process_version := "v18.0.0" |}.

End SmallRuntime.

(** * Vocabulary of the properties *)


(** The value the [useHTTP2] getter returns. *)
Definition flag (c : Client) : bool :=
  match _useHTTP2 c with
  | Some b => b
  | None => false
  end.

(** The client after the [useHTTP2] getter has run. *)
Definition read_flag (c : Client) : Client :=
  {| _baseURL := _baseURL c; _authCookies := _authCookies c;
     _APISettings := _APISettings c; _useHTTP2 := Some (flag c) |}.

(** The exchange a builder returns for a request it created. *)
Definition built (tr : Transport) (u : URL) (path method : string) (l : option loc)
    (body : option string) : Exchange :=
  {| request := Some {| transport := tr; req_hostname := hostname u; req_port := port u;
                        req_path := path; req_method := method; req_headers := l;
                        written := body |};
     response := None; data := None; promise := Pending; chunkedData := None;
     incoming := [] |}.

(** The exchange the HTTP/2 builder returns when it created no request. *)
Definition refused (p : string) : Exchange :=
  {| request := None; response := None; data := None;
     promise := Rejected (UnsupportedProtocol p); chunkedData := None; incoming := [] |}.

(** The protocols the builders accept, with the module each selects. *)
Definition secure_of (p : string) : option bool :=
  if String.eqb p "http:" then Some false
  else if String.eqb p "https:" then Some true
  else None.

Definition null_request (body : option string) : string :=
  match body with
  | Some _ => "Cannot read properties of null (reading 'write')"
  | None => "Cannot read properties of null (reading 'on')"
  end.

Definition with_incoming (ex : Exchange) (evs : list Event) : Exchange :=
  {| request := request ex; response := response ex; data := data ex;
     promise := promise ex; chunkedData := chunkedData ex; incoming := evs |}.

(** The environment of the next exchange. *)
Definition upcoming (nt : list ExchangeEnv) : ExchangeEnv :=
  match nt with
  | [] => {| end_throws := None; events := [] |}
  | env :: _ => env
  end.

(** What [await] makes of a promise. *)
Definition settled (ex : Exchange) : result Exchange :=
  match promise ex with
  | Resolved => Ok ex
  | Rejected e => Throw e
  | Pending => Hang
  end.

(** The response object an exchange shows for a [response] event. *)
Definition response_of (tr : Transport) (status : Z) (hdrs : Headers) : Response :=
  match tr with
  | HTTP1 _ => {| statusCode := VNum status; headers := hdrs |}
  | HTTP2 _ => {| statusCode := VNum status; headers := (":status", VNum status) :: hdrs |}
  end.

Definition answers (evs : list Event) (tr : Transport) (r : Response) : Prop :=
  exists status hdrs, In (EvResponse status hdrs) evs /\ r = response_of tr status hdrs.

(** What holds of an exchange while the events [all] reach it: the response
    being read and the stored response come from a [response] event, a
    resolved promise comes with response and body, a rejected one with an
    [error] event. *)
Record exchange_inv (all : list Event) (rq : Request) (ex : Exchange) : Prop := {
  inv_request : request ex = Some rq;
  inv_reading : forall r acc, chunkedData ex = Some (r, acc) ->
    answers all (transport rq) r /\
    (forall a, transport rq = HTTP2 a -> response ex = Some r);
  inv_resolved : promise ex = Resolved ->
    exists r d, response ex = Some r /\ data ex = Some d /\ answers all (transport rq) r;
  inv_rejected : forall e, promise ex = Rejected e ->
    exists s, In (EvError s) all /\ e = WrappedError s
}.

(** A method that does not write to [this]. *)
Definition keeps_this {A} (m : M A) : Prop :=
  forall st r st', m st = (r, st') -> this st' = this st.

(** The fields a method leaves as they were: the URL ([u]), the cookies
    ([a]), the settings ([s]), the value of the [useHTTP2] getter ([f]).
    Whatever the switches, the getter's value never goes from [true] to
    [false]. *)
Definition preserved (u a s f : bool) (c c' : Client) : Prop :=
  (u = true -> _baseURL c' = _baseURL c) /\
  (a = true -> _authCookies c' = _authCookies c) /\
  (s = true -> _APISettings c' = _APISettings c) /\
  (f = true -> flag c' = flag c) /\
  (flag c = true -> flag c' = true).

(** A method whose effect on [this] is within [preserved u a s f]. *)
Definition changes {A} (u a s f : bool) (m : M A) : Prop :=
  forall st r st', m st = (r, st') -> preserved u a s f (this st) (this st').

(** The errors an exchange can end with. *)
Definition exchange_error (e : js_error) : Prop :=
  match e with
  | TypeError _ | UnsupportedProtocol _ | WrappedError _ => True
  | _ => False
  end.


(** The text of [s] before the first code unit [c], all of [s] without one. *)
Fixpoint before (c : ascii) (s : string) : string :=
  match s with
  | EmptyString => EmptyString
  | String a s' => if Ascii.eqb c a then EmptyString else String a (before c s')
  end.

(** The name of a cookie: what stands before its first [=]. *)
Definition cookie_name (x : string) : string := before "="%char x.

(** A cookie of the login session, by its name. *)
Definition session_cookie (x : string) : bool :=
  startsWith (cookie_name x) "wordpress_" || startsWith (cookie_name x) "wp_".

(** The session cookies of a [Set-Cookie] list, each cut at its first [;],
    in the order received. *)
Definition session_cookies (l : list string) : list string :=
  List.map (before ";"%char) (List.filter session_cookie l).

Fixpoint lacks (c : ascii) (p : string) : bool :=
  match p with
  | EmptyString => true
  | String a p' => negb (Ascii.eqb c a) && lacks c p'
  end.

(** The body an exchange accumulates from its chunks. *)
Definition body_of (chunks : list string) : string :=
  List.fold_left String.append chunks "".

(** The calls a user of the class can make on an instance.  Reading one of
    the other properties, [isHTTP2Upgrade] and [toString] compute a value
    from their arguments and the fields and write nothing: [call_read]. *)
Inductive Call :=
| call_login (loginName loginPassword loginPath : string)
| call_getAPISettings (updateURL : bool)
| call_callAPI (endpoint : string) (params : ReqData) (method : string) (useAuth : bool)
| call_buildRequest (path : string) (d : ReqData) (method : string) (useAuth : bool)
| call_buildHTTP1Request (path method : string) (body : option string) (hdrs : option loc)
| call_buildHTTP2Request (path method : string) (body : option string) (hdrs : option loc)
| call_addHeader (name : string) (value : nullable) (headerObj : option loc)
| call_useHTTP2
| call_read.

(** Events other than the end of the response and an error leave the
    promise pending. *)
Definition progress_only (ev : Event) : bool :=
  match ev with
  | EvResponse _ _ | EvData _ => true
  | EvEnd | EvError _ => false
  end.

(** A method that only adds to the log of transport calls. *)
Definition extends_calls {A} (m : M A) : Prop :=
  forall st r st', m st = (r, st') -> exists ks, calls st' = (calls st ++ ks)%list.

(** A cookie as [login] stores it: the name and value of a session cookie,
    without attributes. *)
Definition stored_cookie (x : string) : bool :=
  (startsWith x "wordpress_" || startsWith x "wp_") && negb (includes x ";").

(** The cookies of the session, if any, are all of this kind. *)
Definition cookies_wellformed (c : Client) : Prop :=
  match _authCookies c with
  | None => True
  | Some l => Forall (fun x => stored_cookie x = true) l
  end.

Section Vocabulary.

Variable rt : Runtime.

(** The body [buildRequest] hands to the transport. *)
Definition request_body (d : ReqData) : option string :=
  match d with
  | DNull => None
  | DObject o => Some (querystring_stringify rt o)
  | DString s => Some s
  end.

Definition content_length (d : ReqData) : string :=
  match request_body d with
  | None => "0"
  | Some b => of_nat (Buffer_byteLength rt b)
  end.

(** The header object [buildRequest] hands to the transport. *)
Definition request_headers (c : Client) (d : ReqData) (useAuth : bool) : HeaderObj :=
  ([("Content-Type", Str "application/x-www-form-urlencoded");
    ("Content-Length", Str (content_length d));
    ("Accept",
     Str "application/json,text/javascript,text/html,application/xhtml+xml,application/xml, */*");
    ("Accept-Encoding", Str "identity");
    ("Accept-Language", Str "en-CA,en-US,en");
    ("User-Agent", Str (userAgent rt))] ++
   (if authenticated c && useAuth then
      ("Cookie", authHeader c) ::
      (if not_null (APINonce c) then [("X-WP-Nonce", APINonce c)] else [])
    else [("Cookie", Str "humans_21909=1")]))%list.

(** [buildRequest] followed by [send], as [login] and [callAPI] do it. *)
Definition roundtrip (path : string) (d : ReqData) (method : string) (useAuth : bool)
    : M Exchange :=
  bind (buildRequest rt path d method useAuth) send.

(** The state after a call, whatever its outcome. *)
Definition perform (op : Call) (st : State) : State :=
  match op with
  | call_login n p l => snd (login rt n p l st)
  | call_getAPISettings b => snd (getAPISettings rt b st)
  | call_callAPI e p m a => snd (callAPI rt e p m a st)
  | call_buildRequest p d m a => snd (buildRequest rt p d m a st)
  | call_buildHTTP1Request p m b h => snd (buildHTTP1Request p m b h st)
  | call_buildHTTP2Request p m b h => snd (buildHTTP2Request p m b h st)
  | call_addHeader n v h => snd (addHeader n v h st)
  | call_useHTTP2 => snd (useHTTP2 st)
  | call_read => st
  end.

(** A series of calls; between two calls the network may change what it
    will answer. *)
Fixpoint session (ops : list (Call * list ExchangeEnv)) (st : State) : State :=
  match ops with
  | [] => st
  | (op, nt) :: rest =>
      session rest
        (perform op {| this := this st; heap := heap st; net := nt; calls := calls st |})
  end.

End Vocabulary.

(** * Examples: clients, networks and pages to run the methods on *)

Module Examples.

Definition rt : Runtime := SmallRuntime.runtime.

(** [new WPAPILib("https://example.com/blog/")] *)
Definition blog : Client :=
  {| _baseURL := {| protocol := "https:"; hostname := "example.com"; port := "";
                    pathname := "/blog/"; search := "" |};
     _authCookies := None; _APISettings := None; _useHTTP2 := None |}.

(** [new WPAPILib("ftp://example.com")] *)
Definition ftp_site : Client :=
  {| _baseURL := {| protocol := "ftp:"; hostname := "example.com"; port := "";
                    pathname := "/"; search := "" |};
     _authCookies := None; _APISettings := None; _useHTTP2 := None |}.

(** The same with the protocol flag set. *)
Definition ftp_site_http2 : Client :=
  {| _baseURL := _baseURL ftp_site; _authCookies := None; _APISettings := None;
     _useHTTP2 := Some true |}.

(** A client that logged in earlier. *)
Definition logged_in : Client :=
  {| _baseURL := _baseURL blog; _authCookies := Some ["wordpress_logged_in=old"];
     _APISettings := None; _useHTTP2 := None |}.

(** A client that logged in and retrieved its settings. *)
Definition ready : Client :=
  {| _baseURL := _baseURL blog; _authCookies := Some ["wordpress_logged_in=xyz"];
     _APISettings := Some {| root := Str "https://example.com/blog/"; nonce := Str "n1";
                             versionString := Str "wp/v2/"; gateway := Str "" |};
     _useHTTP2 := None |}.

Definition start (c : Client) (nt : list ExchangeEnv) : State :=
  {| this := c; heap := []; net := nt; calls := [] |}.

(** An exchange that completes with one chunk of body. *)
Definition answer (status : Z) (hdrs : Headers) (body : string) : ExchangeEnv :=
  {| end_throws := None; events := [EvResponse status hdrs; EvData body; EvEnd] |}.

Definition member (k v : string) : string :=
  dquote ++ k ++ dquote ++ ":" ++ dquote ++ v ++ dquote.

(** The settings object as WordPress prints it. *)
Definition settings_json : string :=
  "{" ++ member "root" "https://example.com/wp-json/" ++ "," ++ member "nonce" "n1"
      ++ "," ++ member "versionString" "wp/v2/" ++ "}".

(** A page with the embedded settings. *)
Definition page : string := "<script>var wpApiSettings = " ++ settings_json ++ ";</script>".

(** A page with a settings object under another name: no marker. *)
Definition unmarked : string := "<script>var settings = " ++ settings_json ++ ";</script>".

Definition cookies_sent : Headers :=
  [("set-cookie", VList ["sessionid=abc"; "wordpress_logged_in=xyz"])].

Definition upgrade_asked : Headers :=
  [("connection", VStr "Upgrade"); ("upgrade", VStr "h2c")].


(** The value of a method that returned. *)
Definition returned {A} (r : result A) (otherwise : A) : A :=
  match r with
  | Ok a => a
  | _ => otherwise
  end.

Definition no_response : Response := {| statusCode := VNum 0; headers := [] |}.

Definition credentials : ReqData := DObject [("log", "admin"); ("pwd", "secret")].

(** The members of the settings object of the example. *)
Definition settings_members : string :=
  member "root" "https://example.com/wp-json/" ++ "," ++ member "nonce" "n1"
    ++ "," ++ member "versionString" "wp/v2/".

(** A page whose settings have a root that is not a URL. *)
Definition stray_page : string :=
  "<script>var wpApiSettings = {" ++ member "root" "nowhere" ++ "," ++ member "nonce" "n2"
    ++ "};</script>".

Definition stray_settings : APISettingsObj :=
  {| root := Str "nowhere"; nonce := Str "n2"; versionString := Undefined;
     gateway := Undefined |}.

(** The request of an exchange that has one. *)
Definition request_of (ex : Exchange) : Request :=
  match request ex with
  | Some rq => rq
  | None => {| transport := HTTP1 false; req_hostname := ""; req_port := "";
               req_path := ""; req_method := ""; req_headers := None; written := None |}
  end.

(** A state with one header object that the caller filled. *)
Definition with_headers (c : Client) (o : HeaderObj) : State :=
  {| this := c; heap := [o]; net := []; calls := [] |}.

(** A client on the HTTP/2 protocol. *)
Definition upgraded : Client :=
  {| _baseURL := _baseURL blog; _authCookies := _authCookies ready;
     _APISettings := _APISettings ready; _useHTTP2 := Some true |}.

Definition no_login : LoginObj :=
  {| login_request := None; login_response := no_response; login_status := VNum 0;
     login_authCookies := None; login_APISettings := None |}.

End Examples.

(** * Properties *)

(** ** Strings *)

Lemma startsWith_spec (s p : string) :
  startsWith s p = true <-> exists t, s = p ++ t.
Proof.
  revert s; induction p as [|a p IH]; intros s; simpl.
  - split; [intros _; exists s; reflexivity | reflexivity].
  - destruct s as [|b s]; simpl.
    + split; [discriminate | intros [t H]; discriminate].
    + destruct (Ascii.eqb a b) eqn:E.
      * apply Ascii.eqb_eq in E; subst b. rewrite IH.
        split; intros [t H]; exists t; [now subst | now inversion H].
      * apply Ascii.eqb_neq in E.
        split; [discriminate | intros [t H]; inversion H; congruence].
Qed.


Lemma find_from_head (sub s : string) (k : nat) :
  startsWith s sub = true -> find_from sub s k = Some k.
Proof. intros E. destruct s; simpl; rewrite E; reflexivity. Qed.



Lemma append_empty_r (s : string) : s ++ "" = s.
Proof. induction s; simpl; congruence. Qed.

Lemma append_assoc (a b c : string) : (a ++ b) ++ c = a ++ b ++ c.
Proof. induction a; simpl; congruence. Qed.

Lemma append_length (a b : string) :
  String.length (a ++ b) = (String.length a + String.length b)%nat.
Proof. induction a; simpl; congruence. Qed.

Lemma split_go_skip (sep u t cur : string) :
  split_go sep (u ++ t) (String.length u) cur = split_go sep t 0 cur.
Proof.
  induction u as [|c u IH]; [|exact IH].
  destruct t; reflexivity.
Qed.

Lemma split_go_nonempty (sep s : string) (k : nat) (cur : string) :
  split_go sep s k cur <> [].
Proof.
  revert k cur; induction s as [|a s IH]; intros k cur; simpl; [discriminate|].
  destruct k; [|apply IH].
  destruct (startsWith (String a s) sep); [discriminate | apply IH].
Qed.

Lemma join_cons (x : string) (l : list string) (sep : string) :
  l <> [] -> join (x :: l) sep = x ++ sep ++ join l sep.
Proof. destruct l; [congruence | reflexivity]. Qed.

Lemma split_go_join (c : ascii) (u : string) (n : nat) :
  forall s cur, (String.length s <= n)%nat ->
    join (split_go (String c u) s 0 cur) (String c u) = cur ++ s.
Proof.
  induction n as [|n IH]; intros s cur Hn.
  - destruct s; [simpl; now rewrite append_empty_r | simpl in Hn; lia].
  - destruct s as [|a s]; [simpl; now rewrite append_empty_r|].
    cbn [split_go]. destruct (startsWith (String a s) (String c u)) eqn:E.
    + apply startsWith_spec in E as [t E]. simpl in E. injection E as -> ->.
      replace (String.length (String c u) - 1)%nat with (String.length u)
        by (simpl; lia).
      rewrite split_go_skip.
      rewrite join_cons by apply split_go_nonempty.
      rewrite IH; [reflexivity|]. simpl in Hn. rewrite append_length in Hn. lia.
    + rewrite IH by (simpl in Hn; lia). now rewrite append_assoc.
Qed.

(** Joining the pieces of [split] with the separator gives the string back:
    [split] loses nothing but the separators it found. *)
Lemma split_join (s sep : string) :
  sep <> "" -> join (split s sep) sep = s.
Proof.
  destruct sep as [|c u]; [congruence|]. intros _.
  unfold split. now rewrite (split_go_join c u (String.length s)).
Qed.

(** ** The protocol negotiator *)




(** ** Running the methods *)

Lemma bind_Ok {A B} (m : M A) (k : A -> M B) st a st1 :
  m st = (Ok a, st1) -> bind m k st = k a st1.
Proof. unfold bind. now intros ->. Qed.

Lemma bind_Throw {A B} (m : M A) (k : A -> M B) st e st1 :
  m st = (Throw e, st1) -> bind m k st = (Throw e, st1).
Proof. unfold bind. now intros ->. Qed.

Lemma bind_Hang {A B} (m : M A) (k : A -> M B) st st1 :
  m st = (Hang, st1) -> bind m k st = (Hang, st1).
Proof. unfold bind. now intros ->. Qed.

Lemma get_this_run st : get_this st = (Ok (this st), st).
Proof. reflexivity. Qed.

(** One step of a method: the first action of a [bind] has the outcome the
    lemma states. *)
Tactic Notation "run" uconstr(lem) :=
  rewrite (bind_Ok _ _ _ _ _ lem); cbv beta zeta.

Lemma lookup_last {A} (h : list A) (o : A) : (h ++ [o])%list !! List.length h = Some o.
Proof. induction h; simpl; auto. Qed.

Lemma insert_last {A} (h : list A) (o o' : A) :
  <[List.length h := o']> (h ++ [o])%list = (h ++ [o'])%list.
Proof. induction h; simpl; [reflexivity | now f_equal]. Qed.

(** [addHeader] without an object allocates one. *)
Lemma addHeader_new n v c h nt k :
  addHeader n v None {| this := c; heap := h; net := nt; calls := k |} =
  (Ok (List.length h),
   {| this := c; heap := (h ++ [[(n, v)]])%list; net := nt; calls := k |}).
Proof.
  unfold addHeader, bind, get_heap, set_heap, ret. simpl.
  rewrite lookup_last, insert_last. reflexivity.
Qed.

(** [addHeader] on the newest object defines the property there. *)
Lemma addHeader_last n v c h o nt k :
  addHeader n v (Some (List.length h))
    {| this := c; heap := (h ++ [o])%list; net := nt; calls := k |} =
  (Ok (List.length h),
   {| this := c; heap := (h ++ [defineProperty o n v])%list; net := nt; calls := k |}).
Proof.
  unfold addHeader, bind, get_heap, set_heap, ret. simpl.
  rewrite lookup_last, insert_last. reflexivity.
Qed.

Lemma useHTTP2_run c h nt k :
  useHTTP2 {| this := c; heap := h; net := nt; calls := k |} =
  (Ok (flag c), {| this := read_flag c; heap := h; net := nt; calls := k |}).
Proof.
  unfold useHTTP2, bind, get_this, set_this, ret, read_flag, flag. simpl.
  destruct c as [u a s [b|]]; reflexivity.
Qed.

Lemma buildHTTP1Request_run path method body c h o nt k :
  let u := _baseURL c in
  let l := List.length h in
  let o' := defineProperty (defineProperty o "Host" (Str (hostname u)))
              "Connection" (Str "keep-alive") in
  buildHTTP1Request path method body (Some l)
    {| this := c; heap := (h ++ [o])%list; net := nt; calls := k |} =
  match secure_of (protocol u) with
  | Some secure =>
      (Ok (built (HTTP1 secure) u path method (Some l) body),
       {| this := c; heap := (h ++ [o'])%list; net := nt;
          calls := (k ++ [http_request secure (hostname u) (port u) path method (Some l)])%list |})
  | None =>
      (Throw (TypeError (null_request body)),
       {| this := c; heap := (h ++ [o'])%list; net := nt; calls := k |})
  end.
Proof.
  cbv zeta. unfold buildHTTP1Request.
  run (get_this_run _). cbn [this].
  run (addHeader_last _ _ _ _ _ _ _). run (addHeader_last _ _ _ _ _ _ _).
  unfold secure_of.
  destruct (String.eqb (protocol (_baseURL c)) "http:"); [reflexivity|].
  destruct (String.eqb (protocol (_baseURL c)) "https:"); [reflexivity|].
  destruct body; reflexivity.
Qed.

Lemma buildHTTP2Request_run path method body c h o nt k :
  let u := _baseURL c in
  let l := List.length h in
  let o' := defineProperty (defineProperty o ":path" (Str path)) ":method" (Str method) in
  let authority := protocol u ++ "//" ++ hostname u in
  buildHTTP2Request path method body (Some l)
    {| this := c; heap := (h ++ [o])%list; net := nt; calls := k |} =
  match secure_of (protocol u) with
  | Some _ =>
      (Ok (built (HTTP2 authority) u path method (Some l) body),
       {| this := c; heap := (h ++ [o'])%list; net := nt;
          calls := ((k ++ [http2_connect authority]) ++ [http2_request (Some l)])%list |})
  | None =>
      (Ok (refused (protocol u)),
       {| this := c; heap := (h ++ [o'])%list; net := nt;
          calls := (k ++ [http2_connect authority])%list |})
  end.
Proof.
  cbv zeta. unfold buildHTTP2Request.
  run (get_this_run _). cbn [this].
  run (addHeader_last _ _ _ _ _ _ _). run (addHeader_last _ _ _ _ _ _ _).
  unfold secure_of.
  destruct (String.eqb (protocol (_baseURL c)) "http:"); [reflexivity|].
  destruct (String.eqb (protocol (_baseURL c)) "https:"); reflexivity.
Qed.

Lemma bind_assoc {A B C} (m : M A) (f : A -> M B) (g : B -> M C) st :
  bind (bind m f) g st = bind m (fun a => bind (f a) g) st.
Proof. unfold bind. destruct (m st) as [[a|e|] st1]; reflexivity. Qed.

Lemma ret_run {A} (a : A) st : ret a st = (Ok a, st).
Proof. reflexivity. Qed.

Section Requests.

Variable rt : Runtime.

(** [buildRequest] allocates one header object, fills it, reads the
    [useHTTP2] getter and passes on to one of the two builders. *)
Lemma buildRequest_run path d method useAuth c h nt k :
  buildRequest rt path d method useAuth
    {| this := c; heap := h; net := nt; calls := k |} =
  (if flag c then buildHTTP2Request else buildHTTP1Request)
    (fullPath (pathname (_baseURL c)) path) method (request_body rt d)
    (Some (List.length h))
    {| this := read_flag c; heap := (h ++ [request_headers rt c d useAuth])%list;
       net := nt; calls := k |}.
Proof.
  unfold buildRequest, request_headers, content_length.
  run (addHeader_new _ _ _ _ _ _).
  destruct d as [|o|s]; cbn [request_body];
    (rewrite bind_assoc;
     run (addHeader_last _ _ _ _ _ _ _); run (ret_run _ _);
     do 4 run (addHeader_last _ _ _ _ _ _ _);
     run (get_this_run _); cbn [this];
     destruct (authenticated c && useAuth);
     [ rewrite bind_assoc; run (addHeader_last _ _ _ _ _ _ _);
       destruct (not_null (APINonce c));
       [ rewrite bind_assoc; run (addHeader_last _ _ _ _ _ _ _) | ]
     | rewrite bind_assoc; run (addHeader_last _ _ _ _ _ _ _) ];
     run (ret_run _ _); run (useHTTP2_run _ _ _ _);
     destruct (flag c); reflexivity).
Qed.

End Requests.

(** ** Delivery of events *)

Lemma on_event_request ex ev : request (on_event ex ev) = request ex.
Proof.
  unfold on_event. destruct (request ex) as [rq|] eqn:E; [|exact E].
  destruct ev; simpl; repeat case_match; simpl; auto.
Qed.

Lemma deliver_request evs ex : request (deliver evs ex) = request ex.
Proof.
  revert ex; induction evs as [|ev evs IH]; intros ex; simpl; auto.
  destruct (promise ex); auto. now rewrite IH, on_event_request.
Qed.

Lemma deliver_settled evs ex : promise ex <> Pending -> deliver evs ex = ex.
Proof. destruct evs; simpl; auto. destruct (promise ex); congruence. Qed.


Lemma on_event_incoming ex ev i :
  on_event (with_incoming ex i) ev = with_incoming (on_event ex ev) i.
Proof.
  destruct ex as [[rq|] rs d p cd inc]; unfold on_event, with_incoming; simpl; auto.
  destruct ev; simpl; repeat case_match; simpl; auto.
Qed.

Lemma deliver_incoming evs ex i :
  deliver evs (with_incoming ex i) = with_incoming (deliver evs ex) i.
Proof.
  revert ex; induction evs as [|ev evs IH]; intros ex; simpl; auto.
  destruct (promise ex); auto. now rewrite on_event_incoming, IH.
Qed.

(** [send] on an exchange that has a request: the next environment is
    consumed, its events are delivered, and the promise decides. *)
Lemma send_run ex rq c h nt k :
  request ex = Some rq ->
  send ex {| this := c; heap := h; net := nt; calls := k |} =
  (settled (with_incoming (deliver (events (upcoming nt)) ex) (events (upcoming nt))),
   {| this := c; heap := h; net := List.tl nt; calls := k |}).
Proof.
  intros Hrq. unfold send, request_end. rewrite Hrq.
  rewrite bind_assoc.
  assert (E : next_env {| this := c; heap := h; net := nt; calls := k |} =
              (Ok (upcoming nt), {| this := c; heap := h; net := List.tl nt; calls := k |}))
    by (destruct nt; reflexivity).
  run E. run (ret_run _ _). cbn [snd]. unfold await. cbn [incoming].
  pose proof (deliver_incoming (events (upcoming nt)) ex (events (upcoming nt))) as D.
  unfold with_incoming at 1 in D. rewrite Hrq in D. rewrite D.
  unfold settled. cbn [promise with_incoming].
  destruct (promise (deliver (events (upcoming nt)) ex)); reflexivity.
Qed.

(** [send] on an exchange without a request: [end()] fails on [null], the
    exception is dropped, and the promise decides. *)
Lemma send_null ex st :
  request ex = None -> incoming ex = [] ->
  send ex st = (settled ex, st).
Proof.
  intros Hrq Hin. unfold send, request_end. rewrite Hrq.
  run (ret_run _ _). cbn [snd]. unfold await, settled. rewrite Hin. simpl.
  destruct (promise ex); reflexivity.
Qed.

Lemma built_inv all tr u path method l body rq :
  request (built tr u path method l body) = Some rq ->
  exchange_inv all rq (built tr u path method l body).
Proof. intros H. split; simpl; [exact H | discriminate ..]. Qed.

Lemma on_event_inv all rq ex ev :
  exchange_inv all rq ex -> In ev all -> exchange_inv all rq (on_event ex ev).
Proof.
  intros [Hrq Hrd Hres Hrej] Hin.
  destruct ex as [rq' rs d p cd inc]; simpl in *; subst rq'.
  unfold on_event; cbn [request].
  assert (Hans : forall status hdrs, In (EvResponse status hdrs) all ->
            answers all (transport rq) (response_of (transport rq) status hdrs))
    by (intros status hdrs H; exists status, hdrs; auto).
  destruct ev as [status hdrs|chunk| |s].
  - specialize (Hans status hdrs Hin).
    destruct (transport rq) as [sec|a] eqn:Et; simpl.
    + split; simpl; rewrite ?Et; auto.
      intros r acc H; injection H as <- <-.
      split; [exact Hans | intros; congruence].
    + split; simpl; rewrite ?Et; auto.
      * intros r acc H; injection H as <- <-.
        split; [exact Hans | reflexivity].
      * intros Hp. destruct (Hres Hp) as (r & d' & _ & Hd & _).
        eexists _, d'. repeat split; auto.
  - destruct cd as [[r acc]|]; [|split; simpl; auto].
    split; simpl; auto.
    intros r' acc' H; injection H as H1 H2; subst r' acc'. exact (Hrd r acc eq_refl).
  - destruct cd as [[r acc]|]; [|split; simpl; auto].
    destruct (Hrd r acc eq_refl) as [Ha H2].
    destruct (transport rq) as [sec|a] eqn:Et; split; simpl; rewrite ?Et; auto.
    + intros r0 acc0 H; injection H as H1 H3; subst r0 acc0.
      split; [exact Ha | intros; congruence].
    + intros _. exists r, acc. auto.
    + destruct p; simpl; auto; try discriminate.
    + intros _. exists r, acc. split; [now apply (H2 a)|auto].
    + destruct p; simpl; auto; try discriminate.
  - split; simpl; auto.
    + destruct p; simpl; auto; discriminate.
    + destruct p; simpl; auto. intros e H; injection H as <-. eauto.
Qed.

Lemma deliver_inv all rq evs ex :
  exchange_inv all rq ex -> incl evs all -> exchange_inv all rq (deliver evs ex).
Proof.
  revert ex; induction evs as [|ev evs IH]; intros ex Hinv Hincl; simpl; auto.
  destruct (promise ex); auto.
  apply IH.
  - apply on_event_inv; auto. apply Hincl. now left.
  - intros x Hx. apply Hincl. now right.
Qed.

Lemma with_incoming_inv all rq ex i :
  exchange_inv all rq ex -> exchange_inv all rq (with_incoming ex i).
Proof. intros [H1 H2 H3 H4]. split; simpl; auto. Qed.

(** ** What the builders and [send] leave alone *)

Lemma keeps_this_bind {A B} (m : M A) (k : A -> M B) :
  keeps_this m -> (forall a, keeps_this (k a)) -> keeps_this (bind m k).
Proof.
  intros Hm Hk st r st'. unfold bind.
  destruct (m st) as [[a|e|] st1] eqn:E; intros H.
  - rewrite (Hk a _ _ _ H). eauto.
  - injection H as <- <-. eauto.
  - injection H as <- <-. eauto.
Qed.

Lemma keeps_this_pure {A} (r : result A) : keeps_this (fun st => (r, st)).
Proof. intros st r' st' H. now injection H as <- <-. Qed.

Create HintDb keeps.

Lemma ret_keeps {A} (a : A) : keeps_this (ret a).
Proof. apply keeps_this_pure. Qed.

Lemma throw_keeps {A} e : keeps_this (@throw A e).
Proof. apply keeps_this_pure. Qed.

Lemma hang_keeps {A} : keeps_this (@hang A).
Proof. apply keeps_this_pure. Qed.

Lemma lift_keeps {A} (r : result A) : keeps_this (lift r).
Proof. apply keeps_this_pure. Qed.

Lemma get_this_keeps : keeps_this get_this.
Proof. intros st r st' H. now injection H as <- <-. Qed.

Lemma get_heap_keeps : keeps_this get_heap.
Proof. intros st r st' H. now injection H as <- <-. Qed.

Lemma set_heap_keeps h : keeps_this (set_heap h).
Proof. intros st r st' H. now injection H as <- <-. Qed.

Lemma call_keeps c : keeps_this (call c).
Proof. intros st r st' H. now injection H as <- <-. Qed.

Lemma next_env_keeps : keeps_this next_env.
Proof.
  intros st r st'. unfold next_env. destruct (net st); intros H; now injection H as <- <-.
Qed.

#[local] Hint Resolve ret_keeps throw_keeps hang_keeps lift_keeps get_this_keeps
  get_heap_keeps set_heap_keeps call_keeps next_env_keeps : keeps.

(** Splits a method along its [bind]s and [match]es and closes each piece
    with the lemmas of the base [keeps]. *)
Ltac keeps :=
  repeat (match goal with
          | |- keeps_this (bind _ _) => apply keeps_this_bind
          | |- keeps_this (match ?x with _ => _ end) => destruct x
          | |- keeps_this (if ?x then _ else _) => destruct x
          | |- keeps_this _ => solve [eauto with keeps]
          | |- forall _, _ => intro
          end).

Lemma addHeader_keeps n v l : keeps_this (addHeader n v l).
Proof. unfold addHeader. keeps. Qed.
#[local] Hint Resolve addHeader_keeps : keeps.

Lemma buildHTTP1Request_keeps path method body hdrs :
  keeps_this (buildHTTP1Request path method body hdrs).
Proof. unfold buildHTTP1Request. keeps. Qed.

Lemma buildHTTP2Request_keeps path method body hdrs :
  keeps_this (buildHTTP2Request path method body hdrs).
Proof. unfold buildHTTP2Request. keeps. Qed.

Lemma request_end_keeps ex : keeps_this (request_end ex).
Proof. unfold request_end. keeps. Qed.

Lemma await_keeps ex : keeps_this (await ex).
Proof. unfold await. keeps. Qed.
#[local] Hint Resolve buildHTTP1Request_keeps buildHTTP2Request_keeps request_end_keeps
  await_keeps : keeps.

Lemma send_keeps ex : keeps_this (send ex).
Proof. unfold send. keeps. Qed.
#[local] Hint Resolve send_keeps : keeps.

(** ** What the methods change in [this] *)

Lemma preserved_refl u a s f c : preserved u a s f c c.
Proof. unfold preserved; auto. Qed.

Lemma preserved_trans u a s f c1 c2 c3 :
  preserved u a s f c1 c2 -> preserved u a s f c2 c3 -> preserved u a s f c1 c3.
Proof.
  unfold preserved. intros (H1 & H2 & H3 & H4 & H5) (K1 & K2 & K3 & K4 & K5).
  repeat split; intros.
  - rewrite K1, H1; auto.
  - rewrite K2, H2; auto.
  - rewrite K3, H3; auto.
  - rewrite K4, H4; auto.
  - auto.
Qed.

Lemma preserved_weaken u a s f u' a' s' f' c c' :
  implb u' u = true -> implb a' a = true -> implb s' s = true -> implb f' f = true ->
  preserved u a s f c c' -> preserved u' a' s' f' c c'.
Proof.
  unfold preserved. intros Hu Ha Hs Hf (H1 & H2 & H3 & H4 & H5).
  repeat split; intros; subst; simpl in *; subst; auto.
Qed.

Lemma changes_bind {A B} u a s f (m : M A) (k : A -> M B) :
  changes u a s f m -> (forall x, changes u a s f (k x)) -> changes u a s f (bind m k).
Proof.
  intros Hm Hk st r st'. unfold bind.
  destruct (m st) as [[x|e|] st1] eqn:E; intros H.
  - exact (preserved_trans _ _ _ _ _ _ _ (Hm _ _ _ E) (Hk _ _ _ _ H)).
  - injection H as <- <-. exact (Hm _ _ _ E).
  - injection H as <- <-. exact (Hm _ _ _ E).
Qed.

Lemma keeps_changes {A} u a s f (m : M A) : keeps_this m -> changes u a s f m.
Proof. intros H st r st' E. rewrite (H _ _ _ E). apply preserved_refl. Qed.

Lemma changes_weaken {A} u a s f u' a' s' f' (m : M A) :
  implb u' u = true -> implb a' a = true -> implb s' s = true -> implb f' f = true ->
  changes u a s f m -> changes u' a' s' f' m.
Proof. intros Hu Ha Hs Hf H st r st' E. eapply preserved_weaken; eauto. Qed.

Lemma set_this_changes u a s f c' :
  (forall c, preserved u a s f c c') -> changes u a s f (set_this c').
Proof. intros H st r st' E. injection E as <- <-. apply H. Qed.

Create HintDb changes.

(** As [keeps], for [changes]. *)
Ltac changes :=
  repeat (match goal with
          | |- changes _ _ _ _ (bind _ _) => apply changes_bind
          | |- changes _ _ _ _ (match ?x with _ => _ end) => destruct x
          | |- changes _ _ _ _ (if ?x then _ else _) => destruct x
          | |- changes _ _ _ _ _ =>
              solve [eauto with changes | apply keeps_changes; eauto with keeps]
          | |- forall _, _ => intro
          end).

Lemma all_kept {A} u a s f (m : M A) : changes true true true true m -> changes u a s f m.
Proof. apply changes_weaken; [destruct u | destruct a | destruct s | destruct f]; reflexivity. Qed.

Section Frames.

Variable rt : Runtime.

Lemma useHTTP2_changes u a s f : changes u a s f useHTTP2.
Proof.
  apply all_kept.
  intros [c h nt k] r st'. rewrite useHTTP2_run. intros H; injection H as <- <-.
  unfold preserved, read_flag, flag; simpl. auto.
Qed.

Lemma buildRequest_changes u a s f path d method useAuth :
  changes u a s f (buildRequest rt path d method useAuth).
Proof.
  apply all_kept.
  intros [c h nt k] r st'. rewrite buildRequest_run. intros H.
  assert (E : this st' = read_flag c).
  { destruct (flag c).
    - apply (buildHTTP2Request_keeps _ _ _ _ _ _ _ H).
    - apply (buildHTTP1Request_keeps _ _ _ _ _ _ _ H). }
  cbn [this]. rewrite E. unfold preserved, read_flag, flag; simpl. auto.
Qed.

Lemma set_useHTTP2_changes u a s : changes u a s false (set_useHTTP2 true).
Proof.
  intros st r st' H. injection H as <- <-.
  unfold preserved, flag; simpl. repeat split; auto; discriminate.
Qed.

Lemma set_authCookies_changes u s f l : changes u false s f (set_authCookies l).
Proof.
  intros st r st' H. injection H as <- <-.
  unfold preserved, flag; simpl. repeat split; auto; discriminate.
Qed.

Lemma set_APISettings_changes a f o : changes false a false f (set_APISettings o).
Proof.
  intros st r st' H. injection H as <- <-.
  unfold preserved, flag; simpl. repeat split; auto; discriminate.
Qed.

Lemma clear_APISettings_changes a f : changes false a false f clear_APISettings.
Proof.
  intros st r st' H. injection H as <- <-.
  unfold preserved, flag; simpl. repeat split; auto; discriminate.
Qed.

Lemma set_baseURL_changes a f url : changes false a false f (set_baseURL url).
Proof.
  intros st r st' H. injection H as <- <-.
  unfold preserved, flag; simpl. repeat split; auto; discriminate.
Qed.

#[local] Hint Resolve useHTTP2_changes buildRequest_changes set_useHTTP2_changes
  set_authCookies_changes set_APISettings_changes clear_APISettings_changes
  set_baseURL_changes : changes.

(** The login exchange keeps the URL, the cookies and the settings. *)
Lemma login_exchange_changes u a s path params :
  changes u a s false (login_exchange rt path params).
Proof. unfold login_exchange, read_response. changes. Qed.

(** The cookie part of [login] writes the cookies only. *)
Lemma login_cookies_changes u s f hs : changes u false s f (login_cookies hs).
Proof. unfold login_cookies. changes. Qed.

(** [getAPISettings] keeps the cookies and the protocol. *)
Lemma getAPISettings_changes a f updateURL :
  changes false a false f (getAPISettings rt updateURL).
Proof.
  unfold getAPISettings, store_settings, store_parsed, read_root, write_gateway. changes.
Qed.

(** [callAPI] writes nothing but what the [useHTTP2] getter stores. *)
Lemma callAPI_changes u a s f endpoint params method useAuth :
  changes u a s f (callAPI rt endpoint params method useAuth).
Proof. unfold callAPI. changes. Qed.

#[local] Hint Resolve login_exchange_changes login_cookies_changes
  getAPISettings_changes callAPI_changes : changes.

Lemma login_changes name pwd path : changes false false false false (login rt name pwd path).
Proof. unfold login. changes. Qed.

End Frames.

(** ** One exchange: build, send, await *)

Section Roundtrip.

Variable rt : Runtime.

Lemma roundtrip_bind {B} path d method useAuth (rest : Exchange -> M B) st :
  bind (buildRequest rt path d method useAuth) (fun ex => bind (send ex) rest) st =
  bind (roundtrip rt path d method useAuth) rest st.
Proof. unfold roundtrip. now rewrite bind_assoc. Qed.

(** The outcome of an exchange: [this] is written by the [useHTTP2] getter
    only; a resolved exchange carries the request, a response that an event
    of the next environment announced, and the body. *)
Lemma roundtrip_spec path d method useAuth st r st' :
  roundtrip rt path d method useAuth st = (r, st') ->
  this st' = read_flag (this st) /\
  match r with
  | Ok ex =>
      exists rq resp body,
        request ex = Some rq /\ response ex = Some resp /\ data ex = Some body /\
        answers (events (upcoming (net st))) (transport rq) resp /\
        (if flag (this st) then exists a, transport rq = HTTP2 a
         else exists s, transport rq = HTTP1 s) /\
        req_path rq = fullPath (pathname (_baseURL (this st))) path /\
        req_headers rq = Some (List.length (heap st)) /\
        net st' = List.tl (net st)
  | Throw e => exchange_error e
  | Hang => True
  end.
Proof.
  destruct st as [c h nt k]. unfold roundtrip. cbn [this net heap].
  assert (Hsend : forall tr l body c1 h1 k1,
    send (built tr (_baseURL c) (fullPath (pathname (_baseURL c)) path) method l body)
      {| this := c1; heap := h1; net := nt; calls := k1 |} = (r, st') ->
    this st' = c1 /\
    match r with
    | Ok ex =>
        exists rq resp b,
          request ex = Some rq /\ response ex = Some resp /\ data ex = Some b /\
          answers (events (upcoming nt)) (transport rq) resp /\
          transport rq = tr /\
          req_path rq = fullPath (pathname (_baseURL c)) path /\
          req_headers rq = l /\
          net st' = List.tl nt
    | Throw e => exchange_error e
    | Hang => True
    end).
  { intros tr l body c1 h1 k1. erewrite send_run by reflexivity.
    set (ex0 := built tr _ _ _ _ _).
    set (evs := events (upcoming nt)).
    assert (Hinv : exchange_inv evs
              {| transport := tr; req_hostname := hostname (_baseURL c);
                 req_port := port (_baseURL c);
                 req_path := fullPath (pathname (_baseURL c)) path;
                 req_method := method; req_headers := l; written := body |}
              (with_incoming (deliver evs ex0) evs)).
    { apply with_incoming_inv, deliver_inv; [apply built_inv; reflexivity|].
      intros x Hx; exact Hx. }
    destruct Hinv as [Hrq Hrd Hres Hrej].
    unfold settled.
    destruct (promise (with_incoming (deliver evs ex0) evs)) eqn:Ep;
      intros H; injection H as <- <-; (split; [reflexivity|]); auto.
    - destruct (Hres eq_refl) as (resp & b & H1 & H2 & H3).
      eexists _, resp, b. repeat split; eauto.
    - destruct (Hrej e eq_refl) as (s & _ & ->). exact I. }
  unfold bind. rewrite (buildRequest_run rt path d method useAuth c h nt k).
  destruct (flag c) eqn:Ef.
  - rewrite buildHTTP2Request_run. cbn [_baseURL read_flag].
    destruct (secure_of (protocol (_baseURL c))); cbv iota beta.
    + intros H. apply Hsend in H as [H1 H2].
      split; [exact H1|]. destruct r as [ex|e|]; auto.
      destruct H2 as (rq & resp & bd & ? & ? & ? & ? & ? & ? & ? & ?).
      exists rq, resp, bd. repeat split; eauto.
    + rewrite send_null by reflexivity.
      intros H; injection H as <- <-. split; [reflexivity | exact I].
  - rewrite buildHTTP1Request_run. cbn [_baseURL read_flag].
    destruct (secure_of (protocol (_baseURL c))); cbv iota beta.
    + intros H. apply Hsend in H as [H1 H2].
      split; [exact H1|]. destruct r as [ex|e|]; auto.
      destruct H2 as (rq & resp & bd & ? & ? & ? & ? & ? & ? & ? & ?).
      exists rq, resp, bd. repeat split; eauto.
    + intros H; injection H as <- <-. split; [reflexivity | exact I].
Qed.

End Roundtrip.

(** ** The protocol flag over the life of a client *)

Section Lifetime.

Variable rt : Runtime.

Lemma changes_snd {A} u a s f (m : M A) st :
  changes u a s f m -> preserved u a s f (this st) (this (snd (m st))).
Proof. intros H. destruct (m st) as [r st'] eqn:E. exact (H _ _ _ E). Qed.

(** No call takes the flag from [true] to [false]; each call but [login]
    leaves it as it is. *)
Lemma perform_preserved op st :
  preserved false false false
    (match op with call_login _ _ _ => false | _ => true end)
    (this st) (this (perform rt op st)).
Proof.
  destruct op; cbn [perform]; try apply changes_snd.
  - apply login_changes.
  - apply getAPISettings_changes.
  - apply callAPI_changes.
  - apply buildRequest_changes.
  - apply keeps_changes, buildHTTP1Request_keeps.
  - apply keeps_changes, buildHTTP2Request_keeps.
  - apply keeps_changes, addHeader_keeps.
  - apply useHTTP2_changes.
  - apply preserved_refl.
Qed.

(** When the login exchange raises the flag, its first response asked for
    the upgrade. *)
Lemma login_exchange_upgrade path params st r st' :
  login_exchange rt path params st = (r, st') ->
  flag (this st) = false -> flag (this st') = true ->
  exists status hdrs,
    In (EvResponse status hdrs) (events (upcoming (net st))) /\
    isHTTP2Upgrade hdrs = Ok true.
Proof.
  unfold login_exchange. rewrite roundtrip_bind. unfold bind at 1.
  destruct (roundtrip rt path params "POST" true st) as [[ex|e|] st0] eqn:E;
    apply roundtrip_spec in E as [Hthis Hr].
  2, 3: intros H; injection H as <- <-; rewrite Hthis; unfold read_flag, flag;
        simpl; intros ->; discriminate.
  destruct Hr as (rq & resp & body & Hrq & Hresp & _ & Hans & Htr & _).
  intros H Hf. rewrite Hf in Htr. destruct Htr as [s Htr]. rewrite Htr in Hans.
  destruct Hans as (status & hdrs & Hin & ->).
  unfold read_response in H. rewrite Hresp in H.
  rewrite (bind_Ok _ _ _ _ _ (ret_run _ _)) in H. cbn [headers response_of] in H.
  unfold bind at 1, lift in H.
  destruct (isHTTP2Upgrade hdrs) as [[|]|e|] eqn:Eu.
  - intros _. eauto.
  - injection H as <- <-. rewrite Hthis. unfold read_flag; simpl. rewrite Hf. discriminate.
  - injection H as <- <-. rewrite Hthis. unfold read_flag; simpl. rewrite Hf. discriminate.
  - injection H as <- <-. rewrite Hthis. unfold read_flag; simpl. rewrite Hf. discriminate.
Qed.

(** After the login exchange, [login] leaves the flag alone. *)
Lemma login_upgrade name pwd path st :
  flag (this st) = false -> flag (this (snd (login rt name pwd path st))) = true ->
  exists status hdrs,
    In (EvResponse status hdrs) (events (upcoming (net st))) /\
    isHTTP2Upgrade hdrs = Ok true.
Proof.
  unfold login.
  set (rest := fun r : option Request * Response =>
    login_cookies (headers (snd r)) ;;;
    getAPISettings rt true ;;;
    c <- get_this ;;
    ret {| login_request := fst r; login_response := snd r;
           login_status := statusCode (snd r);
           login_authCookies := _authCookies c;
           login_APISettings := APISettings c |}).
  assert (Hrest : forall r, changes false false false true (rest r)).
  { intros r. unfold rest. apply changes_bind; [apply login_cookies_changes|intros _].
    apply changes_bind; [apply getAPISettings_changes|intros _].
    apply keeps_changes. keeps. }
  unfold bind at 1.
  destruct (login_exchange rt path _ st) as [[r|e|] st1] eqn:E; cbn [snd].
  - intros Hf Ht. eapply login_exchange_upgrade; eauto.
    destruct (rest r st1) as [r2 st2] eqn:E2. cbn [snd] in Ht.
    destruct (Hrest r _ _ _ E2) as (_ & _ & _ & H4 & _).
    rewrite <- (H4 eq_refl). exact Ht.
  - intros Hf Ht. eapply login_exchange_upgrade; eauto.
  - intros Hf Ht. eapply login_exchange_upgrade; eauto.
Qed.

(** C10.  A new client reads [useHTTP2] as [false]; no call ever takes the
    flag from [true] to [false], over any series of calls and whatever the
    network answers; and a call that raises it is a [login] whose first
    exchange received a response asking for the HTTP/2 upgrade. *)
Theorem useHTTP2_sticky :
  (forall blogURL c, constructor rt blogURL = Ok c ->
     flag c = false /\
     forall h nt k, fst (useHTTP2 {| this := c; heap := h; net := nt; calls := k |}) = Ok false) /\
  (forall ops st, flag (this st) = true -> flag (this (session rt ops st)) = true) /\
  (forall op st,
     flag (this st) = false -> flag (this (perform rt op st)) = true ->
     (exists name pwd path, op = call_login name pwd path) /\
     exists env status hdrs,
       In env (net st) /\ In (EvResponse status hdrs) (events env) /\
       isHTTP2Upgrade hdrs = Ok true).
Proof.
  split; [|split].
  - intros blogURL c. unfold constructor.
    destruct (URL_parse rt blogURL); [|discriminate].
    intros H; injection H as <-. split; [reflexivity|].
    intros h nt k. rewrite useHTTP2_run. reflexivity.
  - induction ops as [|[op nt] ops IH]; intros st Hf; cbn [session]; auto.
    apply IH.
    set (st0 := {| this := this st; heap := heap st; net := nt; calls := calls st |}).
    destruct (perform_preserved op st0) as (_ & _ & _ & _ & H). apply H. exact Hf.
  - intros op st Hf Ht.
    assert (Hop : exists name pwd path, op = call_login name pwd path).
    { destruct op; eauto;
        match type of Ht with
        | context [perform _ ?o _] =>
            destruct (perform_preserved o st) as (_ & _ & _ & H & _)
        end;
        rewrite (H eq_refl) in Ht; congruence. }
    split; [exact Hop|]. destruct Hop as (name & pwd & path & ->).
    cbn [perform] in Ht.
    destruct (login_upgrade name pwd path st Hf Ht) as (status & hdrs & Hin & Hup).
    exists (upcoming (net st)), status, hdrs. repeat split; auto.
    destruct (net st); simpl in *; [contradiction | now left].
Qed.

End Lifetime.

(** ** The cookies of a login *)

Lemma split_go_head (c : ascii) (s cur : string) :
  List.hd EmptyString (split_go (String c EmptyString) s 0 cur) = cur ++ before c s.
Proof.
  revert cur; induction s as [|a s IH]; intros cur.
  - simpl. now rewrite append_empty_r.
  - cbn [split_go startsWith before]. destruct (Ascii.eqb c a).
    + simpl. now rewrite append_empty_r.
    + rewrite IH, append_assoc. reflexivity.
Qed.

Lemma name_value_before (x : string) : name_value x = before ";"%char x.
Proof. unfold name_value, split. apply split_go_head. Qed.

Lemma startsWith_before (c : ascii) (p x : string) :
  lacks c p = true -> startsWith (before c x) p = startsWith x p.
Proof.
  revert x; induction p as [|a p IH]; intros x H; [reflexivity|].
  simpl in H. apply andb_true_iff in H as [Hac Hp].
  destruct x as [|b x]; [reflexivity|]. cbn [before].
  destruct (Ascii.eqb c b) eqn:Ecb.
  - apply Ascii.eqb_eq in Ecb; subst b. simpl.
    rewrite Ascii.eqb_sym. now destruct (Ascii.eqb c a).
  - simpl. destruct (Ascii.eqb a b); [now apply IH | reflexivity].
Qed.

Lemma session_cookie_test (x : string) :
  session_cookie x = startsWith x "wordpress_" || startsWith x "wp_".
Proof.
  unfold session_cookie, cookie_name. now rewrite !startsWith_before by reflexivity.
Qed.

(** The loop of [login] appends the session cookies of the list. *)
Lemma cookie_loop_spec (l acc : list string) :
  cookie_loop l acc = (acc ++ session_cookies l)%list.
Proof.
  revert acc; induction l as [|x l IH]; intros acc.
  - simpl. now rewrite app_nil_r.
  - cbn [cookie_loop]. unfold session_cookies. cbn [List.filter].
    rewrite session_cookie_test.
    destruct (startsWith x "wordpress_" || startsWith x "wp_"); rewrite IH.
    + cbn [List.map]. rewrite name_value_before, <- app_assoc. reflexivity.
    + reflexivity.
Qed.

(** The arrays [value == ""] takes for empty. *)
Lemma loose_eq_empty_list (l : list string) :
  loose_eq_empty (VList l) = true <-> l = [] \/ l = [EmptyString].
Proof.
  simpl. rewrite String.eqb_eq. split.
  - destruct l as [|x [|y l]]; simpl; auto.
    + intros ->; auto.
    + intros H. destruct x; discriminate.
  - intros [->| ->]; reflexivity.
Qed.

Section Login.

Variable rt : Runtime.

(** The cookie part of [login] on the headers of the final response. *)
Lemma login_cookies_run hs st :
  login_cookies hs st =
  match getOwnProperty hs "set-cookie" with
  | None => (Throw NoCookiesReceived, st)
  | Some v =>
      if loose_eq_empty v then (Throw EmptyCookiesReceived, st)
      else
        let c := this st in
        let st' := {| this := {| _baseURL := _baseURL c;
                                 _authCookies := Some (session_cookies (entries v));
                                 _APISettings := _APISettings c;
                                 _useHTTP2 := _useHTTP2 c |};
                      heap := heap st; net := net st; calls := calls st |} in
        match session_cookies (entries v) with
        | [] => (Throw AuthCookiesNotReceived, st')
        | _ :: _ => (Ok tt, st')
        end
  end.
Proof.
  unfold login_cookies.
  destruct (getOwnProperty hs "set-cookie") as [v|]; [|reflexivity].
  destruct (loose_eq_empty v); [reflexivity|].
  rewrite cookie_loop_spec. cbn [app].
  unfold bind, set_authCookies, get_this, set_this, bind. cbn.
  destruct (session_cookies (entries v)); reflexivity.
Qed.

(** C2.  Let the login exchange end with the response [snd r].  Without a
    [set-cookie] member [login] fails with the no-cookies error; with a
    value the code takes for empty it fails with the empty-cookies error;
    otherwise [_authCookies] becomes the session cookies of the list (names
    starting with [wordpress_] or [wp_], each cut at its first [;], in the
    order received), [login] fails with the authentication error when there
    is none, and a successful [login] returns that list.  The example of
    the specification keeps the second cookie only. *)
Theorem login_stores_session_cookies name pwd path st r st1 :
  login_exchange rt path (DObject [("log", name); ("pwd", pwd)]) st = (Ok r, st1) ->
  let out := login rt name pwd path st in
  match getOwnProperty (headers (snd r)) "set-cookie" with
  | None => out = (Throw NoCookiesReceived, st1)
  | Some v =>
      if loose_eq_empty v then out = (Throw EmptyCookiesReceived, st1)
      else
        _authCookies (this (snd out)) = Some (session_cookies (entries v)) /\
        (session_cookies (entries v) = [] -> fst out = Throw AuthCookiesNotReceived) /\
        (forall obj, fst out = Ok obj ->
           login_response obj = snd r /\
           login_authCookies obj = Some (session_cookies (entries v)) /\
           session_cookies (entries v) <> [])
  end /\
  (forall l, entries (VList l) = l /\
             (loose_eq_empty (VList l) = true <-> l = [] \/ l = [EmptyString])) /\
  session_cookies ["sessionid=abc"; "wordpress_logged_in=xyz"] = ["wordpress_logged_in=xyz"].
Proof.
  intros Hex out. split; [|split; [intros l; split; [reflexivity|apply loose_eq_empty_list] | reflexivity]].
  subst out. unfold login. run Hex.
  match goal with
  | |- context [bind (login_cookies ?hs) ?K st1] =>
      set (rest := K);
      assert (Hout : bind (login_cookies hs) rest st1 =
                     match login_cookies hs st1 with
                     | (Ok a, s) => rest a s
                     | (Throw e, s) => (Throw e, s)
                     | (Hang, s) => (Hang, s)
                     end) by reflexivity
  end.
  rewrite Hout, login_cookies_run. clear Hout.
  destruct (getOwnProperty (headers (snd r)) "set-cookie") as [v|] eqn:Eg;
    [destruct (loose_eq_empty v) eqn:El|]; try reflexivity.
  cbv zeta. destruct (session_cookies (entries v)) as [|x l] eqn:Es.
  - cbn [fst snd this _authCookies]. repeat split; auto; discriminate.
  - set (st2 := {| this := _; heap := heap st1 |}).
    unfold rest.
    destruct (getAPISettings rt true st2) as [[b|e|] st3] eqn:E;
      destruct (getAPISettings_changes rt true true true _ _ _ E) as (_ & Ha & _);
      specialize (Ha eq_refl).
    + rewrite (bind_Ok _ _ _ _ _ E), (bind_Ok _ _ _ _ _ (get_this_run _)).
      cbn [fst snd ret]. rewrite Ha.
      split; [reflexivity|]. split; [discriminate|].
      intros obj H; injection H as <-.
      split; [reflexivity|]. split; [reflexivity | discriminate].
    + rewrite (bind_Throw _ _ _ _ _ E). cbn [fst snd].
      rewrite Ha. repeat split; discriminate.
    + rewrite (bind_Hang _ _ _ _ E). cbn [fst snd].
      rewrite Ha. repeat split; discriminate.
Qed.

End Login.

(** ** The errors of the methods *)




Section Errors.

Variable rt : Runtime.





End Errors.

Section FailedLogin.

Variable rt : Runtime.



End FailedLogin.

(** ** The HTTP/1.1 adapter *)


(** For any other protocol [buildHTTP1Request] throws a [TypeError], and
    makes no call into the transport. *)
Lemma buildHTTP1Request_unsupported path method body hdrs st :
  secure_of (protocol (_baseURL (this st))) = None ->
  exists what st1,
    buildHTTP1Request path method body hdrs st = (Throw (TypeError what), st1) /\
    calls st1 = calls st.
Proof.
  unfold secure_of. intros Hs.
  destruct (String.eqb (protocol (_baseURL (this st))) "http:") eqn:E1; [discriminate|].
  destruct (String.eqb (protocol (_baseURL (this st))) "https:") eqn:E2; [discriminate|].
  unfold buildHTTP1Request. run (get_this_run _). rewrite E1, E2.
  unfold addHeader, bind, get_heap, set_heap, ret, throw. cbn.
  repeat case_match; simplify_eq; cbn; eauto.
Qed.


(** ** Retrieval of the settings *)

Lemma find_from_None (sub s : string) (k k' : nat) :
  find_from sub s k = None -> find_from sub s k' = None.
Proof.
  revert k k'; induction s as [|c s IH]; intros k k'; simpl.
  - destruct (startsWith "" sub); [discriminate | reflexivity].
  - destruct (startsWith (String c s) sub); [discriminate | apply IH].
Qed.

Lemma find_from_None_drop (sub s : string) (n k k' : nat) :
  find_from sub s k = None -> find_from sub (drop n s) k' = None.
Proof.
  revert s k k'; induction n as [|n IH]; intros s k k' H.
  - replace (drop 0 s) with s by (destruct s; reflexivity).
    eapply find_from_None; eauto.
  - destruct s as [|c s]; [cbn [drop]; eapply find_from_None; eauto|].
    cbn [drop]. simpl in H.
    destruct (startsWith (String c s) sub); [discriminate|]. eapply IH; eauto.
Qed.

(** Without an occurrence, [indexOf] answers -1 from any position. *)
Lemma indexOf_absent (s sub : string) (from : Z) :
  includes s sub = false -> indexOf s sub from = (-1)%Z.
Proof.
  unfold includes, indexOf. destruct (find_from sub s 0) eqn:E; [discriminate|].
  intros _. now rewrite (find_from_None_drop sub s _ 0 _ E).
Qed.

Lemma indexOf_negative (s sub : string) (from : Z) :
  (from <= 0)%Z -> indexOf s sub from = indexOf s sub 0.
Proof.
  intros H. unfold indexOf.
  replace (Z.to_nat (Z.min from (Z.of_nat (String.length s)))) with 0%nat by lia.
  replace (Z.to_nat (Z.min 0 (Z.of_nat (String.length s)))) with 0%nat by lia.
  reflexivity.
Qed.

(** Without the marker the search for the braces starts at the beginning of
    the body. *)
Lemma settings_text_no_marker (body : string) :
  includes body "var wpApiSettings" = false ->
  settings_text body =
  substring body (indexOf body "{" 0) (indexOf body "};" 0 + 1).
Proof.
  intros H. unfold settings_text. rewrite (indexOf_absent _ _ _ H).
  now rewrite !(indexOf_negative body _ (-1)) by lia.
Qed.

(** Without braces there is nothing to parse. *)
Lemma settings_text_no_braces (body : string) :
  includes body "{" = false -> includes body "};" = false ->
  settings_text body = "".
Proof.
  intros H1 H2. unfold settings_text.
  rewrite (indexOf_absent _ _ _ H1), (indexOf_absent _ _ _ H2).
  unfold substring. cbn [Z.add Z.max Z.opp Z.compare Z.pos_sub].
  replace (Z.to_nat (Z.max _ _) - Z.to_nat (Z.min _ _))%nat with 0%nat by lia.
  reflexivity.
Qed.

Lemma deliver_chunks chunks more ex rq r acc :
  request ex = Some rq -> promise ex = Pending -> chunkedData ex = Some (r, acc) ->
  deliver (List.map EvData chunks ++ EvEnd :: more) ex =
  on_event
    {| request := request ex; response := response ex; data := data ex;
       promise := Pending;
       chunkedData := Some (r, List.fold_left String.append chunks acc);
       incoming := incoming ex |} EvEnd.
Proof.
  revert ex acc; induction chunks as [|ch chunks IH]; intros ex acc Hrq Hp Hc.
  - cbn [List.map app deliver List.fold_left]. rewrite Hp.
    rewrite deliver_settled.
    + destruct ex; simpl in *; subst; reflexivity.
    + unfold on_event. rewrite Hrq, Hc. destruct (transport rq); simpl; rewrite Hp; discriminate.
  - cbn [List.map app deliver List.fold_left]. rewrite Hp.
    rewrite (IH _ (acc ++ ch)).
    + unfold on_event at 2 3 4 5. rewrite Hrq, Hc. reflexivity.
    + now rewrite on_event_request.
    + unfold on_event. rewrite Hrq, Hc. exact Hp.
    + unfold on_event. rewrite Hrq, Hc. reflexivity.
Qed.

(** A response, its chunks and its end resolve the promise with the
    response and the whole body. *)
Lemma deliver_body tr u path method l b status hdrs chunks more :
  deliver (EvResponse status hdrs :: List.map EvData chunks ++ EvEnd :: more)
    (built tr u path method l b) =
  {| request := request (built tr u path method l b);
     response := Some (response_of tr status hdrs);
     data := Some (body_of chunks);
     promise := Resolved;
     chunkedData := Some (response_of tr status hdrs, body_of chunks);
     incoming := [] |}.
Proof.
  cbn [deliver built promise].
  erewrite deliver_chunks with (r := response_of tr status hdrs) (acc := "");
    destruct tr; reflexivity.
Qed.

Section Settings.

Variable rt : Runtime.

(** [getAPISettings] on an authenticated session whose protocol a builder
    accepts: the request is built, the next environment is consumed, and
    either [end()] throws or the exchange is awaited and its body parsed. *)
Lemma getAPISettings_run updateURL c h nt k secure :
  authenticated c = true ->
  secure_of (protocol (_baseURL c)) = Some secure ->
  exists tr l b h' k',
    getAPISettings rt updateURL {| this := c; heap := h; net := nt; calls := k |} =
    let st2 := {| this := read_flag c; heap := h'; net := List.tl nt; calls := k' |} in
    match end_throws (upcoming nt) with
    | Some _ => (Ok false, st2)
    | None =>
        bind (await (with_incoming
                       (built tr (_baseURL c)
                          (fullPath (pathname (_baseURL c)) "wp-admin/post-new.php")
                          "GET" l b)
                       (events (upcoming nt))))
          (store_settings rt updateURL) st2
    end.
Proof.
  intros Ha Hs. unfold getAPISettings. run (get_this_run _). cbn [this].
  rewrite Ha. cbn [negb]. unfold bind at 1. rewrite buildRequest_run.
  assert (Hend : forall tr l b h' k',
    bind (request_end (built tr (_baseURL c)
                         (fullPath (pathname (_baseURL c)) "wp-admin/post-new.php")
                         "GET" l b))
      (fun r => match fst r with
                | Some _ => ret false
                | None => bind (await (snd r)) (store_settings rt updateURL)
                end)
      {| this := read_flag c; heap := h'; net := nt; calls := k' |} =
    let st2 := {| this := read_flag c; heap := h'; net := List.tl nt; calls := k' |} in
    match end_throws (upcoming nt) with
    | Some _ => (Ok false, st2)
    | None =>
        bind (await (with_incoming
                       (built tr (_baseURL c)
                          (fullPath (pathname (_baseURL c)) "wp-admin/post-new.php")
                          "GET" l b)
                       (events (upcoming nt))))
          (store_settings rt updateURL) st2
    end).
  { intros tr l b h' k'. unfold request_end. cbn [request built].
    rewrite bind_assoc.
    assert (E : next_env {| this := read_flag c; heap := h'; net := nt; calls := k' |} =
                (Ok (upcoming nt),
                 {| this := read_flag c; heap := h'; net := List.tl nt; calls := k' |}))
      by (destruct nt; reflexivity).
    run E. run (ret_run _ _). cbn [fst snd].
    destruct (end_throws (upcoming nt)); reflexivity. }
  destruct (flag c).
  - rewrite buildHTTP2Request_run. cbn [_baseURL read_flag]. rewrite Hs. cbv iota beta.
    eexists _, _, _, _, _. apply Hend.
  - rewrite buildHTTP1Request_run. cbn [_baseURL read_flag]. rewrite Hs. cbv iota beta.
    eexists _, _, _, _, _. apply Hend.
Qed.

(** When [store_settings] returns, it returns [true], and an object with a
    gateway is stored. *)
Lemma store_settings_Ok updateURL ex st b st' :
  store_settings rt updateURL ex st = (Ok b, st') ->
  b = true /\ exists o g, _APISettings (this st') = Some o /\ gateway o = Str g.
Proof.
  unfold store_settings.
  destruct (data ex); [|discriminate].
  destruct (JSON_parse rt _) as [v|]; [|discriminate].
  unfold store_parsed, read_root, write_gateway, set_APISettings, clear_APISettings,
    set_baseURL, bind, get_this, set_this, ret, throw.
  destruct v, updateURL; cbn;
    repeat (match goal with
            | |- context [match ?x with _ => _ end] => destruct x
            end; cbn);
    intros H; try discriminate; injection H as <- <-; cbn; eauto.
Qed.

(** C6, as the code has it.  On an authenticated session with a protocol
    the builders accept: when [request.end()] throws, [getAPISettings]
    returns [false]; when the exchange completes with a body, the text
    handed to [JSON.parse] is [settings_text] of the body, a text that does
    not parse raises the parse error, and an object that parses (with a
    root that is a URL, when the URL is to be updated) is stored with its
    gateway and [true] is returned.  Whenever the method returns, [true]
    comes with stored settings and [false] with a throwing [end()].
    Without the marker the text is cut between the first brace and the
    first closing brace and semicolon of the whole body; it is empty when
    the body has neither. *)
Theorem getAPISettings_outcomes updateURL c h nt k secure :
  authenticated c = true ->
  secure_of (protocol (_baseURL c)) = Some secure ->
  let env := upcoming nt in
  let out := getAPISettings rt updateURL {| this := c; heap := h; net := nt; calls := k |} in
  (end_throws env <> None -> fst out = Ok false) /\
  (end_throws env = None ->
   forall status hdrs chunks more,
     events env = EvResponse status hdrs :: List.map EvData chunks ++ EvEnd :: more ->
     let text := settings_text (body_of chunks) in
     match JSON_parse rt text with
     | None => fst out = Throw (SyntaxError text)
     | Some (PObject o) =>
         if updateURL then
           match URL_parse rt (to_string (root o)) with
           | Some u =>
               fst out = Ok true /\
               _APISettings (this (snd out)) = Some (set_gateway o (Str (search u))) /\
               _baseURL (this (snd out)) = u
           | None => fst out = Throw (InvalidURL (to_string (root o)))
           end
         else
           fst out = Ok true /\
           _APISettings (this (snd out)) = Some (set_gateway o (Str "?rest_route/")) /\
           _baseURL (this (snd out)) = _baseURL c
     | Some _ => exists e, fst out = Throw e
     end) /\
  (forall b, fst out = Ok b ->
     if b then end_throws env = None /\
               exists o g, _APISettings (this (snd out)) = Some o /\ gateway o = Str g
     else end_throws env <> None) /\
  (forall body, includes body "var wpApiSettings" = false ->
     settings_text body = substring body (indexOf body "{" 0) (indexOf body "};" 0 + 1)) /\
  (forall body, includes body "{" = false -> includes body "};" = false ->
     settings_text body = "").
Proof.
  intros Ha Hs env out.
  destruct (getAPISettings_run updateURL c h nt k secure Ha Hs)
    as (tr & l & b & h' & k' & Hrun).
  subst out. rewrite Hrun. clear Hrun. fold env. cbv zeta.
  split; [|split; [|split; [|split]]].
  - destruct (end_throws env); [reflexivity | congruence].
  - intros -> status hdrs chunks more Hev.
    match goal with
    | |- context [bind (await ?e) ?K ?s] =>
        assert (Hout : bind (await e) K s =
                       K (with_incoming
                            (deliver (EvResponse status hdrs ::
                                      List.map EvData chunks ++ EvEnd :: more)
                               (built tr (_baseURL c)
                                  (fullPath (pathname (_baseURL c)) "wp-admin/post-new.php")
                                  "GET" l b))
                            (events env)) s)
    end.
    { unfold bind, await. cbn [incoming with_incoming].
      rewrite deliver_incoming, Hev, deliver_body. reflexivity. }
    rewrite Hout, deliver_body. clear Hout.
    unfold store_settings. cbn [data with_incoming].
    destruct (JSON_parse rt (settings_text (body_of chunks))) as [[o| |]|];
      [| | |reflexivity].
    + unfold store_parsed, read_root, write_gateway, set_APISettings, set_baseURL,
        bind, get_this, set_this, ret, throw. cbn.
      destruct updateURL; cbn;
        [destruct (URL_parse rt (to_string (root o))); cbn|]; auto.
    + unfold store_parsed, read_root, write_gateway, clear_APISettings,
        bind, get_this, set_this, ret, throw. cbn.
      destruct updateURL; cbn; eauto.
    + unfold store_parsed, read_root, write_gateway, set_APISettings, set_baseURL,
        bind, get_this, set_this, ret, throw. cbn.
      destruct updateURL; cbn;
        [destruct (URL_parse rt "undefined"); cbn|]; eauto.
  - intros r. destruct (end_throws env).
    + cbn [fst]. intros H; injection H as <-. discriminate.
    + match goal with
      | |- context [bind ?m ?K ?s] => destruct (bind m K s) as [r0 st5] eqn:E0
      end.
      cbn [fst snd]. intros ->. unfold bind in E0.
      destruct (await _ _) as [[ex|e|] st3]; try discriminate.
      apply store_settings_Ok in E0 as [-> H]. auto.
  - apply settings_text_no_marker.
  - apply settings_text_no_braces.
Qed.

End Settings.

(** ** The header builder *)

Lemma defineProperty_get (o : HeaderObj) (n : string) (v : nullable) :
  getOwnProperty (defineProperty o n v) n = Some v.
Proof.
  induction o as [|[k w] o IH]; simpl.
  - now rewrite String.eqb_refl.
  - destruct (String.eqb k n) eqn:E; simpl; rewrite E; auto.
Qed.

Lemma defineProperty_keys_old (o : HeaderObj) (n : string) (v : nullable) :
  In n (List.map fst o) -> List.map fst (defineProperty o n v) = List.map fst o.
Proof.
  induction o as [|[k w] o IH]; simpl; [contradiction|].
  destruct (String.eqb k n) eqn:E; simpl; [reflexivity|].
  intros [H|H]; [apply String.eqb_neq in E; contradiction | now rewrite IH].
Qed.

Lemma defineProperty_keys_new (o : HeaderObj) (n : string) (v : nullable) :
  ~ In n (List.map fst o) ->
  List.map fst (defineProperty o n v) = (List.map fst o ++ [n])%list.
Proof.
  induction o as [|[k w] o IH]; simpl; [reflexivity|].
  intros H. destruct (String.eqb k n) eqn:E.
  - apply String.eqb_eq in E. tauto.
  - simpl. rewrite IH; tauto.
Qed.

Lemma defineProperty_NoDup (o : HeaderObj) (n : string) (v : nullable) :
  NoDup (List.map fst o) -> NoDup (List.map fst (defineProperty o n v)).
Proof.
  intros H. destruct (in_dec string_dec n (List.map fst o)) as [Hin|Hin].
  - now rewrite defineProperty_keys_old.
  - rewrite defineProperty_keys_new by assumption.
    apply NoDup_app. split; [assumption|]. split.
    + intros x Hx Hx'. apply list_elem_of_In in Hx, Hx'.
      destruct Hx' as [<-|[]]. contradiction.
    + constructor; [intros Hx; inversion Hx | constructor].
Qed.

Lemma count_name_NoDup (o : HeaderObj) (n : string) :
  NoDup (List.map fst o) -> In n (List.map fst o) -> count_name o n = 1.
Proof.
  unfold count_name. induction o as [|[k w] o IH]; simpl; [contradiction|].
  intros Hnd Hin. apply NoDup_cons in Hnd as [Hk Hnd].
  rewrite list_elem_of_In in Hk.
  destruct (String.eqb k n) eqn:E; simpl.
  - apply String.eqb_eq in E; subst k. f_equal.
    clear -Hk. induction o as [|[k w] o IH]; simpl in *; [reflexivity|].
    destruct (String.eqb k n) eqn:E; [apply String.eqb_eq in E; tauto | apply IH; tauto].
  - apply IH; auto. destruct Hin as [H|H]; [apply String.eqb_neq in E; contradiction | exact H].
Qed.

Lemma defineProperty_In (o : HeaderObj) (n : string) (v : nullable) :
  In n (List.map fst (defineProperty o n v)).
Proof.
  induction o as [|[k w] o IH]; simpl; [now left|].
  destruct (String.eqb k n) eqn:E; simpl; [left; now apply String.eqb_eq | now right].
Qed.

(** [addHeader] on an existing object: the object at the same address gets
    the property, and the address is returned. *)
Lemma addHeader_at n v l st o :
  heap st !! l = Some o ->
  addHeader n v (Some l) st =
  (Ok l, {| this := this st; heap := <[l := defineProperty o n v]> (heap st);
            net := net st; calls := calls st |}).
Proof.
  intros H. unfold addHeader, bind, get_heap, set_heap, ret. cbn. rewrite H. reflexivity.
Qed.

Section Headers.

Variable rt : Runtime.

(** C8.  When [buildRequest] returns an exchange, the header object it
    created (the one the request carries) has exactly one [Cookie] member
    and, when the session is authenticated, [useAuth] is true and the nonce
    is known, exactly one [X-WP-Nonce] member, holding the nonce.
    [addHeader] on an existing object returns that same object, with
    exactly one member of the given name holding the new value; when the
    name was there already the object has the same members as before, so a
    repeated call overwrites. *)
Theorem buildRequest_one_cookie_header path d method useAuth st ex st1 :
  buildRequest rt path d method useAuth st = (Ok ex, st1) ->
  (exists o,
     heap st1 !! List.length (heap st) = Some o /\
     (forall rq, request ex = Some rq -> req_headers rq = Some (List.length (heap st))) /\
     count_name o "Cookie" = 1 /\
     (authenticated (this st) = true -> useAuth = true ->
      not_null (APINonce (this st)) = true ->
      count_name o "X-WP-Nonce" = 1 /\
      getOwnProperty o "X-WP-Nonce" = Some (APINonce (this st)))) /\
  (forall n v l s o,
     heap s !! l = Some o -> NoDup (List.map fst o) ->
     exists s1 o1,
       addHeader n v (Some l) s = (Ok l, s1) /\
       heap s1 !! l = Some o1 /\
       List.length (heap s1) = List.length (heap s) /\
       NoDup (List.map fst o1) /\
       count_name o1 n = 1 /\ getOwnProperty o1 n = Some v /\
       (In n (List.map fst o) -> List.map fst o1 = List.map fst o)).
Proof.
  intros Hb. split.
  - destruct st as [c h nt k]. rewrite buildRequest_run in Hb. cbn [heap this].
    assert (Hc : forall o1 : HeaderObj,
      (exists a b x y, o1 = defineProperty (defineProperty (request_headers rt c d useAuth) a x) b y /\
         a <> "Cookie" /\ b <> "Cookie" /\ a <> "X-WP-Nonce" /\ b <> "X-WP-Nonce") ->
      count_name o1 "Cookie" = 1 /\
      (authenticated c = true -> useAuth = true -> not_null (APINonce c) = true ->
       count_name o1 "X-WP-Nonce" = 1 /\
       getOwnProperty o1 "X-WP-Nonce" = Some (APINonce c))).
    { intros o1 (a & b & x & y & -> & Ha & Hb' & Ha' & Hb'').
      assert (Hnd : NoDup (List.map fst (request_headers rt c d useAuth))).
      { unfold request_headers.
        destruct (authenticated c && useAuth); [destruct (not_null (APINonce c))|];
          cbn; repeat constructor; rewrite ?list_elem_of_In; cbn; intuition discriminate. }
      assert (Hget : forall n o a x, a <> n ->
                getOwnProperty (defineProperty o a x) n = getOwnProperty o n).
      { intros n o. induction o as [|[k' w] o IH]; intros a0 x0 Hne; simpl.
        - destruct (String.eqb a0 n) eqn:E; [apply String.eqb_eq in E; contradiction|reflexivity].
        - destruct (String.eqb k' a0) eqn:E; simpl.
          + apply String.eqb_eq in E; subst k'.
            destruct (String.eqb a0 n) eqn:E'; [apply String.eqb_eq in E'; contradiction|reflexivity].
          + destruct (String.eqb k' n); auto. }
      assert (Hin : forall n o a x, In n (List.map fst o) ->
                In n (List.map fst (defineProperty o a x))).
      { intros n o a0 x0 H.
        destruct (in_dec string_dec a0 (List.map fst o)).
        - now rewrite defineProperty_keys_old.
        - rewrite defineProperty_keys_new by assumption. apply in_or_app. now left. }
      split.
      - apply count_name_NoDup; [now do 2 apply defineProperty_NoDup|].
        do 2 apply Hin. unfold request_headers.
        destruct (authenticated c && useAuth); cbn; auto 10.
      - intros H1 H2 H3. split.
        + apply count_name_NoDup; [now do 2 apply defineProperty_NoDup|].
          do 2 apply Hin. unfold request_headers. rewrite H1, H2, H3. cbn. auto 10.
        + rewrite !Hget by auto. unfold request_headers. rewrite H1, H2, H3. reflexivity. }
    destruct (flag c).
    + rewrite buildHTTP2Request_run in Hb.
      destruct (secure_of _); apply pair_equal_spec in Hb as [Hr Hst];
        rewrite <- Hst; cbn [heap]; rewrite lookup_last;
        eexists; (split; [reflexivity|]);
        (split; [intros rq H; injection Hr as <-; cbn in H; try discriminate;
                 now injection H as <-|]);
        apply Hc; eexists _, _, _, _; (split; [reflexivity|]);
        repeat split; discriminate.
    + rewrite buildHTTP1Request_run in Hb.
      destruct (secure_of _); [|discriminate].
      apply pair_equal_spec in Hb as [Hr Hst].
      rewrite <- Hst; cbn [heap]; rewrite lookup_last.
      eexists; (split; [reflexivity|]).
      split; [intros rq H; injection Hr as <-; cbn in H; now injection H as <-|].
      apply Hc; eexists _, _, _, _; (split; [reflexivity|]).
      repeat split; discriminate.
  - intros n v l s o Hl Hnd.
    eexists _, (defineProperty o n v). rewrite (addHeader_at _ _ _ _ _ Hl).
    split; [reflexivity|]. cbn [heap].
    split; [apply list_lookup_insert_eq; eapply lookup_lt_Some; eauto|].
    split; [apply length_insert|].
    split; [now apply defineProperty_NoDup|].
    split; [apply count_name_NoDup; [now apply defineProperty_NoDup | apply defineProperty_In]|].
    split; [apply defineProperty_get | apply defineProperty_keys_old].
Qed.

End Headers.

(** ** API calls *)

Section Calls.

Variable rt : Runtime.

(** C7 (what the code does).  The object [callAPI] resolves with holds the
    request, the response and the body, but its [status] member is the
    response object once more, not the response's status code. *)
Theorem callAPI_status_is_response endpoint params method useAuth st obj st' :
  callAPI rt endpoint params method useAuth st = (Ok obj, st') ->
  exists rq r body,
    res_request obj = Some rq /\ res_response obj = Some r /\
    res_data obj = Some body /\
    res_status obj = JSResponse r /\
    res_status obj <> JSValue (statusCode r).
Proof.
  unfold callAPI. run (get_this_run _).
  destruct (negb (authenticated (this st)) && useAuth); [discriminate|].
  rewrite roundtrip_bind. unfold bind at 1.
  destruct (roundtrip rt _ params method useAuth st) as [[ex|e|] st1] eqn:E;
    try discriminate.
  apply roundtrip_spec in E as (_ & rq & r & body & Hrq & Hr & Hd & _).
  intros H; injection H as <- <-. cbn. rewrite Hrq, Hr, Hd.
  exists rq, r, body. repeat split; auto; discriminate.
Qed.

End Calls.

(** * Further properties of the methods *)

(** ** More on strings *)

Lemma drop_zero (s : string) : drop 0 s = s.
Proof. destruct s; reflexivity. Qed.

Lemma drop_append (a b : string) : drop (String.length a) (a ++ b) = b.
Proof. induction a; simpl; [apply drop_zero | assumption]. Qed.

Lemma take_append (a b : string) : take (String.length a) (a ++ b) = a.
Proof. induction a; simpl; [destruct b; reflexivity | congruence]. Qed.

Lemma find_from_shift (sub s : string) (k : nat) :
  find_from sub s k = option_map (Nat.add k) (find_from sub s 0).
Proof.
  revert k; induction s as [|c s IH]; intros k; simpl.
  - destruct (startsWith "" sub); simpl; [now rewrite Nat.add_0_r | reflexivity].
  - destruct (startsWith (String c s) sub); simpl; [now rewrite Nat.add_0_r|].
    rewrite (IH (S k)), (IH 1%nat).
    destruct (find_from sub s 0); simpl; [f_equal; lia | reflexivity].
Qed.

(** An occurrence is at the head or in the rest. *)
Lemma includes_cons (c : ascii) (s sub : string) :
  includes (String c s) sub = startsWith (String c s) sub || includes s sub.
Proof.
  unfold includes. cbn [find_from].
  destruct (startsWith (String c s) sub); [reflexivity|].
  rewrite find_from_shift. destruct (find_from sub s 0); reflexivity.
Qed.

Lemma includes_head (s sub : string) : startsWith s sub = true -> includes s sub = true.
Proof. intros H. unfold includes. now rewrite (find_from_head _ _ 0 H). Qed.

(** A prefix no longer than [u] is a prefix of [u]. *)
Lemma startsWith_app_short (u v q : string) :
  startsWith (u ++ v) q = true -> (String.length q <= String.length u)%nat ->
  startsWith u q = true.
Proof.
  revert u; induction q as [|x q IH]; intros u H Hl; [reflexivity|].
  destruct u as [|y u]; [simpl in Hl; lia|].
  simpl in *. destruct (Ascii.eqb x y); [|discriminate].
  apply IH; [exact H | lia].
Qed.

(** A prefix longer than [a] of [a] followed by the code unit [m] holds
    [m]. *)
Lemma startsWith_reaches (m : ascii) (q a t : string) :
  startsWith (a ++ String m t) q = true -> (String.length a < String.length q)%nat ->
  lacks m q = false.
Proof.
  revert a; induction q as [|x q IH]; intros a H Hl; [simpl in Hl; lia|].
  destruct a as [|y a]; simpl in *.
  - destruct (Ascii.eqb x m) eqn:E; [|discriminate].
    apply Ascii.eqb_eq in E; subst x. now rewrite Ascii.eqb_refl.
  - destruct (Ascii.eqb x y); [|discriminate].
    rewrite (IH a H); [apply andb_false_r | lia].
Qed.

(** The first occurrence: when the text looked for does not repeat its
    first code unit and does not occur in [a], it is found right after
    [a]. *)
Lemma find_from_first (m : ascii) (q a rest : string) (k : nat) :
  lacks m q = true -> includes a (String m q) = false ->
  find_from (String m q) (a ++ String m q ++ rest) k = Some (k + String.length a)%nat.
Proof.
  intros Hq. revert k; induction a as [|c a IH]; intros k Ha.
  - cbn [append String.length]. rewrite Nat.add_0_r.
    apply find_from_head, startsWith_spec. now exists rest.
  - rewrite includes_cons in Ha. apply orb_false_iff in Ha as [Hh Ha].
    change (String c a ++ String m q ++ rest) with (String c (a ++ String m q ++ rest)).
    cbn [find_from String.length].
    destruct (startsWith (String c (a ++ String m q ++ rest)) (String m q)) eqn:E.
    + exfalso. cbn [startsWith] in E, Hh.
      destruct (Ascii.eqb m c); [|discriminate].
      destruct (le_lt_dec (String.length q) (String.length a)) as [Hl|Hl].
      * rewrite (startsWith_app_short _ _ _ E Hl) in Hh. discriminate.
      * change (String m q ++ rest) with (String m (q ++ rest)) in E.
        rewrite (startsWith_reaches m q a (q ++ rest) E Hl) in Hq. discriminate.
    + rewrite (IH (S k) Ha). f_equal. lia.
Qed.

(** Code units other than the first of the text looked for can be passed
    over. *)
Lemma includes_app_lacks (m : ascii) (q a b : string) :
  lacks m a = true -> includes (a ++ b) (String m q) = includes b (String m q).
Proof.
  induction a as [|c a IH]; intros H; [reflexivity|].
  simpl in H. apply andb_true_iff in H as [Hc Ha].
  cbn [append]. rewrite includes_cons. cbn [startsWith].
  apply negb_true_iff in Hc. rewrite Hc. now apply IH.
Qed.

Lemma indexOf_first (m : ascii) (q pre a rest : string) :
  lacks m q = true -> includes a (String m q) = false ->
  indexOf (pre ++ a ++ String m q ++ rest) (String m q) (Z.of_nat (String.length pre)) =
  Z.of_nat (String.length pre + String.length a).
Proof.
  intros Hq Ha. unfold indexOf.
  replace (Z.to_nat (Z.min _ _)) with (String.length pre)
    by (rewrite append_length; lia).
  rewrite drop_append, (find_from_first m q a rest _ Hq Ha). reflexivity.
Qed.

Lemma substring_middle (pre mid post : string) :
  substring (pre ++ mid ++ post) (Z.of_nat (String.length pre))
    (Z.of_nat (String.length pre + String.length mid)) = mid.
Proof.
  unfold substring. rewrite !append_length.
  replace (Z.to_nat (Z.min _ _)) with (String.length pre) by lia.
  replace (Z.to_nat (Z.max _ _) - String.length pre)%nat with (String.length mid) by lia.
  now rewrite drop_append, take_append.
Qed.

(** X1.  The settings as WordPress prints them.  When the body holds the
    marker, then text without an opening brace, then an object in braces
    followed by a semicolon, and neither the marker occurs earlier nor a
    closing brace with a semicolon before the end of the object, the text
    handed to [JSON.parse] is the object with its braces. *)
Theorem settings_text_extracts (pre mid obj post : string) :
  includes pre "var wpApiSettings" = false ->
  includes mid "{" = false ->
  includes (mid ++ "{" ++ obj) "};" = false ->
  settings_text (pre ++ "var wpApiSettings" ++ mid ++ "{" ++ obj ++ "};" ++ post) =
  "{" ++ obj ++ "}".
Proof.
  intros Hpre Hmid Hobj. unfold settings_text.
  set (body := pre ++ _).
  assert (H1 : indexOf body "var wpApiSettings" 0 = Z.of_nat (String.length pre)).
  { pose proof (indexOf_first "v" "ar wpApiSettings" "" pre
                  (mid ++ "{" ++ obj ++ "};" ++ post) eq_refl Hpre) as H.
    cbn [append String.length Nat.add Z.of_nat] in H. exact H. }
  cbv zeta. rewrite H1.
  assert (H2 : indexOf body "{" (Z.of_nat (String.length pre)) =
               Z.of_nat (String.length pre + String.length ("var wpApiSettings" ++ mid))).
  { subst body. rewrite <- (append_assoc "var wpApiSettings" mid).
    apply (indexOf_first "{" "" pre); [reflexivity|].
    now rewrite includes_app_lacks by reflexivity. }
  assert (H3 : indexOf body "};" (Z.of_nat (String.length pre)) =
               Z.of_nat (String.length pre +
                         String.length ("var wpApiSettings" ++ mid ++ "{" ++ obj))).
  { subst body.
    replace (pre ++ "var wpApiSettings" ++ mid ++ "{" ++ obj ++ "};" ++ post)
      with (pre ++ ("var wpApiSettings" ++ mid ++ "{" ++ obj) ++ "};" ++ post)
      by (now rewrite !append_assoc).
    apply (indexOf_first "}" ";" pre); [reflexivity|].
    now rewrite includes_app_lacks by reflexivity. }
  rewrite H2, H3.
  replace body with ((pre ++ "var wpApiSettings" ++ mid) ++ ("{" ++ obj ++ "}") ++ ";" ++ post)
    by (subst body; rewrite !append_assoc; reflexivity).
  replace (Z.of_nat (String.length pre + String.length ("var wpApiSettings" ++ mid)))
    with (Z.of_nat (String.length (pre ++ "var wpApiSettings" ++ mid)))
    by (now rewrite !append_length).
  replace (Z.of_nat (String.length pre +
                     String.length ("var wpApiSettings" ++ mid ++ "{" ++ obj)) + 1)%Z
    with (Z.of_nat (String.length (pre ++ "var wpApiSettings" ++ mid) +
                    String.length ("{" ++ obj ++ "}")))
    by (rewrite !append_length; cbn [String.length append];
        rewrite ?append_length; cbn [String.length]; lia).
  apply substring_middle.
Qed.

(** ** Collapsing the separators of a path *)

(** The piece being read is a prefix of what [join] returns. *)
Lemma join_split_go_acc (sep glue s cur : string) :
  join (split_go sep s 0 cur) glue = cur ++ join (split_go sep s 0 "") glue.
Proof.
  revert cur; induction s as [|c s IH]; intros cur.
  - simpl. now rewrite append_empty_r.
  - cbn [split_go]. destruct (startsWith (String c s) sep).
    + now rewrite !join_cons by apply split_go_nonempty.
    + rewrite IH, (IH ("" ++ String c "")), append_assoc. reflexivity.
Qed.

Lemma collapse_pair (t : string) :
  join (split (String "/" (String "/" t)) "//") "/" = String "/" (join (split t "//") "/").
Proof.
  unfold split. cbn [split_go startsWith Ascii.eqb Bool.eqb String.length Nat.sub].
  rewrite join_cons by apply split_go_nonempty. reflexivity.
Qed.

Lemma collapse_unit (c : ascii) (t : string) :
  startsWith (String c t) "//" = false ->
  join (split (String c t) "//") "/" = String c (join (split t "//") "/").
Proof.
  intros H. unfold split. cbn [split_go]. rewrite H.
  now rewrite join_split_go_acc.
Qed.

Lemma startsWith_pair (c : ascii) (t : string) :
  startsWith (String c t) "//" = true -> c = "/"%char /\ exists t', t = String "/" t'.
Proof.
  cbn [startsWith]. destruct (Ascii.eqb "/" c) eqn:E; [|discriminate].
  apply Ascii.eqb_eq in E. destruct t as [|b t]; [discriminate|].
  destruct (Ascii.eqb "/" b) eqn:E'; [|discriminate].
  apply Ascii.eqb_eq in E'. intros _. subst. eauto.
Qed.

(** The collapsed path starts with a separator when the path does. *)
Lemma collapse_head (s : string) :
  startsWith (join (split s "//") "/") "/" = startsWith s "/".
Proof.
  destruct s as [|c t]; [reflexivity|].
  destruct (startsWith (String c t) "//") eqn:E.
  - apply startsWith_pair in E as [-> [t' ->]]. now rewrite collapse_pair.
  - now rewrite collapse_unit.
Qed.

Lemma startsWith_cons (c a : ascii) (s p : string) :
  startsWith (String c s) (String a p) = Ascii.eqb a c && startsWith s p.
Proof. simpl. now destruct (Ascii.eqb a c). Qed.

Lemma startsWith_prefix (s p q : string) :
  startsWith s (p ++ q) = true -> startsWith s p = true.
Proof.
  revert s; induction p as [|a p IH]; intros s; [reflexivity|].
  destruct s as [|c s]; [discriminate|]. cbn [append]. rewrite !startsWith_cons.
  intros H. apply andb_true_iff in H as [-> H]. now apply IH.
Qed.

(** One pass of [split("//").join("/")] leaves a doubled separator
    exactly where the text had three in a row. *)
Lemma collapse_double (n : nat) :
  forall s, (String.length s <= n)%nat ->
    includes (join (split s "//") "/") "//" = includes s "///".
Proof.
  induction n as [|n IH]; intros s Hn.
  - destruct s; [reflexivity | simpl in Hn; lia].
  - destruct s as [|c t]; [reflexivity|].
    destruct (startsWith (String c t) "//") eqn:E.
    + apply startsWith_pair in E as [-> [t' ->]].
      rewrite collapse_pair, !includes_cons.
      rewrite IH by (simpl in Hn |- *; lia).
      rewrite !startsWith_cons, !Ascii.eqb_refl, collapse_head. cbn [andb].
      generalize (includes t' "///"); intros i.
      destruct (startsWith t' "//") eqn:B.
      * now rewrite (startsWith_prefix t' "/" "/" B).
      * now destruct (startsWith t' "/").
    + rewrite collapse_unit by exact E. rewrite !includes_cons.
      rewrite IH by (simpl in Hn |- *; lia). f_equal.
      destruct (startsWith (String c t) "///") eqn:B;
        [now rewrite (startsWith_prefix _ "//" "/" B) in E|].
      rewrite startsWith_cons in E |- *. now rewrite collapse_head.
Qed.

(** A text without a doubled separator has one piece. *)
Lemma split_go_absent (sep s cur : string) :
  includes s sep = false -> sep <> "" -> split_go sep s 0 cur = [cur ++ s].
Proof.
  intros H Hs. revert cur H; induction s as [|c s IH]; intros cur H.
  - simpl. now rewrite append_empty_r.
  - rewrite includes_cons in H. apply orb_false_iff in H as [H1 H2].
    cbn [split_go]. rewrite H1, IH by exact H2. now rewrite append_assoc.
Qed.

Lemma collapse_length (n : nat) :
  forall s, (String.length s <= n)%nat ->
    (String.length (join (split s "//") "/") <= String.length s)%nat.
Proof.
  induction n as [|n IH]; intros s Hn.
  - destruct s; [simpl; lia | simpl in Hn; lia].
  - destruct s as [|c t]; [simpl; lia|].
    destruct (startsWith (String c t) "//") eqn:E.
    + apply startsWith_pair in E as [-> [t' ->]].
      rewrite collapse_pair. cbn [String.length] in Hn |- *.
      specialize (IH t' ltac:(lia)). lia.
    + rewrite collapse_unit by exact E. cbn [String.length] in Hn |- *.
      specialize (IH t ltac:(lia)). lia.
Qed.

(** X2.  The exact effect of [split("//").join("/")] on the path of a request
    and on the route of an API call.  The result holds a doubled separator
    exactly when the joined text holds three separators in a row; a text
    without a doubled separator is left as it is; the path is never longer
    than the text it is made from. *)
Theorem path_collapse_exact :
  (forall pathname path,
     includes (fullPath pathname path) "//" = includes (pathname ++ "/" ++ path) "///") /\
  (forall pathname path,
     includes (pathname ++ "/" ++ path) "//" = false ->
     fullPath pathname path = pathname ++ "/" ++ path) /\
  (forall pathname path,
     (String.length (fullPath pathname path) <=
      String.length pathname + 1 + String.length path)%nat) /\
  (forall c endpoint,
     includes (route c endpoint) "//" =
     includes (to_string (APIGateway c) ++ to_string (APIVersionString c) ++ endpoint) "///").
Proof.
  split; [|split; [|split]].
  - intros pathname path. unfold fullPath. now apply (collapse_double _ _ (le_n _)).
  - intros pathname path H. unfold fullPath, split.
    now rewrite split_go_absent by (auto; discriminate).
  - intros pathname path. unfold fullPath.
    pose proof (collapse_length _ _ (le_n (String.length (pathname ++ "/" ++ path)))) as H.
    rewrite !append_length in H. cbn [String.length] in H. lia.
  - intros c endpoint. unfold route. now apply (collapse_double _ _ (le_n _)).
Qed.

(** ** Letter case in the protocol negotiator *)

Lemma lower_unit_idem (c : ascii) : lower_unit (lower_unit c) = lower_unit c.
Proof. destruct c as [[] [] [] [] [] [] [] []]; vm_compute; reflexivity. Qed.

Lemma lower_unit_space (c : ascii) : is_space (lower_unit c) = is_space c.
Proof. destruct c as [[] [] [] [] [] [] [] []]; vm_compute; reflexivity. Qed.

Lemma lower_unit_comma (c : ascii) : Ascii.eqb "," (lower_unit c) = Ascii.eqb "," c.
Proof. destruct c as [[] [] [] [] [] [] [] []]; vm_compute; reflexivity. Qed.

Lemma toLowerCase_idem (s : string) : toLowerCase (toLowerCase s) = toLowerCase s.
Proof. induction s; simpl; [reflexivity | now rewrite lower_unit_idem, IHs]. Qed.

Lemma toLowerCase_app (a b : string) :
  toLowerCase (a ++ b) = toLowerCase a ++ toLowerCase b.
Proof. induction a; simpl; congruence. Qed.

Lemma toLowerCase_eqb_empty (s : string) :
  String.eqb (toLowerCase s) "" = String.eqb s "".
Proof. destruct s; reflexivity. Qed.

Lemma trimStart_lower (s : string) : trimStart (toLowerCase s) = toLowerCase (trimStart s).
Proof.
  induction s as [|c s IH]; [reflexivity|].
  cbn [toLowerCase trimStart]. rewrite lower_unit_space.
  destruct (is_space c); [exact IH | reflexivity].
Qed.

Lemma trimEnd_lower (s : string) : trimEnd (toLowerCase s) = toLowerCase (trimEnd s).
Proof.
  induction s as [|c s IH]; [reflexivity|].
  cbn [toLowerCase trimEnd]. rewrite IH, lower_unit_space.
  destruct (trimEnd s); cbn [toLowerCase]; [destruct (is_space c)|]; reflexivity.
Qed.

Lemma trim_lower (s : string) : trim (toLowerCase s) = toLowerCase (trim s).
Proof. unfold trim. now rewrite trimStart_lower, trimEnd_lower. Qed.

Lemma split_go_lower (s cur : string) :
  split_go "," (toLowerCase s) 0 (toLowerCase cur) =
  List.map toLowerCase (split_go "," s 0 cur).
Proof.
  revert cur; induction s as [|c s IH]; intros cur; [reflexivity|].
  cbn [toLowerCase split_go]. rewrite !startsWith_cons, lower_unit_comma.
  cbn [startsWith andb String.length Nat.sub].
  destruct (Ascii.eqb "," c).
  - cbn [andb List.map]. f_equal. apply (IH "").
  - cbn [andb]. rewrite <- IH, toLowerCase_app. reflexivity.
Qed.

Lemma upgrade_loop_lower (l : list string) :
  upgrade_loop (List.map toLowerCase l) = upgrade_loop l.
Proof.
  induction l as [|t l IH]; [reflexivity|].
  cbn [List.map upgrade_loop]. now rewrite trim_lower, toLowerCase_idem, IH.
Qed.

(** The answer for two string values, written with their lower-cased
    forms only. *)
Lemma isHTTP2Upgrade_strings (hs : Headers) (c u : string) :
  getOwnProperty hs "connection" = Some (VStr c) ->
  getOwnProperty hs "upgrade" = Some (VStr u) ->
  isHTTP2Upgrade hs =
  Ok (negb (String.eqb (toLowerCase u) "") && negb (String.eqb (toLowerCase c) "") &&
      includes (toLowerCase c) "upgrade" && upgrade_loop (split (toLowerCase u) ",")).
Proof.
  intros Hc Hu. unfold isHTTP2Upgrade. rewrite Hc, Hu. cbn [loose_eq_empty].
  rewrite !toLowerCase_eqb_empty.
  assert (Hs : split (toLowerCase u) "," = List.map toLowerCase (split u ","))
    by apply (split_go_lower u "").
  rewrite Hs, upgrade_loop_lower.
  destruct (String.eqb u ""); [reflexivity|].
  destruct (String.eqb c ""); [reflexivity|].
  now destruct (includes (toLowerCase c) "upgrade").
Qed.

(** X3.  On string values [isHTTP2Upgrade] never throws, and its answer does
    not depend on the letter case of the two values: header objects whose
    [connection] and [upgrade] members are the same up to case get the
    same answer. *)
Theorem isHTTP2Upgrade_ignores_case (hs hs' : Headers) (c c' u u' : string) :
  getOwnProperty hs "connection" = Some (VStr c) ->
  getOwnProperty hs "upgrade" = Some (VStr u) ->
  getOwnProperty hs' "connection" = Some (VStr c') ->
  getOwnProperty hs' "upgrade" = Some (VStr u') ->
  toLowerCase c = toLowerCase c' -> toLowerCase u = toLowerCase u' ->
  exists b, isHTTP2Upgrade hs = Ok b /\ isHTTP2Upgrade hs' = Ok b.
Proof.
  intros Hc Hu Hc' Hu' Ec Eu.
  rewrite (isHTTP2Upgrade_strings hs c u Hc Hu), (isHTTP2Upgrade_strings hs' c' u' Hc' Hu').
  rewrite Ec, Eu. eauto.
Qed.

#[local] Hint Resolve useHTTP2_changes buildRequest_changes set_useHTTP2_changes
  set_authCookies_changes set_APISettings_changes clear_APISettings_changes
  set_baseURL_changes login_exchange_changes login_cookies_changes
  getAPISettings_changes callAPI_changes : changes.

(** ** The header object of a request *)

Lemma defineProperty_get_other (o : HeaderObj) (a n : string) (x : nullable) :
  a <> n -> getOwnProperty (defineProperty o a x) n = getOwnProperty o n.
Proof.
  intros Hne. induction o as [|[k w] o IH]; simpl.
  - destruct (String.eqb a n) eqn:E; [apply String.eqb_eq in E; contradiction | reflexivity].
  - destruct (String.eqb k a) eqn:E; simpl.
    + apply String.eqb_eq in E; subst k.
      destruct (String.eqb a n) eqn:E'; [apply String.eqb_eq in E'; contradiction | reflexivity].
    + destruct (String.eqb k n); auto.
Qed.

(** The three ways [buildRequest] returns an exchange: over HTTP/2 with a
    request, over HTTP/2 without one, over HTTP/1.1. *)
Ltac built_cases H :=
  match type of H with
  | buildRequest _ _ _ _ _ ?st = _ =>
      let c := fresh "c" in
      let h := fresh "h" in
      let nt := fresh "nt" in
      let k := fresh "k" in
      let Ef := fresh "Ef" in
      let Es := fresh "Es" in
      let secure := fresh "secure" in
      destruct st as [c h nt k]; rewrite buildRequest_run in H;
      destruct (flag c) eqn:Ef;
      [ rewrite buildHTTP2Request_run in H | rewrite buildHTTP1Request_run in H ];
      cbn [_baseURL read_flag] in H;
      destruct (secure_of (protocol (_baseURL c))) as [secure|] eqn:Es;
      try discriminate H;
      apply pair_equal_spec in H as [H ?]; injection H as H; subst
  end.

Section Built.

Variable rt : Runtime.

(** X4.  The body handed to the transport and the [Content-Length] header
    agree.  The request carries no body for [null], the query string of an
    object and a string as it is given; the header holds ["0"] without a
    body and the byte length of the body otherwise, and the content type
    is that of a URL-encoded form. *)
Theorem buildRequest_content_length path d method useAuth st ex st1 rq :
  buildRequest rt path d method useAuth st = (Ok ex, st1) ->
  request ex = Some rq ->
  written rq = match d with
               | DNull => None
               | DObject o => Some (querystring_stringify rt o)
               | DString s => Some s
               end /\
  exists l o,
    req_headers rq = Some l /\ heap st1 !! l = Some o /\
    getOwnProperty o "Content-Type" = Some (Str "application/x-www-form-urlencoded") /\
    getOwnProperty o "Content-Length" =
      Some (Str match written rq with
                | None => "0"
                | Some body => of_nat (Buffer_byteLength rt body)
                end).
Proof.
  intros Hb Hrq. built_cases Hb; cbn in Hrq; try discriminate;
    injection Hrq as <-; cbn [written req_headers heap];
    (split; [now destruct d|]); eexists _, _;
    (split; [reflexivity|]); rewrite lookup_last; (split; [reflexivity|]);
    rewrite !defineProperty_get_other by discriminate;
    unfold request_headers, content_length; destruct d; split; reflexivity.
Qed.

(** X5.  The session cookies and the nonce go out only with [useAuth] on an
    authenticated session; otherwise the request carries the placeholder
    cookie and no nonce. *)
Theorem buildRequest_credentials path d method useAuth st ex st1 rq :
  buildRequest rt path d method useAuth st = (Ok ex, st1) ->
  request ex = Some rq ->
  exists l o,
    req_headers rq = Some l /\ heap st1 !! l = Some o /\
    if authenticated (this st) && useAuth then
      getOwnProperty o "Cookie" = Some (authHeader (this st)) /\
      authHeader (this st) <> Null /\
      getOwnProperty o "X-WP-Nonce" =
        (if not_null (APINonce (this st)) then Some (APINonce (this st)) else None)
    else
      getOwnProperty o "Cookie" = Some (Str "humans_21909=1") /\
      getOwnProperty o "X-WP-Nonce" = None.
Proof.
  intros Hb Hrq. built_cases Hb; cbn in Hrq; try discriminate;
    injection Hrq as <-; cbn [req_headers heap this];
    eexists _, _; (split; [reflexivity|]); rewrite lookup_last;
    (split; [reflexivity|]);
    rewrite !defineProperty_get_other by discriminate;
    unfold request_headers;
    (destruct (authenticated c && useAuth) eqn:Ea;
     [ apply andb_true_iff in Ea as [Ea _];
       split; [reflexivity|]; split;
       [ unfold authenticated, authHeader in *;
         destruct (_authCookies c) as [[|x l]|]; discriminate
       | destruct (not_null (APINonce c)); reflexivity ]
     | split; reflexivity ]).
Qed.

(** X6.  The members of the header object of a request, in the order of
    their creation: the six fixed headers, the cookie, the nonce when it is
    sent, and the two members the adapter adds ([Host] and [Connection]
    over HTTP/1.1, [:path] and [:method] over HTTP/2).  [User-Agent] is the
    [userAgent] of the class and [Accept-Encoding] is [identity]. *)
Theorem buildRequest_header_names path d method useAuth st ex st1 rq :
  buildRequest rt path d method useAuth st = (Ok ex, st1) ->
  request ex = Some rq ->
  exists l o,
    req_headers rq = Some l /\ heap st1 !! l = Some o /\
    List.map fst o =
      (["Content-Type"; "Content-Length"; "Accept"; "Accept-Encoding"; "Accept-Language";
        "User-Agent"; "Cookie"] ++
       (if authenticated (this st) && useAuth && not_null (APINonce (this st))
        then ["X-WP-Nonce"] else []) ++
       match transport rq with
       | HTTP1 _ => ["Host"; "Connection"]
       | HTTP2 _ => [":path"; ":method"]
       end)%list /\
    getOwnProperty o "User-Agent" = Some (Str (userAgent rt)) /\
    getOwnProperty o "Accept-Encoding" = Some (Str "identity") /\
    match transport rq with
    | HTTP1 _ =>
        getOwnProperty o "Host" = Some (Str (hostname (_baseURL (this st)))) /\
        getOwnProperty o "Connection" = Some (Str "keep-alive")
    | HTTP2 _ =>
        getOwnProperty o ":path" = Some (Str (req_path rq)) /\
        getOwnProperty o ":method" = Some (Str method)
    end.
Proof.
  intros Hb Hrq. built_cases Hb; cbn in Hrq; try discriminate;
    injection Hrq as <-; cbn [req_headers req_path transport heap this];
    eexists _, _; (split; [reflexivity|]); rewrite lookup_last;
    (split; [reflexivity|]);
    unfold request_headers;
    destruct (authenticated c && useAuth); [destruct (not_null (APINonce c))| |
                                            destruct (not_null (APINonce c))|];
    cbn; repeat split; reflexivity.
Qed.

(** X7.  [buildRequest] builds and does not send.  No answer of the network
    is consumed; the exchange has no response and no body and its promise
    is not resolved, and is pending when there is a request; one header
    object is added after those present; the request is for the host and
    port of the base URL, the joined path and the given method. *)
Theorem buildRequest_does_not_send path d method useAuth st ex st1 :
  buildRequest rt path d method useAuth st = (Ok ex, st1) ->
  net st1 = net st /\
  response ex = None /\ data ex = None /\
  (exists o, heap st1 = (heap st ++ [o])%list) /\
  promise ex <> Resolved /\
  forall rq, request ex = Some rq ->
    promise ex = Pending /\
    req_hostname rq = hostname (_baseURL (this st)) /\
    req_port rq = port (_baseURL (this st)) /\
    req_path rq = fullPath (pathname (_baseURL (this st))) path /\
    req_method rq = method.
Proof.
  intros Hb. built_cases Hb; cbn; repeat split; eauto; try discriminate;
    match goal with H : Some _ = Some _ |- _ => now injection H as <- end.
Qed.

End Built.

(** ** The header builder and the two adapters on a caller's object *)


Lemma buildHTTP1Request_at path method body l o st :
  heap st !! l = Some o ->
  let u := _baseURL (this st) in
  let o' := defineProperty (defineProperty o "Host" (Str (hostname u)))
              "Connection" (Str "keep-alive") in
  buildHTTP1Request path method body (Some l) st =
  match secure_of (protocol u) with
  | Some secure =>
      (Ok (built (HTTP1 secure) u path method (Some l) body),
       {| this := this st; heap := <[l := o']> (heap st); net := net st;
          calls := (calls st ++ [http_request secure (hostname u) (port u) path method
                                   (Some l)])%list |})
  | None =>
      (Throw (TypeError (null_request body)),
       {| this := this st; heap := <[l := o']> (heap st); net := net st;
          calls := calls st |})
  end.
Proof.
  intros Hl. cbv zeta. unfold buildHTTP1Request.
  run (get_this_run _).
  run (addHeader_at _ _ _ _ _ Hl).
  match goal with
  | |- bind _ _ ?s = _ =>
      assert (Hl2 : heap s !! l = Some (defineProperty o "Host" (Str (hostname (_baseURL (this st))))))
        by (cbn [heap]; apply list_lookup_insert_eq; eapply lookup_lt_Some; eauto)
  end.
  run (addHeader_at _ _ _ _ _ Hl2).
  cbn [this heap net calls]. rewrite list_insert_insert_eq.
  unfold secure_of.
  destruct (String.eqb (protocol (_baseURL (this st))) "http:"); [reflexivity|].
  destruct (String.eqb (protocol (_baseURL (this st))) "https:"); [reflexivity|].
  destruct body; reflexivity.
Qed.

Lemma buildHTTP2Request_at path method body l o st :
  heap st !! l = Some o ->
  let u := _baseURL (this st) in
  let o' := defineProperty (defineProperty o ":path" (Str path)) ":method" (Str method) in
  let authority := protocol u ++ "//" ++ hostname u in
  buildHTTP2Request path method body (Some l) st =
  match secure_of (protocol u) with
  | Some _ =>
      (Ok (built (HTTP2 authority) u path method (Some l) body),
       {| this := this st; heap := <[l := o']> (heap st); net := net st;
          calls := ((calls st ++ [http2_connect authority]) ++ [http2_request (Some l)])%list |})
  | None =>
      (Ok (refused (protocol u)),
       {| this := this st; heap := <[l := o']> (heap st); net := net st;
          calls := (calls st ++ [http2_connect authority])%list |})
  end.
Proof.
  intros Hl. cbv zeta. unfold buildHTTP2Request.
  run (get_this_run _).
  run (addHeader_at _ _ _ _ _ Hl).
  match goal with
  | |- bind _ _ ?s = _ =>
      assert (Hl2 : heap s !! l = Some (defineProperty o ":path" (Str path)))
        by (cbn [heap]; apply list_lookup_insert_eq; eapply lookup_lt_Some; eauto)
  end.
  run (addHeader_at _ _ _ _ _ Hl2).
  cbn [this heap net calls]. rewrite list_insert_insert_eq.
  unfold secure_of.
  destruct (String.eqb (protocol (_baseURL (this st))) "http:"); [reflexivity|].
  destruct (String.eqb (protocol (_baseURL (this st))) "https:"); reflexivity.
Qed.

(** Two members defined one after the other on an object. *)
Lemma defineProperty_twice (o : HeaderObj) (a b : string) (x y : nullable) :
  a <> b ->
  let o1 := defineProperty (defineProperty o a x) b y in
  getOwnProperty o1 a = Some x /\ getOwnProperty o1 b = Some y /\
  (forall m, m <> a -> m <> b -> getOwnProperty o1 m = getOwnProperty o m) /\
  (NoDup (List.map fst o) -> count_name o1 a = 1 /\ count_name o1 b = 1).
Proof.
  intros Hab. cbv zeta. split; [|split; [|split]].
  - rewrite defineProperty_get_other by congruence. apply defineProperty_get.
  - apply defineProperty_get.
  - intros m Ha Hb. rewrite !defineProperty_get_other by congruence. reflexivity.
  - intros Hnd. split; apply count_name_NoDup;
      try (now do 2 apply defineProperty_NoDup); [|apply defineProperty_In].
    destruct (in_dec string_dec b (List.map fst (defineProperty o a x))).
    + rewrite defineProperty_keys_old by assumption. apply defineProperty_In.
    + rewrite defineProperty_keys_new by assumption.
      apply in_or_app. left. apply defineProperty_In.
Qed.

(** X9.  [buildHTTP1Request] overwrites [Host] and [Connection] on the
    caller's header object, for every protocol, and leaves the rest. *)
Theorem buildHTTP1Request_overwrites_host path method body l o st r st1 :
  heap st !! l = Some o ->
  buildHTTP1Request path method body (Some l) st = (r, st1) ->
  let u := _baseURL (this st) in
  (exists o1,
     heap st1 !! l = Some o1 /\
     getOwnProperty o1 "Host" = Some (Str (hostname u)) /\
     getOwnProperty o1 "Connection" = Some (Str "keep-alive") /\
     (forall m, m <> "Host" -> m <> "Connection" ->
        getOwnProperty o1 m = getOwnProperty o m) /\
     (NoDup (List.map fst o) -> count_name o1 "Host" = 1 /\ count_name o1 "Connection" = 1)) /\
  (forall l', l' <> l -> heap st1 !! l' = heap st !! l') /\
  match secure_of (protocol u) with
  | Some secure =>
      r = Ok (built (HTTP1 secure) u path method (Some l) body) /\
      calls st1 = (calls st ++ [http_request secure (hostname u) (port u) path method
                                  (Some l)])%list
  | None => (exists what, r = Throw (TypeError what)) /\ calls st1 = calls st
  end.
Proof.
  intros Hl Hb. cbv zeta. rewrite (buildHTTP1Request_at _ _ _ _ _ _ Hl) in Hb.
  assert (Hh : heap st1 = <[l := defineProperty (defineProperty o "Host"
                                   (Str (hostname (_baseURL (this st)))))
                                "Connection" (Str "keep-alive")]> (heap st))
    by (destruct (secure_of _); injection Hb as <- <-; reflexivity).
  split; [|split].
  - eexists. rewrite Hh.
    split; [apply list_lookup_insert_eq; eapply lookup_lt_Some; eauto|].
    apply defineProperty_twice. discriminate.
  - intros l' Hne. rewrite Hh. now apply list_lookup_insert_ne.
  - destruct (secure_of _); injection Hb as <- <-; cbn; eauto.
Qed.

(** X10.  Without a header object, the [Host] and [Connection] members are
    put on two new objects, and the request has no headers. *)
Theorem buildHTTP1Request_without_headers path method body st secure :
  secure_of (protocol (_baseURL (this st))) = Some secure ->
  let u := _baseURL (this st) in
  exists st1,
    buildHTTP1Request path method body None st =
      (Ok (built (HTTP1 secure) u path method None body), st1) /\
    heap st1 = (heap st ++ [[("Host", Str (hostname u))];
                            [("Connection", Str "keep-alive")]])%list /\
    calls st1 = (calls st ++ [http_request secure (hostname u) (port u) path method None])%list /\
    this st1 = this st /\ net st1 = net st.
Proof.
  intros Hs. cbv zeta. destruct st as [c h nt k]. cbn [this heap calls net] in *.
  unfold buildHTTP1Request. run (get_this_run _). cbn [this].
  run (addHeader_new _ _ _ _ _ _). run (addHeader_new _ _ _ _ _ _).
  unfold secure_of in Hs.
  destruct (String.eqb (protocol (_baseURL c)) "http:").
  - injection Hs as <-. eexists. split; [reflexivity|]. cbn.
    rewrite <- app_assoc. auto.
  - destruct (String.eqb (protocol (_baseURL c)) "https:"); [|discriminate].
    injection Hs as <-. eexists. split; [reflexivity|]. cbn.
    rewrite <- app_assoc. auto.
Qed.

(** X11.  [buildHTTP2Request] sets the two pseudo-headers on the caller's
    object and opens a connection at each call, to the protocol and host
    of the base URL. *)
Theorem buildHTTP2Request_connects path method body l o st r st1 :
  heap st !! l = Some o ->
  buildHTTP2Request path method body (Some l) st = (r, st1) ->
  let u := _baseURL (this st) in
  let authority := protocol u ++ "//" ++ hostname u in
  (exists o1,
     heap st1 !! l = Some o1 /\
     getOwnProperty o1 ":path" = Some (Str path) /\
     getOwnProperty o1 ":method" = Some (Str method) /\
     (forall m, m <> ":path" -> m <> ":method" ->
        getOwnProperty o1 m = getOwnProperty o m)) /\
  (forall l', l' <> l -> heap st1 !! l' = heap st !! l') /\
  match secure_of (protocol u) with
  | Some _ =>
      r = Ok (built (HTTP2 authority) u path method (Some l) body) /\
      calls st1 = (calls st ++ [http2_connect authority; http2_request (Some l)])%list
  | None =>
      r = Ok (refused (protocol u)) /\
      calls st1 = (calls st ++ [http2_connect authority])%list
  end.
Proof.
  intros Hl Hb. cbv zeta. rewrite (buildHTTP2Request_at _ _ _ _ _ _ Hl) in Hb.
  assert (Hh : heap st1 = <[l := defineProperty (defineProperty o ":path" (Str path))
                                ":method" (Str method)]> (heap st))
    by (destruct (secure_of _); injection Hb as <- <-; reflexivity).
  split; [|split].
  - eexists. rewrite Hh.
    split; [apply list_lookup_insert_eq; eapply lookup_lt_Some; eauto|].
    destruct (defineProperty_twice o ":path" ":method" (Str path) (Str method))
      as (H1 & H2 & H3 & _); [discriminate|]. auto.
  - intros l' Hne. rewrite Hh. now apply list_lookup_insert_ne.
  - destruct (secure_of _); injection Hb as <- <-; cbn; rewrite <- ?app_assoc; auto.
Qed.

(** ** The exchange while its promise is pending *)

Lemma on_event_unsettled rq ex ev :
  request ex = Some rq -> promise ex = Pending ->
  (data ex = None /\ forall s, transport rq = HTTP1 s -> response ex = None) ->
  promise (on_event ex ev) <> Resolved ->
  data (on_event ex ev) = None /\
  forall s, transport rq = HTTP1 s -> response (on_event ex ev) = None.
Proof.
  intros Hrq Hp [Hd Hr]. unfold on_event. rewrite Hrq.
  destruct ev as [status hdrs|chunk| |e]; cbn.
  - destruct (transport rq) eqn:Et; cbn; intros _; (split; [exact Hd|]); eauto.
    intros s Hs; discriminate.
  - destruct (chunkedData ex) as [[r acc]|]; cbn; auto.
  - destruct (chunkedData ex) as [[r acc]|]; cbn; auto.
    destruct (transport rq); cbn; rewrite Hp; cbn; congruence.
  - auto.
Qed.

Lemma deliver_unsettled rq evs ex :
  request ex = Some rq -> promise ex = Pending ->
  (data ex = None /\ forall s, transport rq = HTTP1 s -> response ex = None) ->
  promise (deliver evs ex) <> Resolved ->
  data (deliver evs ex) = None /\
  forall s, transport rq = HTTP1 s -> response (deliver evs ex) = None.
Proof.
  revert ex; induction evs as [|ev evs IH]; intros ex Hrq Hp Hn; cbn [deliver]; auto.
  rewrite Hp. intros Hres.
  destruct (promise (on_event ex ev)) eqn:Ep.
  - apply IH; auto; [now rewrite on_event_request|].
    apply (on_event_unsettled rq ex ev Hrq Hp Hn). congruence.
  - rewrite deliver_settled in Hres by congruence. congruence.
  - rewrite deliver_settled by congruence.
    apply (on_event_unsettled rq ex ev Hrq Hp Hn). congruence.
Qed.

(** X12.  As the awaiting caller finds an exchange.  Unless the promise is
    resolved the body is [null], and over HTTP/1.1 so is the response; a
    resolved promise comes with both; a rejected one was rejected by an
    [error] event, with that error wrapped.  Over HTTP/2 the response is
    there from the [response] event on, while the promise is pending. *)
Theorem exchange_null_until_resolved tr u path method l body evs :
  let ex := deliver evs (built tr u path method l body) in
  (promise ex <> Resolved ->
     data ex = None /\ forall s, tr = HTTP1 s -> response ex = None) /\
  (promise ex = Resolved -> exists r d, response ex = Some r /\ data ex = Some d) /\
  (forall e, promise ex = Rejected e -> exists s, e = WrappedError s /\ In (EvError s) evs) /\
  (forall a status hdrs, tr = HTTP2 a ->
     let ex1 := deliver [EvResponse status hdrs] (built tr u path method l body) in
     promise ex1 = Pending /\ response ex1 = Some (response_of tr status hdrs)).
Proof.
  cbv zeta. split; [|split; [|split]].
  - intros Hn.
    apply (deliver_unsettled
             {| transport := tr; req_hostname := hostname u; req_port := port u;
                req_path := path; req_method := method; req_headers := l;
                written := body |} evs (built tr u path method l body));
      try reflexivity; auto.
  - intros Hp.
    destruct (deliver_inv evs _ evs _ (built_inv evs tr u path method l body _ eq_refl)
                (fun x Hx => Hx)) as [_ _ Hres _].
    destruct (Hres Hp) as (r & d & H1 & H2 & _). eauto.
  - intros e Hp.
    destruct (deliver_inv evs _ evs _ (built_inv evs tr u path method l body _ eq_refl)
                (fun x Hx => Hx)) as [_ _ _ Hrej].
    destruct (Hrej e Hp) as (s & H1 & H2). eauto.
  - intros a status hdrs ->. split; reflexivity.
Qed.

Lemma deliver_progress evs ex :
  promise ex = Pending -> forallb progress_only evs = true ->
  promise (deliver evs ex) = Pending.
Proof.
  revert ex; induction evs as [|ev evs IH]; intros ex Hp Hf; cbn [deliver]; auto.
  rewrite Hp. cbn in Hf. apply andb_true_iff in Hf as [Hev Hf].
  apply IH; auto. unfold on_event.
  destruct (request ex); auto.
  destruct ev; try discriminate; cbn; repeat case_match; cbn; auto.
Qed.

(** ** API calls from start to end *)


Section CallAPI.

Variable rt : Runtime.

(** One exchange on a protocol the builders accept: the request is built
    for the protocol in use, the next answer of the network is consumed,
    and the promise decides. *)
Lemma roundtrip_run path d method useAuth c h nt k secure :
  secure_of (protocol (_baseURL c)) = Some secure ->
  let u := _baseURL c in
  let tr := if flag c then HTTP2 (protocol u ++ "//" ++ hostname u) else HTTP1 secure in
  let evs := events (upcoming nt) in
  let fp := fullPath (pathname u) path in
  let l := List.length h in
  exists o,
    roundtrip rt path d method useAuth {| this := c; heap := h; net := nt; calls := k |} =
    (settled (with_incoming
                (deliver evs (built tr u fp method (Some l) (request_body rt d))) evs),
     {| this := read_flag c; heap := (h ++ [o])%list; net := List.tl nt;
        calls := (k ++ if flag c
                       then [http2_connect (protocol u ++ "//" ++ hostname u);
                             http2_request (Some l)]
                       else [http_request secure (hostname u) (port u) fp method
                               (Some l)])%list |}).
Proof.
  intros Hs. cbv zeta. unfold roundtrip, bind. rewrite buildRequest_run.
  destruct (flag c).
  - rewrite buildHTTP2Request_run. cbn [_baseURL read_flag]. rewrite Hs.
    erewrite send_run by reflexivity. rewrite <- app_assoc. eauto.
  - rewrite buildHTTP1Request_run. cbn [_baseURL read_flag]. rewrite Hs.
    erewrite send_run by reflexivity. eauto.
Qed.

(** What one exchange does to the state, whatever its outcome. *)
Lemma roundtrip_effects path d method useAuth st r st' :
  roundtrip rt path d method useAuth st = (r, st') ->
  this st' = read_flag (this st) /\
  (exists o, heap st' = (heap st ++ [o])%list) /\
  (net st' = net st \/ net st' = List.tl (net st)).
Proof.
  destruct st as [c h nt k]. unfold roundtrip, bind. rewrite buildRequest_run.
  destruct (flag c).
  - rewrite buildHTTP2Request_run. cbn [_baseURL read_flag].
    destruct (secure_of _).
    + erewrite send_run by reflexivity. intros H; injection H as <- <-. cbn. eauto.
    + rewrite send_null by reflexivity. intros H; injection H as <- <-. cbn. eauto.
  - rewrite buildHTTP1Request_run. cbn [_baseURL read_flag].
    destruct (secure_of _).
    + erewrite send_run by reflexivity. intros H; injection H as <- <-. cbn. eauto.
    + intros H; injection H as <- <-. cbn. eauto.
Qed.

Lemma callAPI_roundtrip endpoint params method useAuth st :
  (authenticated (this st) || negb useAuth) = true ->
  callAPI rt endpoint params method useAuth st =
  bind (roundtrip rt (route (this st) endpoint) params method useAuth)
    (fun reqResObj =>
       ret {| res_request := request reqResObj;
              res_response := response reqResObj;
              res_status := match response reqResObj with
                            | Some r => JSResponse r
                            | None => JSNull
                            end;
              res_data := data reqResObj |}) st.
Proof.
  intros Ha. unfold callAPI. run (get_this_run _).
  replace (negb (authenticated (this st)) && useAuth) with false
    by (destruct (authenticated (this st)), useAuth; simpl in *; congruence).
  now rewrite roundtrip_bind.
Qed.


(** X14.  [callAPI] has no time limit.  As long as the transport reports
    neither the end of the response nor an error, the call does not
    complete; an exception of [end()] does not end it either. *)
Theorem callAPI_waits_for_the_end endpoint params method useAuth c h nt k secure :
  (authenticated c || negb useAuth) = true ->
  secure_of (protocol (_baseURL c)) = Some secure ->
  forallb progress_only (events (upcoming nt)) = true ->
  fst (callAPI rt endpoint params method useAuth
         {| this := c; heap := h; net := nt; calls := k |}) = Hang.
Proof.
  intros Ha Hs Hev.
  rewrite callAPI_roundtrip by exact Ha. cbn [this].
  destruct (roundtrip_run (route c endpoint) params method useAuth c h nt k
              secure Hs) as (o & Hrun).
  unfold bind. rewrite Hrun. unfold settled. cbn [promise with_incoming].
  now rewrite deliver_progress.
Qed.

(** X15.  [callAPI] reads the session and does not write it; the header
    objects of earlier requests stay as they are, and at most one answer
    of the network is consumed. *)
Theorem callAPI_leaves_session endpoint params method useAuth st r st' :
  callAPI rt endpoint params method useAuth st = (r, st') ->
  _baseURL (this st') = _baseURL (this st) /\
  _authCookies (this st') = _authCookies (this st) /\
  _APISettings (this st') = _APISettings (this st) /\
  flag (this st') = flag (this st) /\
  (forall l o, heap st !! l = Some o -> heap st' !! l = Some o) /\
  (net st' = net st \/ net st' = List.tl (net st)).
Proof.
  intros H.
  destruct (callAPI_changes rt true true true true _ _ _ _ _ _ _ H) as (H1 & H2 & H3 & H4 & _).
  do 4 (split; [auto|]).
  unfold callAPI in H. rewrite (bind_Ok _ _ _ _ _ (get_this_run _)) in H.
  destruct (negb (authenticated (this st)) && useAuth).
  - injection H as <- <-. auto.
  - rewrite roundtrip_bind in H. unfold bind in H.
    destruct (roundtrip rt _ params method useAuth st) as [r1 st1] eqn:E.
    apply roundtrip_effects in E as (_ & [o Ho] & Hn).
    assert (st' = st1) by (destruct r1; now injection H as <- <-). subst st1.
    split; [|exact Hn].
    intros l o' Hl. rewrite Ho. rewrite lookup_app_l; [exact Hl|].
    eapply lookup_lt_Some; eauto.
Qed.

(** X16.  The errors of [callAPI].  It fails with the need-login error exactly
    when [useAuth] is set on a session that is not authenticated, and then
    before anything is built or sent; the message names the route as
    undefined, whatever the endpoint.  Every other failure is an error of
    the exchange; for a protocol that is not supported it is a [TypeError]
    over HTTP/1.1 and the unsupported-protocol error over HTTP/2. *)
Theorem callAPI_errors endpoint params method useAuth st :
  (authenticated (this st) = false -> useAuth = true ->
     callAPI rt endpoint params method useAuth st = (Throw APICallNeedsLogin, st)) /\
  (forall e st', callAPI rt endpoint params method useAuth st = (Throw e, st') ->
     if negb (authenticated (this st)) && useAuth
     then e = APICallNeedsLogin /\ st' = st
     else exchange_error e) /\
  message APICallNeedsLogin =
    "API call " ++ dquote ++ "undefined" ++ dquote ++ " requires authentication." /\
  ((authenticated (this st) || negb useAuth) = true ->
   secure_of (protocol (_baseURL (this st))) = None ->
   fst (callAPI rt endpoint params method useAuth st) =
   if flag (this st) then Throw (UnsupportedProtocol (protocol (_baseURL (this st))))
   else Throw (TypeError (null_request (request_body rt params)))).
Proof.
  split; [|split; [|split; [reflexivity|]]].
  3: { intros Ha Hs. rewrite callAPI_roundtrip by exact Ha.
       destruct st as [c h nt k]. cbn [this] in *.
       unfold bind, roundtrip, bind. rewrite buildRequest_run.
       destruct (flag c).
       - rewrite buildHTTP2Request_run. cbn [_baseURL read_flag]. rewrite Hs.
         now rewrite send_null by reflexivity.
       - rewrite buildHTTP1Request_run. cbn [_baseURL read_flag]. now rewrite Hs. }
  - intros Ha ->. unfold callAPI. run (get_this_run _). now rewrite Ha.
  - intros e st'. unfold callAPI. run (get_this_run _).
    destruct (negb (authenticated (this st)) && useAuth).
    + intros H; now injection H as <- <-.
    + rewrite roundtrip_bind. unfold bind.
      destruct (roundtrip rt _ params method useAuth st) as [[ex|e0|] st1] eqn:E;
        try discriminate.
      intros H; injection H as <- <-.
      apply roundtrip_spec in E as [_ E]. exact E.
Qed.

End CallAPI.

(** ** Retrieval of the settings: failures and what is left behind *)

Section SettingsFailures.

Variable rt : Runtime.

(** The errors of the second part of [getAPISettings]. *)
Lemma store_settings_throws updateURL ex st e st' :
  store_settings rt updateURL ex st = (Throw e, st') ->
  match e with
  | TypeError _ | SyntaxError _ | InvalidURL _ => True
  | _ => False
  end.
Proof.
  unfold store_settings.
  destruct (data ex); [|intros H; now injection H as <- <-].
  destruct (JSON_parse rt _) as [v|]; [|intros H; now injection H as <- <-].
  unfold store_parsed, read_root, write_gateway, set_APISettings, clear_APISettings,
    set_baseURL, bind, get_this, set_this, ret, throw.
  destruct v, updateURL; cbn;
    repeat (match goal with
            | |- context [match ?x with _ => _ end] => destruct x
            end; cbn);
    intros H; try discriminate; now injection H as <- <-.
Qed.

(** An exchange with a request is rejected by an [error] event only. *)
Lemma await_built_throws tr u path method l b evs st e st' :
  await (with_incoming (built tr u path method l b) evs) st = (Throw e, st') ->
  exists s, e = WrappedError s /\ In (EvError s) evs.
Proof.
  unfold await. cbn [incoming with_incoming]. rewrite deliver_incoming.
  cbn [promise with_incoming].
  destruct (promise (deliver evs (built tr u path method l b))) eqn:Ep; try discriminate.
  intros H; injection H as <- <-.
  destruct (deliver_inv evs _ evs _ (built_inv evs tr u path method l b _ eq_refl)
              (fun x Hx => Hx)) as [_ _ _ Hrej].
  destruct (Hrej _ Ep) as (s & H1 & H2). eauto.
Qed.

(** [getAPISettings] on an authenticated session, for every protocol. *)
Lemma getAPISettings_cases updateURL c h nt k :
  authenticated c = true ->
  let st := {| this := c; heap := h; net := nt; calls := k |} in
  match secure_of (protocol (_baseURL c)) with
  | Some secure =>
      exists tr l b h' k',
        getAPISettings rt updateURL st =
        let st2 := {| this := read_flag c; heap := h'; net := List.tl nt; calls := k' |} in
        match end_throws (upcoming nt) with
        | Some _ => (Ok false, st2)
        | None =>
            bind (await (with_incoming
                           (built tr (_baseURL c)
                              (fullPath (pathname (_baseURL c)) "wp-admin/post-new.php")
                              "GET" l b)
                           (events (upcoming nt))))
              (store_settings rt updateURL) st2
        end
  | None =>
      exists h' k',
        getAPISettings rt updateURL st =
        (if flag c then Ok false
         else Throw (TypeError "Cannot read properties of null (reading 'on')"),
         {| this := read_flag c; heap := h'; net := nt; calls := k' |})
  end.
Proof.
  intros Ha. cbv zeta.
  destruct (secure_of (protocol (_baseURL c))) as [secure|] eqn:Hs.
  - exact (getAPISettings_run rt updateURL c h nt k secure Ha Hs).
  - unfold getAPISettings. run (get_this_run _). cbn [this].
    rewrite Ha. cbn [negb]. unfold bind at 1. rewrite buildRequest_run.
    destruct (flag c).
    + rewrite buildHTTP2Request_run. cbn [_baseURL read_flag]. rewrite Hs.
      cbv iota beta. unfold request_end, refused. cbn [request].
      run (ret_run _ _). cbn [fst]. eauto.
    + rewrite buildHTTP1Request_run. cbn [_baseURL read_flag]. rewrite Hs.
      cbv iota beta. cbn [request_body null_request]. eauto.
Qed.

(** The errors of [getAPISettings] on an authenticated session. *)
Lemma getAPISettings_throws updateURL st e st' :
  authenticated (this st) = true ->
  getAPISettings rt updateURL st = (Throw e, st') ->
  match e with
  | TypeError _ | WrappedError _ | SyntaxError _ | InvalidURL _ => True
  | _ => False
  end.
Proof.
  intros Ha. destruct st as [c h nt k]. cbn [this] in Ha.
  pose proof (getAPISettings_cases updateURL c h nt k Ha) as Hc. cbv zeta in Hc.
  destruct (secure_of (protocol (_baseURL c))) as [secure|].
  - destruct Hc as (tr & l & b & h' & k' & ->).
    destruct (end_throws (upcoming nt)); [discriminate|].
    unfold bind.
    destruct (await _ _) as [[ex|e0|] st3] eqn:Ea; try discriminate.
    + intros H. apply store_settings_throws in H. now destruct e.
    + intros H; injection H as <- <-.
      apply await_built_throws in Ea as (s & -> & _). exact I.
  - destruct Hc as (h' & k' & ->).
    destruct (flag c); [discriminate|]. intros H; now injection H as <- <-.
Qed.

(** X17.  The errors of [getAPISettings].  It fails with the need-login error
    exactly when the session is not authenticated, and then before
    anything is built or sent.  On an authenticated session it fails only
    with a [TypeError], a wrapped transport error, the parse error or the
    invalid-URL error: a protocol that is not supported never shows as
    such, it gives a [TypeError] over HTTP/1.1 and the answer [false] over
    HTTP/2. *)
Theorem getAPISettings_failures updateURL st :
  (authenticated (this st) = false ->
     getAPISettings rt updateURL st = (Throw SettingsNeedLogin, st)) /\
  (forall e st', getAPISettings rt updateURL st = (Throw e, st') ->
     if authenticated (this st)
     then match e with
          | TypeError _ | WrappedError _ | SyntaxError _ | InvalidURL _ => True
          | _ => False
          end
     else e = SettingsNeedLogin /\ st' = st) /\
  (authenticated (this st) = true ->
   secure_of (protocol (_baseURL (this st))) = None ->
   fst (getAPISettings rt updateURL st) =
   if flag (this st) then Ok false
   else Throw (TypeError "Cannot read properties of null (reading 'on')")).
Proof.
  split; [|split].
  - intros Ha. unfold getAPISettings. run (get_this_run _). now rewrite Ha.
  - intros e st'. destruct (authenticated (this st)) eqn:Ha.
    + now apply getAPISettings_throws.
    + unfold getAPISettings. run (get_this_run _). rewrite Ha.
      intros H; now injection H as <- <-.
  - intros Ha Hs. destruct st as [c h nt k]. cbn [this] in *.
    pose proof (getAPISettings_cases updateURL c h nt k Ha) as Hc. cbv zeta in Hc.
    rewrite Hs in Hc. destruct Hc as (h' & k' & ->). reflexivity.
Qed.

(** When [getAPISettings] answers [false] it has stored nothing. *)
Lemma getAPISettings_false updateURL st st' :
  getAPISettings rt updateURL st = (Ok false, st') ->
  _APISettings (this st') = _APISettings (this st) /\
  _baseURL (this st') = _baseURL (this st).
Proof.
  intros H. unfold getAPISettings in H.
  rewrite (bind_Ok _ _ _ _ _ (get_this_run _)) in H.
  destruct (negb (authenticated (this st))); [discriminate|].
  unfold bind at 1 in H.
  destruct (buildRequest rt _ _ _ _ st) as [[ex|e|] st1] eqn:Eb; try discriminate.
  destruct (buildRequest_changes rt true true true true _ _ _ _ _ _ _ Eb)
    as (B1 & _ & B3 & _).
  unfold bind at 1 in H.
  destruct (request_end ex st1) as [[re|e|] st2] eqn:Ee; try discriminate.
  pose proof (request_end_keeps _ _ _ _ Ee) as Hk.
  destruct (fst re).
  - injection H as <-. rewrite Hk. auto.
  - unfold bind in H. destruct (await (snd re) st2) as [[ex2|e|] st3]; try discriminate.
    apply store_settings_Ok in H as [H _]. discriminate.
Qed.

Lemma set_APISettings_url a f o : changes true a false f (set_APISettings o).
Proof.
  intros st r st' H. injection H as <- <-.
  unfold preserved, flag; simpl. repeat split; auto; discriminate.
Qed.

Lemma clear_APISettings_url a f : changes true a false f clear_APISettings.
Proof.
  intros st r st' H. injection H as <- <-.
  unfold preserved, flag; simpl. repeat split; auto; discriminate.
Qed.

(** X18.  [getAPISettings] never changes the cookies or the protocol in use;
    when it answers [false] it has changed nothing of the session, and
    without [updateURL] it keeps the base URL. *)
Theorem getAPISettings_leaves_cookies updateURL st r st' :
  getAPISettings rt updateURL st = (r, st') ->
  _authCookies (this st') = _authCookies (this st) /\
  flag (this st') = flag (this st) /\
  (r = Ok false ->
     _APISettings (this st') = _APISettings (this st) /\
     _baseURL (this st') = _baseURL (this st)) /\
  (updateURL = false -> _baseURL (this st') = _baseURL (this st)).
Proof.
  intros H.
  destruct (getAPISettings_changes rt true true _ _ _ _ H) as (_ & H2 & _ & H4 & _).
  split; [auto|]. split; [auto|]. split.
  - intros ->. now apply (getAPISettings_false updateURL).
  - intros ->.
    assert (Hc : changes true true false true (getAPISettings rt false)).
    { unfold getAPISettings, store_settings, store_parsed, write_gateway.
      pose proof set_APISettings_url. pose proof clear_APISettings_url.
      changes. }
    destruct (Hc _ _ _ H) as (H1 & _). auto.
Qed.

(** X19.  The parsed settings are stored before they are checked.  When the
    text parses to an object whose root is not a URL, the call fails with
    the invalid-URL error and the object is already the session's
    settings, its gateway as parsed and the base URL as before; when the
    text parses to [null], the call fails with a [TypeError] and the
    session's settings are gone. *)
Theorem getAPISettings_stores_before_checking updateURL c h nt k secure status hdrs
    chunks more :
  authenticated c = true ->
  secure_of (protocol (_baseURL c)) = Some secure ->
  end_throws (upcoming nt) = None ->
  events (upcoming nt) = EvResponse status hdrs :: List.map EvData chunks ++ EvEnd :: more ->
  let out := getAPISettings rt updateURL {| this := c; heap := h; net := nt; calls := k |} in
  let text := settings_text (body_of chunks) in
  (forall o,
     JSON_parse rt text = Some (PObject o) -> updateURL = true ->
     URL_parse rt (to_string (root o)) = None ->
     fst out = Throw (InvalidURL (to_string (root o))) /\
     _APISettings (this (snd out)) = Some o /\
     APIGateway (this (snd out)) = gateway o /\
     _baseURL (this (snd out)) = _baseURL c) /\
  (JSON_parse rt text = Some PNull ->
     (exists what, fst out = Throw (TypeError what)) /\
     _APISettings (this (snd out)) = None /\
     APIGateway (this (snd out)) = Str "?rest_route/").
Proof.
  intros Ha Hs Hend Hev out text.
  destruct (getAPISettings_run rt updateURL c h nt k secure Ha Hs)
    as (tr & l & b & h' & k' & Hrun).
  subst out. rewrite Hrun. clear Hrun. rewrite Hend. cbv zeta.
  match goal with
  | |- context [bind (await ?e) ?K ?s] =>
      assert (Hout : bind (await e) K s =
                     K (with_incoming
                          (deliver (EvResponse status hdrs ::
                                    List.map EvData chunks ++ EvEnd :: more)
                             (built tr (_baseURL c)
                                (fullPath (pathname (_baseURL c)) "wp-admin/post-new.php")
                                "GET" l b))
                          (events (upcoming nt))) s)
  end.
  { unfold bind, await. cbn [incoming with_incoming].
    rewrite deliver_incoming, Hev, deliver_body. reflexivity. }
  rewrite Hout, deliver_body. clear Hout.
  unfold store_settings. cbn [data with_incoming]. fold text.
  split.
  - intros o Hv -> Hu. rewrite Hv.
    unfold store_parsed, read_root, set_APISettings, bind, get_this, set_this, ret, throw.
    cbn. rewrite Hu. cbn. auto.
  - intros Hv. rewrite Hv.
    unfold store_parsed, read_root, write_gateway, clear_APISettings, bind, get_this,
      set_this, ret, throw.
    destruct updateURL; cbn; eauto.
Qed.

End SettingsFailures.

(** ** The log of transport calls *)

Lemma extends_bind {A B} (m : M A) (k : A -> M B) :
  extends_calls m -> (forall a, extends_calls (k a)) -> extends_calls (bind m k).
Proof.
  intros Hm Hk st r st'. unfold bind.
  destruct (m st) as [[a|e|] st1] eqn:E; intros H.
  - destruct (Hm _ _ _ E) as [k1 H1]. destruct (Hk a _ _ _ H) as [k2 H2].
    exists (k1 ++ k2)%list. now rewrite H2, H1, app_assoc.
  - injection H as <- <-. eauto.
  - injection H as <- <-. eauto.
Qed.

Lemma extends_same {A} (m : M A) :
  (forall st r st', m st = (r, st') -> calls st' = calls st) -> extends_calls m.
Proof. intros H st r st' E. exists []. now rewrite app_nil_r, (H _ _ _ E). Qed.

Create HintDb extends.

Lemma ret_extends {A} (a : A) : extends_calls (ret a).
Proof. apply extends_same. intros st r st' H. now injection H as <- <-. Qed.

Lemma throw_extends {A} e : extends_calls (@throw A e).
Proof. apply extends_same. intros st r st' H. now injection H as <- <-. Qed.

Lemma hang_extends {A} : extends_calls (@hang A).
Proof. apply extends_same. intros st r st' H. now injection H as <- <-. Qed.

Lemma lift_extends {A} (r : result A) : extends_calls (lift r).
Proof. apply extends_same. intros st r' st' H. now injection H as <- <-. Qed.

Lemma get_this_extends : extends_calls get_this.
Proof. apply extends_same. intros st r st' H. now injection H as <- <-. Qed.

Lemma set_this_extends c : extends_calls (set_this c).
Proof. apply extends_same. intros st r st' H. now injection H as <- <-. Qed.

Lemma get_heap_extends : extends_calls get_heap.
Proof. apply extends_same. intros st r st' H. now injection H as <- <-. Qed.

Lemma set_heap_extends h : extends_calls (set_heap h).
Proof. apply extends_same. intros st r st' H. now injection H as <- <-. Qed.

Lemma call_extends c : extends_calls (call c).
Proof. intros st r st' H. injection H as <- <-. cbn. eauto. Qed.

Lemma next_env_extends : extends_calls next_env.
Proof.
  apply extends_same. intros st r st'. unfold next_env.
  destruct (net st); intros H; now injection H as <- <-.
Qed.

#[local] Hint Resolve ret_extends throw_extends hang_extends lift_extends get_this_extends
  set_this_extends get_heap_extends set_heap_extends call_extends next_env_extends : extends.

(** As [keeps], for [extends_calls]. *)
Ltac extends :=
  repeat (match goal with
          | |- extends_calls (bind _ _) => apply extends_bind
          | |- extends_calls (match ?x with _ => _ end) => destruct x
          | |- extends_calls (if ?x then _ else _) => destruct x
          | |- extends_calls (let '(_, _) := ?x in _) => destruct x
          | |- extends_calls _ => solve [eauto with extends]
          | |- forall _, _ => intro
          end).

Lemma addHeader_extends n v l : extends_calls (addHeader n v l).
Proof. unfold addHeader. extends. Qed.
#[local] Hint Resolve addHeader_extends : extends.

Section Log.

Variable rt : Runtime.

Lemma buildRequest_extends path d method useAuth :
  extends_calls (buildRequest rt path d method useAuth).
Proof.
  unfold buildRequest, buildHTTP1Request, buildHTTP2Request, useHTTP2. extends.
Qed.

Lemma send_extends ex : extends_calls (send ex).
Proof. unfold send, request_end, await. extends. Qed.

#[local] Hint Resolve buildRequest_extends send_extends : extends.

Lemma getAPISettings_extends updateURL : extends_calls (getAPISettings rt updateURL).
Proof.
  unfold getAPISettings, request_end, await, store_settings, store_parsed, read_root,
    write_gateway, set_APISettings, clear_APISettings, set_baseURL.
  extends.
Qed.

Lemma login_cookies_extends hs : extends_calls (login_cookies hs).
Proof. unfold login_cookies, set_authCookies. extends. Qed.

End Log.

(** ** The stages of a login *)

Lemma isHTTP2Upgrade_throws hs e :
  isHTTP2Upgrade hs = Throw e -> exists what, e = TypeError what.
Proof.
  unfold isHTTP2Upgrade. repeat case_match; intros Hx; try discriminate;
    injection Hx as <-; eauto.
Qed.

Section LoginStages.

Variable rt : Runtime.

(** The request of an exchange that completed. *)
Lemma roundtrip_request path d method useAuth st ex st' :
  roundtrip rt path d method useAuth st = (Ok ex, st') ->
  exists rq,
    request ex = Some rq /\ req_method rq = method /\ written rq = request_body rt d /\
    req_path rq = fullPath (pathname (_baseURL (this st))) path /\
    req_hostname rq = hostname (_baseURL (this st)) /\
    (flag (this st) = true ->
     transport rq = HTTP2 (protocol (_baseURL (this st)) ++ "//" ++
                           hostname (_baseURL (this st)))).
Proof.
  destruct st as [c h nt k]. unfold roundtrip, bind. rewrite buildRequest_run.
  cbn [this].
  assert (Hsend : forall tr l s,
    send (built tr (_baseURL c) (fullPath (pathname (_baseURL c)) path) method l
            (request_body rt d)) s = (Ok ex, st') ->
    request ex = request (built tr (_baseURL c) (fullPath (pathname (_baseURL c)) path)
                            method l (request_body rt d))).
  { intros tr l [c1 h1 nt1 k1]. erewrite send_run by reflexivity.
    unfold settled. destruct (promise _); try discriminate.
    intros H; injection H as <- <-. cbn [request with_incoming].
    apply deliver_request. }
  destruct (flag c).
  - rewrite buildHTTP2Request_run. cbn [_baseURL read_flag].
    destruct (secure_of _).
    + intros H. apply Hsend in H. rewrite H. cbn. eexists. repeat split.
    + rewrite send_null by reflexivity. discriminate.
  - rewrite buildHTTP1Request_run. cbn [_baseURL read_flag].
    destruct (secure_of _); [|discriminate].
    intros H. apply Hsend in H. rewrite H. cbn. eexists. repeat split. discriminate.
Qed.

(** The login exchange fails with an error of the exchange only. *)
Lemma login_exchange_throws path params st e st' :
  login_exchange rt path params st = (Throw e, st') -> exchange_error e.
Proof.
  assert (Hlast : forall s, 
    bind (roundtrip rt path params "POST" true)
      (fun reqResObj => bind (read_response reqResObj)
         (fun response => ret (request reqResObj, response))) s = (Throw e, st') ->
    exchange_error e).
  { intros s. unfold bind.
    destruct (roundtrip rt path params "POST" true s) as [[ex|e0|] s1] eqn:E;
      try discriminate.
    - unfold read_response. destruct (response ex); [discriminate|].
      intros H; injection H as <- <-. exact I.
    - intros H; injection H as <- <-. apply roundtrip_spec in E as [_ E]. exact E. }
  unfold login_exchange. rewrite roundtrip_bind. unfold bind at 1.
  destruct (roundtrip rt path params "POST" true st) as [[ex|e0|] s1] eqn:E;
    try discriminate.
  2: { intros H; injection H as <- <-. apply roundtrip_spec in E as [_ E]. exact E. }
  unfold bind at 1, read_response.
  destruct (response ex) as [r|]; [|intros H; injection H as <- <-; exact I].
  cbn [ret]. unfold bind at 1, lift.
  destruct (isHTTP2Upgrade (headers r)) as [[|]|e0|] eqn:Eu; try discriminate.
  - unfold bind at 1. cbn [set_useHTTP2 bind get_this set_this].
    rewrite roundtrip_bind. apply Hlast.
  - intros H; injection H as <- <-.
    apply isHTTP2Upgrade_throws in Eu as [w ->]. exact I.
Qed.

(** [login] is its three stages in a row. *)
Lemma login_stages name pwd path st :
  login rt name pwd path st =
  match login_exchange rt path (DObject [("log", name); ("pwd", pwd)]) st with
  | (Ok r, st1) =>
      match login_cookies (headers (snd r)) st1 with
      | (Ok _, st2) =>
          match getAPISettings rt true st2 with
          | (Ok _, st3) =>
              (Ok {| login_request := fst r; login_response := snd r;
                     login_status := statusCode (snd r);
                     login_authCookies := _authCookies (this st3);
                     login_APISettings := APISettings (this st3) |}, st3)
          | (Throw e, st3) => (Throw e, st3)
          | (Hang, st3) => (Hang, st3)
          end
      | (Throw e, st2) => (Throw e, st2)
      | (Hang, st2) => (Hang, st2)
      end
  | (Throw e, st1) => (Throw e, st1)
  | (Hang, st1) => (Hang, st1)
  end.
Proof.
  unfold login, bind.
  destruct (login_exchange rt path _ st) as [[r|e|] st1]; reflexivity.
Qed.

(** X20.  What a failed [login] leaves of the cookies, by its error.  Without
    a [Set-Cookie] header, or with an empty one, the cookies are those of
    before; with a header that holds no session cookie they are replaced
    by the empty list, which ends an earlier authentication; after any
    other error they are those of before or the new session's.  [login]
    never fails with one of the two need-login errors or with an exception
    of [end()]. *)
Theorem login_failure_cookies name pwd path st e st' :
  login rt name pwd path st = (Throw e, st') ->
  match e with
  | NoCookiesReceived | EmptyCookiesReceived =>
      _authCookies (this st') = _authCookies (this st)
  | AuthCookiesNotReceived =>
      _authCookies (this st') = Some [] /\ authenticated (this st') = false
  | TypeError _ | UnsupportedProtocol _ | WrappedError _ | SyntaxError _ | InvalidURL _ =>
      _authCookies (this st') = _authCookies (this st) \/ authenticated (this st') = true
  | SettingsNeedLogin | APICallNeedsLogin | TransportException _ => False
  end.
Proof.
  rewrite login_stages.
  destruct (login_exchange rt path _ st) as [[r|e0|] st1] eqn:E1;
    destruct (login_exchange_changes rt true true true _ _ _ _ _ E1) as (_ & Ha & _);
    specialize (Ha eq_refl); try discriminate.
  2: { intros H; injection H as <- <-. apply login_exchange_throws in E1.
       destruct e0; try contradiction; auto. }
  rewrite login_cookies_run.
  destruct (getOwnProperty (headers (snd r)) "set-cookie") as [v|];
    [|intros H; injection H as <- <-; exact Ha].
  destruct (loose_eq_empty v); [intros H; injection H as <- <-; exact Ha|].
  cbv zeta. destruct (session_cookies (entries v)) as [|x l].
  - intros H; injection H as <- <-. cbn. auto.
  - match goal with
    | |- context [getAPISettings rt true ?s] =>
        destruct (getAPISettings rt true s) as [[b|e1|] st3] eqn:Eg
    end; try discriminate.
    intros H; injection H as <- <-.
    destruct (getAPISettings_changes rt true true _ _ _ _ Eg) as (_ & Hc & _).
    specialize (Hc eq_refl).
    pose proof (fun H => getAPISettings_throws rt _ _ _ _ H Eg) as Hf.
    specialize (Hf eq_refl).
    assert (Hauth : authenticated (this st3) = true)
      by (unfold authenticated; rewrite Hc; reflexivity).
    destruct e1; try contradiction; auto.
Qed.

(** When the second part of [getAPISettings] returns with [updateURL], the
    base URL is the URL of the root of the settings and the gateway is
    its query part. *)
Lemma store_settings_url ex st b st' :
  store_settings rt true ex st = (Ok b, st') ->
  exists o u,
    URL_parse rt (to_string (root o)) = Some u /\
    _APISettings (this st') = Some (set_gateway o (Str (search u))) /\
    _baseURL (this st') = u.
Proof.
  unfold store_settings.
  destruct (data ex); [|discriminate].
  destruct (JSON_parse rt _) as [[o| |]|]; try discriminate.
  - unfold store_parsed, read_root, write_gateway, set_APISettings, set_baseURL,
      bind, get_this, set_this, ret, throw. cbn.
    destruct (URL_parse rt (to_string (root o))) as [u|] eqn:Eu; cbn; [|discriminate].
    intros H; injection H as <- <-. cbn. eauto.
  - unfold store_parsed, read_root, write_gateway, set_APISettings, set_baseURL,
      bind, get_this, set_this, ret, throw. cbn.
    destruct (URL_parse rt "undefined"); cbn; discriminate.
Qed.

(** The login exchange returns the request it sent last and the response
    to it. *)
Lemma login_exchange_Ok path params st r st1 :
  login_exchange rt path params st = (Ok r, st1) ->
  exists rq,
    fst r = Some rq /\ req_method rq = "POST" /\ written rq = request_body rt params /\
    req_path rq = fullPath (pathname (_baseURL (this st))) path.
Proof.
  assert (Hlast : forall s,
    bind (roundtrip rt path params "POST" true)
      (fun reqResObj => bind (read_response reqResObj)
         (fun response => ret (request reqResObj, response))) s = (Ok r, st1) ->
    exists rq,
      fst r = Some rq /\ req_method rq = "POST" /\ written rq = request_body rt params /\
      req_path rq = fullPath (pathname (_baseURL (this s))) path).
  { intros s. unfold bind.
    destruct (roundtrip rt path params "POST" true s) as [[ex|e0|] s1] eqn:E;
      try discriminate.
    apply roundtrip_request in E as (rq & H1 & H2 & H3 & H4 & _).
    unfold read_response. destruct (response ex); [|discriminate].
    intros H; injection H as <- <-. cbn. eauto. }
  unfold login_exchange. rewrite roundtrip_bind. unfold bind at 1.
  destruct (roundtrip rt path params "POST" true st) as [[ex|e0|] s1] eqn:E;
    try discriminate.
  pose proof (roundtrip_effects rt _ _ _ _ _ _ _ E) as (Hthis & _).
  apply roundtrip_request in E as (rq & H1 & H2 & H3 & H4 & _).
  unfold bind at 1, read_response.
  destruct (response ex) as [resp|]; [|discriminate].
  cbn [ret]. unfold bind at 1, lift.
  destruct (isHTTP2Upgrade (headers resp)) as [[|]|e0|] eqn:Eu; try discriminate.
  - unfold bind at 1. cbn [set_useHTTP2 bind get_this set_this].
    rewrite roundtrip_bind. intros H. apply Hlast in H. cbn [this _baseURL] in H.
    rewrite Hthis in H. exact H.
  - intros H; injection H as <- <-. cbn. eauto.
Qed.

(** X21.  What a successful [login] returns and leaves.  The session is
    authenticated; the result carries the cookies and the settings of the
    session, the request that was sent last (a POST of the two credentials
    to the login path) and the status code of its response.  The settings
    are those read from the server, the base URL being the URL of their
    root and the gateway its query part, unless [end()] threw on the
    settings request: then settings and base URL are those of before. *)
Theorem login_success name pwd path st obj st' :
  login rt name pwd path st = (Ok obj, st') ->
  authenticated (this st') = true /\
  login_authCookies obj = _authCookies (this st') /\
  login_APISettings obj = _APISettings (this st') /\
  login_status obj = statusCode (login_response obj) /\
  (exists rq,
     login_request obj = Some rq /\ req_method rq = "POST" /\
     written rq = Some (querystring_stringify rt [("log", name); ("pwd", pwd)]) /\
     req_path rq = fullPath (pathname (_baseURL (this st))) path) /\
  ((_APISettings (this st') = _APISettings (this st) /\
    _baseURL (this st') = _baseURL (this st)) \/
   exists o u,
     URL_parse rt (to_string (root o)) = Some u /\
     _APISettings (this st') = Some (set_gateway o (Str (search u))) /\
     _baseURL (this st') = u /\
     APIGateway (this st') = Str (search u)).
Proof.
  rewrite login_stages.
  destruct (login_exchange rt path _ st) as [[r|e0|] st1] eqn:E1; try discriminate.
  destruct (login_exchange_changes rt true true true _ _ _ _ _ E1) as (Hu1 & _ & Hs1 & _).
  specialize (Hu1 eq_refl). specialize (Hs1 eq_refl).
  apply login_exchange_Ok in E1 as (rq & R1 & R2 & R3 & R4).
  rewrite login_cookies_run.
  destruct (getOwnProperty (headers (snd r)) "set-cookie") as [v|]; [|discriminate].
  destruct (loose_eq_empty v); [discriminate|].
  cbv zeta. destruct (session_cookies (entries v)) as [|x l]; [discriminate|].
  match goal with
  | |- context [getAPISettings rt true ?s] =>
      destruct (getAPISettings rt true s) as [[b|e1|] st3] eqn:Eg
  end; try discriminate.
  intros H; injection H as <- <-. cbn [login_authCookies login_APISettings login_status
                                       login_response login_request].
  destruct (getAPISettings_changes rt true true _ _ _ _ Eg) as (_ & Hc & _).
  specialize (Hc eq_refl). cbn [this _authCookies] in Hc.
  split; [unfold authenticated; now rewrite Hc|].
  do 3 (split; [reflexivity|]).
  split; [eauto|].
  destruct b.
  - right. unfold getAPISettings in Eg.
    rewrite (bind_Ok _ _ _ _ _ (get_this_run _)) in Eg. cbn [this] in Eg.
    change (authenticated _) with true in Eg. cbn [negb] in Eg.
    unfold bind at 1 in Eg.
    destruct (buildRequest rt _ _ _ _ _) as [[ex|e|] s1]; try discriminate.
    unfold bind at 1 in Eg.
    destruct (request_end ex s1) as [[re|e|] s2]; try discriminate.
    destruct (fst re); [discriminate|].
    unfold bind in Eg. destruct (await (snd re) s2) as [[ex2|e|] s3]; try discriminate.
    apply store_settings_url in Eg as (o & u & U1 & U2 & U3).
    exists o, u. unfold APIGateway, APISettings. rewrite U2. auto.
  - left. destruct (getAPISettings_false rt _ _ _ Eg) as [F1 F2].
    cbn [this _APISettings _baseURL] in F1, F2. rewrite F1, F2. auto.
Qed.

(** The client once the protocol flag is raised. *)
Lemma login_exchange_upgraded path params c h k secure env rest status hdrs chunks more :
  flag c = false ->
  secure_of (protocol (_baseURL c)) = Some secure ->
  events env = EvResponse status hdrs :: List.map EvData chunks ++ EvEnd :: more ->
  isHTTP2Upgrade hdrs = Ok true ->
  let u := _baseURL c in
  exists o,
    login_exchange rt path params {| this := c; heap := h; net := env :: rest; calls := k |} =
    bind (roundtrip rt path params "POST" true)
      (fun reqResObj => bind (read_response reqResObj)
         (fun response => ret (request reqResObj, response)))
      {| this := {| _baseURL := u; _authCookies := _authCookies c;
                    _APISettings := _APISettings c; _useHTTP2 := Some true |};
         heap := (h ++ [o])%list; net := rest;
         calls := (k ++ [http_request secure (hostname u) (port u)
                           (fullPath (pathname u) path) "POST"
                           (Some (List.length h))])%list |}.
Proof.
  intros Hf Hs Hev Hup. cbv zeta.
  destruct (roundtrip_run rt path params "POST" true c h (env :: rest) k secure Hs)
    as (o & Hrun).
  cbn [upcoming] in Hrun. rewrite Hf, Hev, deliver_body in Hrun.
  exists o. unfold login_exchange. rewrite roundtrip_bind.
  rewrite (bind_Ok _ _ _ _ _ Hrun). cbv beta.
  unfold read_response at 1. cbn [response with_incoming].
  run (ret_run _ _). cbn [headers response_of]. unfold lift. rewrite Hup.
  unfold bind at 1. cbn [set_useHTTP2 bind get_this set_this this read_flag
                         _baseURL _authCookies _APISettings].
  now rewrite roundtrip_bind.
Qed.

(** X22.  A login answered with a request to upgrade is sent a second time.
    The first exchange goes over HTTP/1.1; the protocol flag is raised; the
    same POST of the credentials to the same path then goes over a new
    HTTP/2 connection, and the login goes on with the response to it. *)
Theorem login_upgrade_resends name pwd path c h k secure env rest status hdrs chunks more :
  flag c = false ->
  secure_of (protocol (_baseURL c)) = Some secure ->
  events env = EvResponse status hdrs :: List.map EvData chunks ++ EvEnd :: more ->
  isHTTP2Upgrade hdrs = Ok true ->
  let u := _baseURL c in
  let fp := fullPath (pathname u) path in
  let authority := protocol u ++ "//" ++ hostname u in
  let out := login rt name pwd path
               {| this := c; heap := h; net := env :: rest; calls := k |} in
  flag (this (snd out)) = true /\
  (exists later,
     calls (snd out) =
     (k ++ [http_request secure (hostname u) (port u) fp "POST" (Some (List.length h));
            http2_connect authority;
            http2_request (Some (S (List.length h)))] ++ later)%list) /\
  (forall obj, fst out = Ok obj ->
     exists rq,
       login_request obj = Some rq /\ transport rq = HTTP2 authority /\
       req_path rq = fp /\ req_method rq = "POST" /\
       written rq = Some (querystring_stringify rt [("log", name); ("pwd", pwd)]) /\
       answers (events (upcoming rest)) (HTTP2 authority) (login_response obj)).
Proof.
  intros Hf Hs Hev Hup u fp authority out.
  destruct (login_exchange_upgraded path (DObject [("log", name); ("pwd", pwd)])
              c h k secure env rest status hdrs chunks more Hf Hs Hev Hup) as (o & Hle).
  set (c2 := {| _baseURL := _baseURL c; _authCookies := _authCookies c;
                _APISettings := _APISettings c; _useHTTP2 := Some true |}) in Hle.
  destruct (roundtrip_run rt path (DObject [("log", name); ("pwd", pwd)]) "POST" true c2
              (h ++ [o])%list rest
              (k ++ [http_request secure (hostname u) (port u) fp "POST"
                       (Some (List.length h))])%list secure Hs) as (o2 & Hrun).
  cbn [flag c2 _useHTTP2 _baseURL] in Hrun. fold u fp authority in Hrun.
  rewrite length_app in Hrun. cbn [List.length] in Hrun.
  rewrite Nat.add_1_r in Hrun.
  set (ex2 := with_incoming _ _) in Hrun.
  set (st2 := {| this := read_flag c2 |}) in Hrun.
  assert (Hex : login_exchange rt path (DObject [("log", name); ("pwd", pwd)])
                  {| this := c; heap := h; net := env :: rest; calls := k |} =
                match settled ex2 with
                | Ok ex => match response ex with
                           | Some r => (Ok (request ex, r), st2)
                           | None => (Throw (TypeError
                               "Cannot read properties of null (reading 'statusCode')"), st2)
                           end
                | Throw e => (Throw e, st2)
                | Hang => (Hang, st2)
                end).
  { rewrite Hle. unfold bind at 1. fold u fp. rewrite Hrun.
    destruct (settled ex2) as [ex|e|]; try reflexivity.
    unfold bind, read_response. destruct (response ex); reflexivity. }
  pose (tail := fun r : option Request * Response =>
    bind (login_cookies (headers (snd r)))
      (fun _ => bind (getAPISettings rt true)
         (fun _ => bind get_this (fun c0 =>
            ret {| login_request := fst r; login_response := snd r;
                   login_status := statusCode (snd r);
                   login_authCookies := _authCookies c0;
                   login_APISettings := APISettings c0 |})))).
  assert (Hrest : forall r s,
    flag (this s) = true ->
    flag (this (snd (tail r s))) = true /\
    (exists later, calls (snd (tail r s)) = (calls s ++ later)%list) /\
    (forall obj, fst (tail r s) = Ok obj ->
       login_request obj = fst r /\ login_response obj = snd r)).
  { intros r s Hfs.
    destruct (tail r s) as [r3 s3] eqn:E3.
    cbn [fst snd]. split; [|split].
    - assert (Hc : changes false false false true (tail r))
        by (apply changes_bind; [apply login_cookies_changes|intros _];
            apply changes_bind; [apply getAPISettings_changes|intros _];
            apply keeps_changes; keeps).
      destruct (Hc _ _ _ E3) as (_ & _ & _ & H4 & _). now rewrite H4.
    - assert (He : extends_calls (tail r))
        by (apply extends_bind; [apply login_cookies_extends|intros _];
            apply extends_bind; [apply getAPISettings_extends|intros _];
            extends).
      exact (He _ _ _ E3).
    - intros obj ->. unfold tail, bind in E3.
      destruct (login_cookies (headers (snd r)) s) as [[[]|e|] s4]; try discriminate.
      destruct (getAPISettings rt true s4) as [[b|e|] s5]; try discriminate.
      cbn in E3. injection E3 as <- <-. auto. }
  assert (Hlogin : out =
            match login_exchange rt path (DObject [("log", name); ("pwd", pwd)])
                    {| this := c; heap := h; net := env :: rest; calls := k |} with
            | (Ok r, s1) => tail r s1
            | (Throw e, s1) => (Throw e, s1)
            | (Hang, s1) => (Hang, s1)
            end) by reflexivity.
  rewrite Hlogin, Hex. clear Hlogin.
  assert (Hst2 : flag (this st2) = true) by reflexivity.
  assert (Hk2 : calls st2 =
                (k ++ [http_request secure (hostname u) (port u) fp "POST"
                         (Some (List.length h));
                       http2_connect authority;
                       http2_request (Some (S (List.length h)))])%list)
    by (subst st2; cbn [calls]; now rewrite <- app_assoc).
  destruct (settled ex2) as [ex|e|] eqn:Eset; cbn [fst snd].
  2, 3: split; [exact Hst2|]; split; [exists []; rewrite app_nil_r; exact Hk2|discriminate].
  destruct (response ex) as [resp|] eqn:Eresp; cbn [fst snd].
  2: split; [exact Hst2|]; split; [exists []; rewrite app_nil_r; exact Hk2|discriminate].
  destruct (Hrest (request ex, resp) st2 Hst2) as (R1 & [later R2] & R3).
  cbn [fst snd] in R1, R2, R3.
  split; [exact R1|]. split; [exists later; now rewrite R2, Hk2, <- app_assoc|].
  intros obj Hobj. destruct (R3 obj Hobj) as [-> ->].
  assert (Hex2 : ex = ex2)
    by (unfold settled in Eset; destruct (promise ex2); congruence).
  subst ex.
  destruct (deliver_inv (events (upcoming rest)) _ (events (upcoming rest)) _
              (built_inv (events (upcoming rest)) (HTTP2 authority) u fp "POST"
                 (Some (S (List.length h)))
                 (request_body rt (DObject [("log", name); ("pwd", pwd)])) _ eq_refl)
              (fun x Hx => Hx)) as [Irq _ Ires _].
  assert (Hp : promise ex2 = Resolved)
    by (unfold settled in Eset; destruct (promise ex2); congruence).
  subst ex2. cbn [promise request response with_incoming] in *.
  destruct (Ires Hp) as (r0 & d0 & I1 & _ & I3).
  rewrite Irq. eexists. split; [reflexivity|]. cbn.
  repeat split. assert (resp = r0) by congruence. subst resp. exact I3.
Qed.

End LoginStages.

(** ** The cookies of the session *)

Lemma includes_unit (m : ascii) (x : string) :
  includes x (String m "") = negb (lacks m x).
Proof.
  induction x as [|c x IH]; [reflexivity|].
  rewrite includes_cons, startsWith_cons, IH. cbn [startsWith lacks].
  rewrite andb_true_r, negb_andb, negb_involutive. reflexivity.
Qed.

Lemma before_lacks (c : ascii) (x : string) : lacks c (before c x) = true.
Proof.
  induction x as [|a x IH]; [reflexivity|]. cbn [before].
  destruct (Ascii.eqb c a) eqn:E; [reflexivity|]. cbn [lacks]. now rewrite E, IH.
Qed.

(** What the loop of [login] keeps is well formed. *)
Lemma session_cookies_stored (l : list string) :
  Forall (fun x => stored_cookie x = true) (session_cookies l).
Proof.
  unfold session_cookies. induction l as [|x l IH]; cbn [List.filter List.map]; [constructor|].
  destruct (session_cookie x) eqn:E; [|exact IH].
  cbn [List.map]. constructor; [|exact IH].
  unfold stored_cookie. rewrite includes_unit, before_lacks.
  rewrite !startsWith_before by reflexivity.
  rewrite session_cookie_test in E. now rewrite E.
Qed.

(** A piece without the first code unit of the separator is read to its
    end. *)
Lemma split_go_piece (m : ascii) (q x rest cur : string) :
  lacks m x = true ->
  split_go (String m q) (x ++ String m q ++ rest) 0 cur =
  (cur ++ x) :: split_go (String m q) rest 0 "".
Proof.
  revert cur; induction x as [|c x IH]; intros cur H.
  - cbn [append]. rewrite append_empty_r.
    change (String m q ++ rest) with (String m (q ++ rest)).
    cbn [split_go].
    assert (E : startsWith (String m (q ++ rest)) (String m q) = true)
      by (apply startsWith_spec; now exists rest).
    rewrite E. f_equal.
    replace (String.length (String m q) - 1)%nat with (String.length q)
      by (cbn [String.length]; lia).
    apply split_go_skip.
  - cbn [lacks] in H. apply andb_true_iff in H as [Hc Hx].
    change (String c x ++ String m q ++ rest) with (String c (x ++ String m q ++ rest)).
    cbn [split_go]. rewrite startsWith_cons.
    apply negb_true_iff in Hc. rewrite Hc. cbn [andb].
    rewrite IH by exact Hx. now rewrite append_assoc.
Qed.

Lemma split_go_last (m : ascii) (q x cur : string) :
  lacks m x = true -> split_go (String m q) x 0 cur = [cur ++ x].
Proof.
  revert cur; induction x as [|c x IH]; intros cur H.
  - cbn. now rewrite append_empty_r.
  - cbn [lacks] in H. apply andb_true_iff in H as [Hc Hx].
    cbn [split_go]. rewrite startsWith_cons.
    apply negb_true_iff in Hc. rewrite Hc. cbn [andb].
    rewrite IH by exact Hx. now rewrite append_assoc.
Qed.

(** [join] then [split]: pieces that do not hold the first code unit of the
    separator come back as they were. *)
Lemma split_join_pieces (m : ascii) (q : string) (l : list string) :
  l <> [] -> Forall (fun x => lacks m x = true) l ->
  split (join l (String m q)) (String m q) = l.
Proof.
  intros Hne Hl. unfold split.
  induction Hl as [|x l Hx Hl IH]; [congruence|].
  destruct l as [|y l].
  - cbn [join]. now rewrite split_go_last.
  - rewrite join_cons by discriminate.
    rewrite split_go_piece by exact Hx. cbn [append]. f_equal.
    apply IH. discriminate.
Qed.

(** X23.  The [Cookie] header of the session.  [authHeader] is [null] exactly
    when the session is not authenticated; otherwise it is the cookies
    joined with a semicolon and a space, and cookies without a semicolon
    are read back from it one by one. *)
Theorem authHeader_round_trip (c : Client) :
  (authHeader c = Null <-> authenticated c = false) /\
  (forall l, _authCookies c = Some l -> l <> [] ->
     authHeader c = Str (join l "; ") /\
     (Forall (fun x => includes x ";" = false) l -> split (join l "; ") "; " = l)).
Proof.
  unfold authHeader, authenticated. split.
  - destruct (_authCookies c) as [[|x l]|]; split; intros H; try reflexivity;
      discriminate.
  - intros l -> Hne. destruct l as [|x l]; [congruence|].
    split; [reflexivity|]. intros Hl.
    apply split_join_pieces; [discriminate|].
    eapply Forall_impl; [exact Hl|]. cbn beta. intros y Hy.
    rewrite includes_unit in Hy. now apply negb_false_iff in Hy.
Qed.

Section Cookies.

Variable rt : Runtime.

Lemma cookies_kept c c' :
  _authCookies c' = _authCookies c -> cookies_wellformed c -> cookies_wellformed c'.
Proof. unfold cookies_wellformed. now intros ->. Qed.

Lemma login_wellformed name pwd path st r st' :
  login rt name pwd path st = (r, st') ->
  cookies_wellformed (this st) -> cookies_wellformed (this st').
Proof.
  rewrite login_stages. intros H Hw.
  destruct (login_exchange rt path _ st) as [[r1|e0|] st1] eqn:E1;
    destruct (login_exchange_changes rt true true true _ _ _ _ _ E1) as (_ & Ha & _);
    specialize (Ha eq_refl); apply (cookies_kept _ _ Ha) in Hw.
  2, 3: now injection H as <- <-.
  rewrite login_cookies_run in H.
  destruct (getOwnProperty (headers (snd r1)) "set-cookie") as [v|];
    [|now injection H as <- <-].
  destruct (loose_eq_empty v); [now injection H as <- <-|].
  cbv zeta in H.
  pose proof (session_cookies_stored (entries v)) as Hs.
  destruct (session_cookies (entries v)) as [|x l] eqn:Es.
  - injection H as <- <-. exact Hs.
  - match type of H with
    | context [getAPISettings rt true ?s] =>
        destruct (getAPISettings rt true s) as [r3 st3] eqn:Eg
    end.
    destruct (getAPISettings_changes rt true true _ _ _ _ Eg) as (_ & Hc & _).
    assert (st' = st3) by (destruct r3; now injection H as <- <-). subst st3.
    unfold cookies_wellformed. rewrite (Hc eq_refl). exact Hs.
Qed.

(** X24.  Every cookie a session holds is the name and value of a session
    cookie, without attributes: this is so for a new client and stays so
    over every call and every series of calls, whatever the network
    answers. *)
Theorem stored_cookies_invariant :
  (forall blogURL c, constructor rt blogURL = Ok c -> cookies_wellformed c) /\
  (forall op st, cookies_wellformed (this st) -> cookies_wellformed (this (perform rt op st))) /\
  (forall ops st, cookies_wellformed (this st) ->
     cookies_wellformed (this (session rt ops st))).
Proof.
  assert (Hop : forall op st, cookies_wellformed (this st) ->
                  cookies_wellformed (this (perform rt op st))).
  { intros op st Hw.
    destruct op as [loginName loginPassword loginPath|updateURL
                   |endpoint params method useAuth|path d method useAuth
                   |path method body hdrs|path method body hdrs
                   |name v headerObj| |]; cbn [perform].
    - destruct (login rt loginName loginPassword loginPath st) as [r st'] eqn:E.
      exact (login_wellformed _ _ _ _ _ _ E Hw).
    - destruct (getAPISettings rt updateURL st) as [r st'] eqn:E.
      destruct (getAPISettings_changes rt true true _ _ _ _ E) as (_ & Hc & _).
      exact (cookies_kept _ _ (Hc eq_refl) Hw).
    - destruct (callAPI rt endpoint params method useAuth st) as [r st'] eqn:E.
      destruct (callAPI_changes rt true true true true _ _ _ _ _ _ _ E) as (_ & Hc & _).
      exact (cookies_kept _ _ (Hc eq_refl) Hw).
    - destruct (buildRequest rt path d method useAuth st) as [r st'] eqn:E.
      destruct (buildRequest_changes rt true true true true _ _ _ _ _ _ _ E)
        as (_ & Hc & _).
      exact (cookies_kept _ _ (Hc eq_refl) Hw).
    - destruct (buildHTTP1Request path method body hdrs st) as [r st'] eqn:E.
      cbn [snd]. now rewrite (buildHTTP1Request_keeps _ _ _ _ _ _ _ E).
    - destruct (buildHTTP2Request path method body hdrs st) as [r st'] eqn:E.
      cbn [snd]. now rewrite (buildHTTP2Request_keeps _ _ _ _ _ _ _ E).
    - destruct (addHeader name v headerObj st) as [r st'] eqn:E.
      cbn [snd]. now rewrite (addHeader_keeps _ _ _ _ _ _ E).
    - destruct (useHTTP2 st) as [r st'] eqn:E.
      destruct (useHTTP2_changes true true true true _ _ _ E) as (_ & Hc & _).
      exact (cookies_kept _ _ (Hc eq_refl) Hw).
    - exact Hw. }
  split; [|split; [exact Hop|]].
  - intros blogURL c. unfold constructor.
    destruct (URL_parse rt blogURL); [|discriminate].
    intros H; injection H as <-. exact I.
  - induction ops as [|[op nt] ops IH]; intros st Hw; cbn [session]; auto.
Qed.

End Cookies.

(** ** A new client, and who writes the fields of a session *)

Section Fields.

Variable rt : Runtime.

(** X25.  A new client.  The constructor fails exactly when the text is not a
    URL.  The client it returns is not authenticated, has no [Cookie]
    header, no settings, root, nonce or version string, uses HTTP/1.1,
    and its gateway is the default one; an API call made in this state
    goes to a route that holds the word null where the version string
    should be. *)
Theorem constructor_defaults blogURL :
  match URL_parse rt blogURL with
  | None => constructor rt blogURL = Throw (InvalidURL blogURL)
  | Some u =>
      exists c,
        constructor rt blogURL = Ok c /\ _baseURL c = u /\
        authenticated c = false /\ authHeader c = Null /\
        APISettings c = None /\ APIRootURL c = Null /\ APINonce c = Null /\
        APIVersionString c = Null /\ APIGateway c = Str "?rest_route/" /\
        flag c = false /\
        forall endpoint,
          includes endpoint "//" = false ->
          route c endpoint = "?rest_route/null" ++ endpoint
  end /\
  toString = "WPAPILib v0.0.1" /\
  userAgent rt = "WPAPILib/v0.0.1 (Node.js/" ++ process_version rt ++ ")".
Proof.
  split; [|split; reflexivity].
  unfold constructor. destruct (URL_parse rt blogURL) as [u|]; [|reflexivity].
  eexists. split; [reflexivity|]. do 9 (split; [reflexivity|]).
  intros endpoint H1. unfold route, APIGateway, APIVersionString, APISettings.
  cbn [_APISettings to_string]. unfold split.
  rewrite split_go_absent; [reflexivity | | discriminate].
  change ("?rest_route/" ++ "null" ++ endpoint)
    with ("?rest_route" ++ String "/" ("null" ++ endpoint)).
  rewrite (includes_app_lacks "/" "/" "?rest_route") by reflexivity.
  rewrite includes_cons, startsWith_cons.
  rewrite (includes_app_lacks "/" "/" "null") by reflexivity. rewrite H1.
  reflexivity.
Qed.

(** X26.  Who writes the session.  A call that changes the cookies is a
    [login]; a call that changes the settings or the base URL is a [login]
    or a [getAPISettings]. *)
Theorem session_fields_writers op st :
  (_authCookies (this (perform rt op st)) <> _authCookies (this st) ->
     exists name pwd path, op = call_login name pwd path) /\
  (_APISettings (this (perform rt op st)) <> _APISettings (this st) \/
   _baseURL (this (perform rt op st)) <> _baseURL (this st) ->
     (exists name pwd path, op = call_login name pwd path) \/
     exists updateURL, op = call_getAPISettings updateURL).
Proof.
  assert (Hall : forall st', preserved true true true true (this st) (this st') ->
            (_authCookies (this st') <> _authCookies (this st) ->
               exists name pwd path, op = call_login name pwd path) /\
            (_APISettings (this st') <> _APISettings (this st) \/
             _baseURL (this st') <> _baseURL (this st) ->
               (exists name pwd path, op = call_login name pwd path) \/
               exists updateURL, op = call_getAPISettings updateURL)).
  { intros st' (H1 & H2 & H3 & _). split.
    - intros H. now rewrite H2 in H.
    - intros [H|H]; [now rewrite H3 in H | now rewrite H1 in H]. }
  destruct op as [loginName loginPassword loginPath|updateURL
                 |endpoint params method useAuth|path d method useAuth
                 |path method body hdrs|path method body hdrs
                 |name v headerObj| |]; cbn [perform].
  - split; eauto.
  - split; [|eauto]. intros H.
    destruct (getAPISettings rt updateURL st) as [r st'] eqn:E.
    destruct (getAPISettings_changes rt true true _ _ _ _ E) as (_ & Hc & _).
    cbn [snd] in H. now rewrite (Hc eq_refl) in H.
  - apply Hall, changes_snd, callAPI_changes.
  - apply Hall, changes_snd, buildRequest_changes.
  - apply Hall, changes_snd, keeps_changes, buildHTTP1Request_keeps.
  - apply Hall, changes_snd, keeps_changes, buildHTTP2Request_keeps.
  - apply Hall, changes_snd, keeps_changes, addHeader_keeps.
  - apply Hall, changes_snd, useHTTP2_changes.
  - apply Hall, preserved_refl.
Qed.

End Fields.

(** ** From the login to the API calls *)

Section Authenticated.

Variable rt : Runtime.

(** The header object of an exchange, whatever its outcome. *)
Lemma roundtrip_heap path d method useAuth st r st' :
  roundtrip rt path d method useAuth st = (r, st') ->
  exists a x b y,
    heap st' = (heap st ++ [defineProperty
                              (defineProperty (request_headers rt (this st) d useAuth) a x)
                              b y])%list /\
    (a = "Host" /\ b = "Connection" \/ a = ":path" /\ b = ":method").
Proof.
  destruct st as [c h nt k]. unfold roundtrip, bind. rewrite buildRequest_run.
  cbn [this heap].
  destruct (flag c).
  - rewrite buildHTTP2Request_run. cbn [_baseURL read_flag].
    destruct (secure_of _).
    + erewrite send_run by reflexivity. intros H; injection H as <- <-. cbn [heap].
      exists ":path", (Str (fullPath (pathname (_baseURL c)) path)), ":method", (Str method).
      split; [reflexivity|]. auto.
    + rewrite send_null by reflexivity. intros H; injection H as <- <-. cbn [heap].
      exists ":path", (Str (fullPath (pathname (_baseURL c)) path)), ":method", (Str method).
      split; [reflexivity|]. auto.
  - rewrite buildHTTP1Request_run. cbn [_baseURL read_flag].
    destruct (secure_of _).
    + erewrite send_run by reflexivity. intros H; injection H as <- <-. cbn [heap].
      exists "Host", (Str (hostname (_baseURL c))), "Connection", (Str "keep-alive").
      split; [reflexivity|]. auto.
    + intros H; injection H as <- <-. cbn [heap].
      exists "Host", (Str (hostname (_baseURL c))), "Connection", (Str "keep-alive").
      split; [reflexivity|]. auto.
Qed.

(** The session a successful [login] leaves is the one its result shows. *)
Lemma login_result name pwd path st obj st1 :
  login rt name pwd path st = (Ok obj, st1) ->
  login_authCookies obj = _authCookies (this st1) /\
  login_APISettings obj = _APISettings (this st1) /\
  exists x l, _authCookies (this st1) = Some (x :: l).
Proof.
  rewrite login_stages.
  destruct (login_exchange rt path _ st) as [[r|e0|] s1]; try discriminate.
  rewrite login_cookies_run.
  destruct (getOwnProperty (headers (snd r)) "set-cookie") as [v|]; [|discriminate].
  destruct (loose_eq_empty v); [discriminate|].
  cbv zeta. destruct (session_cookies (entries v)) as [|x l]; [discriminate|].
  match goal with
  | |- context [getAPISettings rt true ?s] =>
      destruct (getAPISettings rt true s) as [[b|e1|] st3] eqn:Eg
  end; try discriminate.
  intros H; injection H as <- <-. cbn [login_authCookies login_APISettings].
  destruct (getAPISettings_changes rt true true _ _ _ _ Eg) as (_ & Hc & _).
  specialize (Hc eq_refl). cbn [this _authCookies] in Hc.
  split; [reflexivity|]. split; [reflexivity|]. eauto.
Qed.

(** X27.  After a successful [login], every API call made with [useAuth]
    passes the login check and builds a header object of its own that
    carries the cookies of the login, joined into one [Cookie] header, and
    the nonce read at the login as [X-WP-Nonce], when there is one; this
    is so whatever the network answers to the call. *)
Theorem login_then_callAPI name pwd path st obj st1 endpoint params method nt r st2 :
  login rt name pwd path st = (Ok obj, st1) ->
  callAPI rt endpoint params method true
    {| this := this st1; heap := heap st1; net := nt; calls := calls st1 |} = (r, st2) ->
  r <> Throw APICallNeedsLogin /\
  exists cookies o,
    login_authCookies obj = Some cookies /\ cookies <> [] /\
    heap st2 !! List.length (heap st1) = Some o /\
    (forall l o', heap st1 !! l = Some o' -> heap st2 !! l = Some o') /\
    getOwnProperty o "Cookie" = Some (Str (join cookies "; ")) /\
    getOwnProperty o "X-WP-Nonce" =
      match login_APISettings obj with
      | Some settings => if not_null (nonce settings) then Some (nonce settings) else None
      | None => None
      end.
Proof.
  intros Hl Hc. apply login_result in Hl as (Ha & Hs & x & l & Hx).
  set (s1 := {| this := this st1; heap := heap st1; net := nt; calls := calls st1 |}) in Hc.
  assert (Hauth : authenticated (this s1) = true)
    by (cbn [this s1]; unfold authenticated; now rewrite Hx).
  rewrite callAPI_roundtrip in Hc by (now rewrite Hauth).
  unfold bind in Hc.
  destruct (roundtrip rt (route (this s1) endpoint) params method true s1)
    as [r1 s2] eqn:E.
  pose proof (roundtrip_spec rt _ _ _ _ _ _ _ E) as [_ Hr].
  apply roundtrip_heap in E as (a & v & b & w & Hh & Hab).
  assert (s2 = st2) by (destruct r1; now injection Hc as <- <-). subst s2.
  split.
  { destruct r1 as [ex|e|]; injection Hc as <-; try discriminate.
    intros H; injection H as ->. exact Hr. }
  exists (x :: l), (defineProperty
                      (defineProperty (request_headers rt (this s1) params true) a v) b w).
  cbn [this heap s1] in *.
  split; [congruence|]. split; [discriminate|].
  split; [rewrite Hh; apply lookup_last|].
  split.
  { intros l0 o' Hl0. rewrite Hh. rewrite lookup_app_l; [exact Hl0|].
    eapply lookup_lt_Some; eauto. }
  assert (Hne : a <> "Cookie" /\ b <> "Cookie" /\ a <> "X-WP-Nonce" /\ b <> "X-WP-Nonce")
    by (destruct Hab as [[-> ->]|[-> ->]]; repeat split; discriminate).
  destruct Hne as (N1 & N2 & N3 & N4).
  rewrite !defineProperty_get_other by assumption.
  unfold request_headers. cbn [this s1] in Hauth. rewrite Hauth. cbn [andb].
  unfold authHeader, APINonce, APISettings. rewrite Hx, Hs.
  destruct (_APISettings (this st1)) as [settings|]; cbn;
    [destruct (not_null (nonce settings))|]; split; reflexivity.
Qed.

End Authenticated.

(** * The methods run on the examples *)

Import Examples.

(** The login of the specification's example: two cookies are received, the
    session cookie is stored. *)
Lemma login_stores_session_cookies_witness :
  _authCookies
    (this (snd (login rt "admin" "secret" "wp-login.php"
                  (start blog [answer 302 cookies_sent ""; answer 200 [] page])))) =
  Some ["wordpress_logged_in=xyz"].
Proof.
  set (st0 := start blog [answer 302 cookies_sent ""; answer 200 [] page]).
  assert (E : login_exchange rt "wp-login.php" (DObject [("log", "admin"); ("pwd", "secret")]) st0 =
              (Ok (returned (fst (login_exchange rt "wp-login.php" credentials st0))
                     (None, no_response)),
               snd (login_exchange rt "wp-login.php" credentials st0)))
    by (vm_compute; reflexivity).
  destruct (login_stores_session_cookies rt "admin" "secret" "wp-login.php" st0 _ _ E)
    as [H _].
  vm_compute in H. exact (proj1 H).
Defined.




(** The settings page of the example is parsed and stored. *)
Lemma getAPISettings_outcomes_witness :
  fst (getAPISettings rt true (start logged_in [answer 200 [] page])) = Ok true.
Proof.
  destruct (getAPISettings_outcomes rt true logged_in [] [answer 200 [] page] [] true
              eq_refl eq_refl) as (_ & H & _).
  specialize (H eq_refl 200%Z [] [page] [] eq_refl).
  vm_compute in H. vm_compute. exact (proj1 H).
Defined.

(** C6 fails as stated.  The body has no marker, yet the text between its
    first brace and its first closing brace and semicolon is a settings
    object: it is parsed and stored, and no parse error is raised. *)
Lemma settings_parsed_without_marker :
  includes unmarked "var wpApiSettings" = false /\
  fst (getAPISettings rt true (start logged_in [answer 200 [] unmarked])) = Ok true /\
  APINonce (this (snd (getAPISettings rt true (start logged_in [answer 200 [] unmarked])))) =
    Str "n1".
Proof. vm_compute. repeat split. Qed.

(** An authenticated request with a nonce. *)
Lemma buildRequest_one_cookie_header_witness :
  exists o,
    heap (snd (buildRequest rt "wp/v2/users/me" DNull "GET" true (start ready []))) !! 0%nat =
      Some o /\
    count_name o "Cookie" = 1%nat /\ count_name o "X-WP-Nonce" = 1%nat.
Proof.
  set (b := buildRequest rt "wp/v2/users/me" DNull "GET" true (start ready [])).
  assert (E : b = (Ok (returned (fst b) empty_exchange), snd b))
    by (vm_compute; reflexivity).
  destruct (buildRequest_one_cookie_header rt "wp/v2/users/me" DNull "GET" true
              (start ready []) _ _ E) as [(o & H1 & _ & H2 & H3) _].
  exists o. split; [exact H1|]. split; [exact H2|].
  exact (proj1 (H3 eq_refl eq_refl eq_refl)).
Defined.

(** A login answered with a request to upgrade: the flag is raised, and a
    later API call over the new protocol leaves it raised. *)
Lemma useHTTP2_sticky_witness :
  flag blog = false /\
  flag (this (session rt
                [(call_login "admin" "secret" "wp-login.php",
                  [answer 101 upgrade_asked ""; answer 302 cookies_sent ""; answer 200 [] page]);
                 (call_callAPI "users/me" DNull "GET" true, [answer 200 [] "[]"])]
                (start blog []))) = true.
Proof.
  split; [reflexivity|].
  change (flag (this (session rt [(call_callAPI "users/me" DNull "GET" true, [answer 200 [] "[]"])]
                        (perform rt (call_login "admin" "secret" "wp-login.php")
                           (start blog [answer 101 upgrade_asked ""; answer 302 cookies_sent "";
                                        answer 200 [] page])))) = true).
  apply (proj1 (proj2 (useHTTP2_sticky rt))). vm_compute. reflexivity.
Defined.

(** C5: what the code does for [ftp://example.com].  The HTTP/1.1 builder
    rejects its promise and then throws a [TypeError] on the request that
    was never created, so the caller receives no exchange.  The HTTP/2
    builder calls [http2.connect] and returns an exchange whose promise is
    rejected with the unsupported-protocol error. *)
Theorem unsupported_protocol_builders :
  buildHTTP1Request "/wp-login.php" "POST" (Some "log=admin&pwd=secret") None
    (start ftp_site []) =
  (Throw (TypeError "Cannot read properties of null (reading 'write')"),
   {| this := ftp_site;
      heap := [[("Host", Str "example.com")]; [("Connection", Str "keep-alive")]];
      net := []; calls := [] |}) /\
  fst (buildRequest rt "wp-login.php" credentials "POST" true (start ftp_site [])) =
    Throw (TypeError "Cannot read properties of null (reading 'write')") /\
  fst (buildRequest rt "wp-login.php" credentials "POST" true (start ftp_site_http2 [])) =
    Ok (refused "ftp:") /\
  calls (snd (buildRequest rt "wp-login.php" credentials "POST" true
                (start ftp_site_http2 []))) =
    [http2_connect "ftp://example.com"].
Proof. vm_compute. repeat split. Qed.

(** An API call that completes with status 200. *)
Lemma callAPI_status_is_response_witness :
  res_status
    (returned (fst (callAPI rt "users/me" DNull "GET" true (start ready [answer 200 [] "[]"])))
       {| res_request := None; res_response := None; res_status := JSNull;
          res_data := None |}) =
  JSResponse {| statusCode := VNum 200; headers := [] |}.
Proof.
  set (b := callAPI rt "users/me" DNull "GET" true (start ready [answer 200 [] "[]"])).
  assert (E : b = (Ok (returned (fst b) {| res_request := None; res_response := None;
                                           res_status := JSNull; res_data := None |}),
                   snd b))
    by (vm_compute; reflexivity).
  destruct (callAPI_status_is_response rt "users/me" DNull "GET" true _ _ _ E)
    as (rq & r & body & _ & Hr & _ & Hs & _).
  rewrite Hs. f_equal. vm_compute in Hr. now injection Hr as <-.
Defined.

(** C9: what the code does on the example of the specification.  The three
    separators between [/blog] and [wp-json] become two, not one. *)
Theorem path_join_keeps_double_separator :
  fullPath "/blog/" "/wp-json/users" = "/blog//wp-json/users" /\
  option_map req_path
    (request (returned (fst (buildRequest rt "/wp-json/users" DNull "GET" true
                               (start blog [])))
                empty_exchange)) =
    Some "/blog//wp-json/users" /\
  includes "/blog//wp-json/users" "//" = true.
Proof. vm_compute. repeat split. Qed.

(** ** Further runs *)

Lemma settings_text_extracts_witness : settings_text page = settings_json.
Proof.
  exact (settings_text_extracts "<script>" " = " settings_members "</script>"
           eq_refl eq_refl eq_refl).
Defined.

Lemma isHTTP2Upgrade_ignores_case_witness :
  exists b,
    isHTTP2Upgrade [("connection", VStr "UPGRADE"); ("upgrade", VStr "H2C, WebSocket")] = Ok b /\
    isHTTP2Upgrade [("connection", VStr "upgrade"); ("upgrade", VStr "h2c, websocket")] = Ok b.
Proof.
  exact (isHTTP2Upgrade_ignores_case
           [("connection", VStr "UPGRADE"); ("upgrade", VStr "H2C, WebSocket")]
           [("connection", VStr "upgrade"); ("upgrade", VStr "h2c, websocket")]
           "UPGRADE" "upgrade" "H2C, WebSocket" "h2c, websocket"
           eq_refl eq_refl eq_refl eq_refl eq_refl eq_refl).
Defined.

(** The login request of the example: twenty bytes of credentials. *)
Lemma buildRequest_content_length_witness :
  exists o,
    heap (snd (buildRequest rt "wp-login.php" credentials "POST" true (start blog []))) !! 0%nat =
      Some o /\
    getOwnProperty o "Content-Length" = Some (Str "20").
Proof.
  set (b := buildRequest rt "wp-login.php" credentials "POST" true (start blog [])).
  assert (E : b = (Ok (returned (fst b) empty_exchange), snd b))
    by (vm_compute; reflexivity).
  assert (Hrq : request (returned (fst b) empty_exchange) =
                Some (request_of (returned (fst b) empty_exchange)))
    by (vm_compute; reflexivity).
  destruct (buildRequest_content_length rt "wp-login.php" credentials "POST" true
              (start blog []) _ _ _ E Hrq) as (_ & l & o & Hl & Ho & _ & Hc).
  assert (l = 0%nat) by (vm_compute in Hl; congruence). subst l.
  exists o. split; [exact Ho|]. vm_compute in Hc. vm_compute. exact Hc.
Defined.

(** A request without authentication on a session that has cookies and a
    nonce. *)
Lemma buildRequest_credentials_witness :
  exists o,
    heap (snd (buildRequest rt "wp-json/" DNull "GET" false (start ready []))) !! 0%nat =
      Some o /\
    getOwnProperty o "Cookie" = Some (Str "humans_21909=1") /\
    getOwnProperty o "X-WP-Nonce" = None.
Proof.
  set (b := buildRequest rt "wp-json/" DNull "GET" false (start ready [])).
  assert (E : b = (Ok (returned (fst b) empty_exchange), snd b))
    by (vm_compute; reflexivity).
  assert (Hrq : request (returned (fst b) empty_exchange) =
                Some (request_of (returned (fst b) empty_exchange)))
    by (vm_compute; reflexivity).
  destruct (buildRequest_credentials rt "wp-json/" DNull "GET" false
              (start ready []) _ _ _ E Hrq) as (l & o & Hl & Ho & Hc).
  assert (l = 0%nat) by (vm_compute in Hl; congruence). subst l.
  exists o. split; [exact Ho|]. exact Hc.
Defined.

Lemma buildRequest_header_names_witness :
  exists o,
    heap (snd (buildRequest rt "wp/v2/users/me" DNull "GET" true (start ready []))) !! 0%nat =
      Some o /\
    List.map fst o =
      ["Content-Type"; "Content-Length"; "Accept"; "Accept-Encoding"; "Accept-Language";
       "User-Agent"; "Cookie"; "X-WP-Nonce"; "Host"; "Connection"].
Proof.
  set (b := buildRequest rt "wp/v2/users/me" DNull "GET" true (start ready [])).
  assert (E : b = (Ok (returned (fst b) empty_exchange), snd b))
    by (vm_compute; reflexivity).
  assert (Hrq : request (returned (fst b) empty_exchange) =
                Some (request_of (returned (fst b) empty_exchange)))
    by (vm_compute; reflexivity).
  destruct (buildRequest_header_names rt "wp/v2/users/me" DNull "GET" true
              (start ready []) _ _ _ E Hrq) as (l & o & Hl & Ho & Hn & _).
  assert (l = 0%nat) by (vm_compute in Hl; congruence). subst l.
  exists o. split; [exact Ho|]. exact Hn.
Defined.

Lemma buildRequest_does_not_send_witness :
  net (snd (buildRequest rt "wp/v2/users/me" DNull "GET" true
              (start ready [answer 200 [] "[]"]))) =
  [answer 200 [] "[]"].
Proof.
  set (b := buildRequest rt "wp/v2/users/me" DNull "GET" true
              (start ready [answer 200 [] "[]"])).
  assert (E : b = (Ok (returned (fst b) empty_exchange), snd b))
    by (vm_compute; reflexivity).
  exact (proj1 (buildRequest_does_not_send rt "wp/v2/users/me" DNull "GET" true _ _ _ E)).
Defined.


(** A caller's header object that names another host. *)
Lemma buildHTTP1Request_overwrites_host_witness :
  exists o1,
    heap (snd (buildHTTP1Request "/blog/x" "GET" None (Some 0%nat)
                 (with_headers blog [("Host", Str "elsewhere.org"); ("X-A", Str "1")]))) !! 0%nat =
      Some o1 /\
    getOwnProperty o1 "Host" = Some (Str "example.com") /\
    getOwnProperty o1 "X-A" = Some (Str "1").
Proof.
  destruct (buildHTTP1Request_overwrites_host "/blog/x" "GET" None 0%nat
              [("Host", Str "elsewhere.org"); ("X-A", Str "1")]
              (with_headers blog [("Host", Str "elsewhere.org"); ("X-A", Str "1")])
              _ _ eq_refl (surjective_pairing _))
    as ((o1 & H1 & H2 & _ & H4 & _) & _).
  exists o1. split; [exact H1|]. split; [exact H2|].
  rewrite H4 by discriminate. reflexivity.
Defined.

Lemma buildHTTP1Request_without_headers_witness :
  exists st1,
    buildHTTP1Request "/blog/x" "GET" None None (start blog []) =
      (Ok (built (HTTP1 true) (_baseURL blog) "/blog/x" "GET" None None), st1) /\
    heap st1 = [[("Host", Str "example.com")]; [("Connection", Str "keep-alive")]].
Proof.
  destruct (buildHTTP1Request_without_headers "/blog/x" "GET" None (start blog []) true
              eq_refl) as (st1 & H1 & H2 & _).
  exists st1. split; [exact H1 | exact H2].
Defined.

Lemma buildHTTP2Request_connects_witness :
  calls (snd (buildHTTP2Request "/blog/x" "GET" None (Some 0%nat)
                (with_headers upgraded [("Cookie", Str "wordpress_logged_in=xyz")]))) =
  [http2_connect "https://example.com"; http2_request (Some 0%nat)].
Proof.
  destruct (buildHTTP2Request_connects "/blog/x" "GET" None 0%nat
              [("Cookie", Str "wordpress_logged_in=xyz")]
              (with_headers upgraded [("Cookie", Str "wordpress_logged_in=xyz")])
              _ _ eq_refl (surjective_pairing _))
    as (_ & _ & H).
  exact (proj2 H).
Defined.


(** A response that never ends. *)
Lemma callAPI_waits_for_the_end_witness :
  fst (callAPI rt "users/me" DNull "GET" true
         {| this := ready; heap := [];
            net := [{| end_throws := Some "socket hang up";
                       events := [EvResponse 200 []; EvData "[{"] |}];
            calls := [] |}) = Hang.
Proof.
  exact (callAPI_waits_for_the_end rt "users/me" DNull "GET" true ready []
           [{| end_throws := Some "socket hang up";
               events := [EvResponse 200 []; EvData "[{"] |}] [] true
           eq_refl eq_refl eq_refl).
Defined.

Lemma callAPI_leaves_session_witness :
  _authCookies (this (snd (callAPI rt "users/me" DNull "GET" true
                             (start ready [answer 200 [] "[]"])))) =
  Some ["wordpress_logged_in=xyz"].
Proof.
  exact (proj1 (proj2 (callAPI_leaves_session rt "users/me" DNull "GET" true
                         (start ready [answer 200 [] "[]"]) _ _ (surjective_pairing _)))).
Defined.

Lemma getAPISettings_leaves_cookies_witness :
  _authCookies (this (snd (getAPISettings rt true (start logged_in [answer 200 [] page])))) =
  Some ["wordpress_logged_in=old"].
Proof.
  exact (proj1 (getAPISettings_leaves_cookies rt true
                  (start logged_in [answer 200 [] page]) _ _ (surjective_pairing _))).
Defined.

Lemma getAPISettings_stores_before_checking_witness :
  fst (getAPISettings rt true (start ready [answer 200 [] stray_page])) =
    Throw (InvalidURL "nowhere") /\
  _APISettings (this (snd (getAPISettings rt true (start ready [answer 200 [] stray_page])))) =
    Some stray_settings.
Proof.
  destruct (getAPISettings_stores_before_checking rt true ready [] [answer 200 [] stray_page]
              [] true 200%Z [] [stray_page] [] eq_refl eq_refl eq_refl eq_refl)
    as [H _].
  destruct (H stray_settings) as (H1 & H2 & _);
    [vm_compute; reflexivity | reflexivity | reflexivity |].
  split; [exact H1 | exact H2].
Defined.

(** A client that is logged in logs in again and receives a cookie that is
    not a session cookie. *)
Lemma login_failure_cookies_witness :
  authenticated
    (this (snd (login rt "admin" "secret" "wp-login.php"
                  (start logged_in [answer 200 [("set-cookie", VList ["sessionid=abc"])] ""])))) =
  false.
Proof.
  set (b := login rt "admin" "secret" "wp-login.php"
              (start logged_in [answer 200 [("set-cookie", VList ["sessionid=abc"])] ""])).
  assert (E : b = (Throw AuthCookiesNotReceived, snd b)) by (vm_compute; reflexivity).
  exact (proj2 (login_failure_cookies rt "admin" "secret" "wp-login.php" _ _ _ E)).
Defined.

Lemma login_success_witness :
  authenticated
    (this (snd (login rt "admin" "secret" "wp-login.php"
                  (start blog [answer 302 cookies_sent ""; answer 200 [] page])))) = true.
Proof.
  set (b := login rt "admin" "secret" "wp-login.php"
              (start blog [answer 302 cookies_sent ""; answer 200 [] page])).
  assert (E : b = (Ok (returned (fst b) no_login), snd b)) by (vm_compute; reflexivity).
  exact (proj1 (login_success rt "admin" "secret" "wp-login.php" _ _ _ E)).
Defined.

Lemma login_upgrade_resends_witness :
  flag (this (snd (login rt "admin" "secret" "wp-login.php"
                     {| this := blog; heap := [];
                        net := [answer 101 upgrade_asked ""; answer 302 cookies_sent "";
                                answer 200 [] page];
                        calls := [] |}))) = true.
Proof.
  exact (proj1 (login_upgrade_resends rt "admin" "secret" "wp-login.php" blog [] [] true
                  (answer 101 upgrade_asked "")
                  [answer 302 cookies_sent ""; answer 200 [] page]
                  101%Z upgrade_asked [""] [] eq_refl eq_refl eq_refl eq_refl)).
Defined.

Lemma login_then_callAPI_witness :
  fst (callAPI rt "users/me" DNull "GET" true
         {| this := this (snd (login rt "admin" "secret" "wp-login.php"
                                 (start blog [answer 302 cookies_sent "";
                                              answer 200 [] page])));
            heap := heap (snd (login rt "admin" "secret" "wp-login.php"
                                 (start blog [answer 302 cookies_sent "";
                                              answer 200 [] page])));
            net := [answer 200 [] "[]"];
            calls := calls (snd (login rt "admin" "secret" "wp-login.php"
                                   (start blog [answer 302 cookies_sent "";
                                                answer 200 [] page]))) |}) <>
  Throw APICallNeedsLogin.
Proof.
  set (b := login rt "admin" "secret" "wp-login.php"
              (start blog [answer 302 cookies_sent ""; answer 200 [] page])).
  assert (E : b = (Ok (returned (fst b) no_login), snd b)) by (vm_compute; reflexivity).
  exact (proj1 (login_then_callAPI rt "admin" "secret" "wp-login.php" _ _ _
                  "users/me" DNull "GET" [answer 200 [] "[]"] _ _
                  E (surjective_pairing _))).
Defined.
